(** * Fractal-it: structural analyzer, fractal algorithms and orchestration

    A shallow embedding of the TypeScript sources of the Fractal-it browser
    extension, and the properties of its specification stated over it.

    Conventions of the embedding.
    - A JavaScript string is the list of its UTF-16 code units ([jsstring],
      a [list Z]); string literals of the source are written [js "..."].
    - A JavaScript number that the source only ever uses as an integer
      (counts, depths, hashes, loop counters) is a [Z]; 32-bit operators
      ([<<], [&]) are written out with their wrap-around.
    - Any other JavaScript number is an exact rational ([Q]); rounding of
      IEEE doubles is not modelled.  Functions of the host ([Math.sin],
      [Math.random], the THREE colour parser, the DOM parser) are variables
      of the sections that need them. *)

From Stdlib Require Import ZArith QArith Qminmax Qround String Ascii List Lia Lqa Bool.
From stdpp Require Import base option list gmap strings.
Import ListNotations.

#[global] Set Warnings "-register-all".

Open Scope Z_scope.

(* ===================================================================== *)
(** * JavaScript strings *)
(* ===================================================================== *)

Module JS.

Abbreviation jsstring := (list Z).

(** The code unit of an ASCII character of a source literal. *)
Definition code (a : ascii) : Z := Z.of_N (N_of_ascii a).

(** A source string literal as a list of code units. *)
Definition js (s : string) : list Z := map code (list_ascii_of_string s).

(** [String.prototype.charCodeAt] inside [for (i = 0; i < str.length; i++)]
    visits the code units in order; the list itself is that sequence. *)

(** [\s] of a JavaScript regular expression: the white space and line
    terminator code points. *)
Definition is_space (c : Z) : bool :=
  (c =? 9) || (c =? 10) || (c =? 11) || (c =? 12) || (c =? 13) || (c =? 32)
  || (c =? 160) || (c =? 5760) || ((8192 <=? c) && (c <=? 8202))
  || (c =? 8232) || (c =? 8233) || (c =? 8239) || (c =? 8287)
  || (c =? 12288) || (c =? 65279).

(** [.] of a JavaScript regular expression (no [s] flag): anything but a
    line terminator. *)
Definition is_line_terminator (c : Z) : bool :=
  (c =? 10) || (c =? 13) || (c =? 8232) || (c =? 8233).

Definition dot (c : Z) : bool := negb (is_line_terminator c).

(** [[a-zA-Z0-9\-]] *)
Definition is_tag_char (c : Z) : bool :=
  ((97 <=? c) && (c <=? 122)) || ((65 <=? c) && (c <=? 90))
  || ((48 <=? c) && (c <=? 57)) || (c =? 45).

(** [String.prototype.toLowerCase] on one code unit.  The analyzer applies
    it to the first capture group of the tag pattern only, whose code units
    are all in [[a-zA-Z0-9\-]]; there it maps [A-Z] to [a-z] and fixes
    everything else. *)
Definition lower (c : Z) : Z := if (65 <=? c) && (c <=? 90) then c + 32 else c.

Definition toLowerCase (s : list Z) : list Z := map lower s.

(* --------------------------------------------------------------------- *)
(** ** A backtracking matcher for the patterns of the source

    Every regular expression literal of the analyzer is a sequence of
    atoms, an atom being a set of code units under a quantifier: exactly
    one, greedy [*], greedy [+], or lazy [*?].  The matcher follows the
    backtracking order of ECMAScript: a greedy atom tries the longest
    repetition first, a lazy one the shortest. *)

Inductive quantifier := One | Star | Plus | LazyStar.

Record atom := Atom { accepts : Z -> bool; quant : quantifier }.

Definition regex := list atom.

(** A successful match: the text matched by each atom, in order, and the
    rest of the subject. *)
Definition match_result : Type := list (list Z) * list Z.

Definition with_text (m : list Z) (r : match_result) : match_result :=
  (m :: fst r, snd r).

Definition extend (c : Z) (r : match_result) : match_result :=
  match fst r with
  | m :: ms => ((c :: m) :: ms, snd r)
  | [] => ([[c]], snd r)
  end.

(** Greedy repetition of [p], then the continuation [k]. *)
Fixpoint greedy_star (p : Z -> bool) (k : list Z -> option match_result)
    (s : list Z) : option match_result :=
  match s with
  | c :: s' =>
      if p c then
        match greedy_star p k s' with
        | Some r => Some (extend c r)
        | None => with_text [] <$> k s
        end
      else with_text [] <$> k s
  | [] => with_text [] <$> k s
  end.

(** Lazy repetition of [p], then the continuation [k]. *)
Fixpoint lazy_star (p : Z -> bool) (k : list Z -> option match_result)
    (s : list Z) : option match_result :=
  match k s with
  | Some r => Some (with_text [] r)
  | None =>
      match s with
      | c :: s' => if p c then extend c <$> lazy_star p k s' else None
      | [] => None
      end
  end.

(** Match [r] at the start of [s]. *)
Fixpoint exec_at (r : regex) (s : list Z) : option match_result :=
  match r with
  | [] => Some ([], s)
  | a :: r' =>
      match quant a with
      | One =>
          match s with
          | c :: s' => if accepts a c then with_text [c] <$> exec_at r' s' else None
          | [] => None
          end
      | Star => greedy_star (accepts a) (exec_at r') s
      | Plus =>
          match s with
          | c :: s' =>
              if accepts a c then extend c <$> greedy_star (accepts a) (exec_at r') s'
              else None
          | [] => None
          end
      | LazyStar => lazy_star (accepts a) (exec_at r') s
      end
  end.

(** The whole text of a match. *)
Definition matched (r : match_result) : list Z := concat (fst r).

(** A literal code unit, and a literal string, as patterns. *)
Definition lit (c : Z) : atom := Atom (Z.eqb c) One.
Definition lits (s : string) : regex := map lit (js s).

(** [subject.replace(re, by)] for a pattern with the [g] flag: the subject
    is scanned from the left; where the pattern matches, the match is
    replaced and the scan resumes behind it (one code unit further after an
    empty match); elsewhere the code unit is kept.  [fuel] bounds the number
    of scan steps; [S (length s)] of them are enough. *)
Fixpoint replace_from (fuel : nat) (re : regex) (by_ : list Z) (s : list Z)
    : list Z :=
  match fuel with
  | O => s
  | S fuel' =>
      let keep :=
        match s with
        | [] => []
        | c :: s' => c :: replace_from fuel' re by_ s'
        end in
      match exec_at re s with
      | Some r =>
          match matched r with
          | [] => by_ ++ keep
          | _ :: _ => by_ ++ replace_from fuel' re by_ (snd r)
          end
      | None => keep
      end
  end.

Definition replace_all (re : regex) (by_ : list Z) (s : list Z) : list Z :=
  replace_from (S (length s)) re by_ s.

(** [while ((match = re.exec(subject)))] for a pattern with the [g] flag:
    the successive matches, from the left.  On an empty match the loop of
    the source would never advance; the model stops there, and the one
    pattern the loop is used with never matches the empty string (lemma
    [tagRegex_nonempty] below). *)
Fixpoint exec_all_from (fuel : nat) (re : regex) (s : list Z)
    : list (list (list Z)) :=
  match fuel with
  | O => []
  | S fuel' =>
      match exec_at re s with
      | Some r =>
          match matched r with
          | [] => []
          | _ :: _ => fst r :: exec_all_from fuel' re (snd r)
          end
      | None =>
          match s with
          | [] => []
          | _ :: s' => exec_all_from fuel' re s'
          end
      end
  end.

Definition exec_all (re : regex) (s : list Z) : list (list (list Z)) :=
  exec_all_from (S (length s)) re s.

End JS.
Import JS.

(* ===================================================================== *)
(** * The structural analyzer ([src/utils/htmlAnalyzer.ts]) *)
(* ===================================================================== *)

Module HTMLAnalyzer.

(** ** 32-bit integer operators *)

(** [ToInt32]: wrap to the signed 32-bit range. *)
Definition to_int32 (z : Z) : Z := (z + 2 ^ 31) mod 2 ^ 32 - 2 ^ 31.

(** [a << n] for [0 <= n < 32]. *)
Definition shl32 (a n : Z) : Z := to_int32 (Z.shiftl (to_int32 a) n).

(** [a & b] *)
Definition and32 (a b : Z) : Z := Z.land (to_int32 a) (to_int32 b).

(** ** [Number.prototype.toString(radix)] on an integer *)

Definition digit_char (d : Z) : Z := if d <? 10 then 48 + d else 97 + (d - 10).

Fixpoint digits (radix : Z) (fuel : nat) (n : Z) : list Z :=
  match fuel with
  | O => [digit_char n]
  | S fuel' =>
      if n <? radix then [digit_char n]
      else digits radix fuel' (n / radix) ++ [digit_char (n mod radix)]
  end.

(** A number below [2 ^ k] has at most [k] digits in any radix; the
    binary logarithm is the fuel. *)
Definition toString (radix : Z) (n : Z) : list Z :=
  if n <? 0 then 45 :: digits radix (Z.to_nat (Z.log2 (- n))) (- n)
  else digits radix (Z.to_nat (Z.log2 n)) n.

(** ** [simpleHash] *)

(** One turn of the loop body:
    [hash = (hash << 5) - hash + char; hash = hash & hash]. *)
Definition hash_step (hash char : Z) : Z :=
  let hash := shl32 hash 5 - hash + char in
  and32 hash hash.

Definition hash_loop (str : list Z) : Z := fold_left hash_step str 0.

Definition simpleHash (str : list Z) : list Z := toString 36 (hash_loop str).

(** ** [generateStructuralHash] *)

(** [/\s+/g] *)
Definition spaceRegex : regex := [Atom is_space Plus].

(** [/<!--.*?-->/g] *)
Definition commentRegex : regex :=
  lits "<!--" ++ [Atom dot LazyStar] ++ lits "-->".

(** The double quote (code unit 34), written [dq] throughout. *)
Definition dq : Z := 34.

(** [[^dq]]: any code unit but the double quote. *)
Definition not_quote (c : Z) : bool := negb (c =? dq).

(** [/name=dq[^dq]*dq/g] for [name] one of [style], [class], [id]. *)
Definition attrRegex (name : string) : regex :=
  lits name ++ [lit 61; lit dq] ++ [Atom not_quote Star] ++ [lit dq].

Definition styleRegex : regex := attrRegex "style".
Definition classRegex : regex := attrRegex "class".
Definition idRegex : regex := attrRegex "id".

Definition simplify (html : list Z) : list Z :=
  replace_all idRegex []
    (replace_all classRegex []
      (replace_all styleRegex []
        (replace_all commentRegex []
          (replace_all spaceRegex (js " ") html)))).

Definition generateStructuralHash (html : list Z) : list Z :=
  simpleHash (simplify html).

(** ** [extractTagCounts] *)

(** The tag pattern: an opening angle bracket, one or more of
    [[a-zA-Z0-9\-]] (the first group), any number of code units other than
    the closing angle bracket (the second group), a closing angle bracket.
    The first group is the text of the second atom. *)
Definition not_gt (c : Z) : bool := negb (c =? 62).

Definition tagRegex : regex :=
  [lit 60; Atom is_tag_char Plus; Atom not_gt Star; lit 62].

Definition group1 (m : list (list Z)) : list Z := nth 1 m [].

(** A value held by a counting object such as [tagCounts].  The source
    declares the values as numbers and computes each as
    [(counts[key] || 0) + 1].  The object is created by the literal [{}], so
    a key that is not an own property is looked up in [Object.prototype]:
    there the read yields a function, which is truthy, and [+ 1] appends
    the character 1 to its source text.  [Text k] is that text followed by
    [k] characters 1. *)
Inductive count :=
  | Num (n : Z)
  | Text (ones : nat).

(** The own properties of the object, in insertion order. *)
Definition counts : Type := list (list Z * count).

Fixpoint own (o : counts) (key : list Z) : option count :=
  match o with
  | [] => None
  | (k, v) :: o' => if decide (k = key) then Some v else own o' key
  end.

(** The members of [Object.prototype] that a key of a counting object can
    name.  The keys are lower-cased tag names, spelled in [[a-z0-9\-]]; of
    the members (constructor, hasOwnProperty, isPrototypeOf, toString,
    valueOf, ...) only this one is spelled so. *)
Definition inherited (key : list Z) : bool :=
  bool_decide (key = js "constructor").

(** [(o[key] || 0) + 1] *)
Definition incremented (o : counts) (key : list Z) : count :=
  match own o key with
  | Some (Num n) => if n =? 0 then Num 1 else Num (n + 1)
  | Some (Text k) => Text (S k)
  | None => if inherited key then Text 1 else Num 1
  end.

(** [o[key] = v]: an own property keeps its place, a new one goes last. *)
Fixpoint assign (o : counts) (key : list Z) (v : count) : counts :=
  match o with
  | [] => [(key, v)]
  | (k, w) :: o' =>
      if decide (k = key) then (k, v) :: o' else (k, w) :: assign o' key v
  end.

Definition count_tag (o : counts) (m : list (list Z)) : counts :=
  let tag := toLowerCase (group1 m) in
  assign o tag (incremented o tag).

Definition extractTagCounts (html : list Z) : counts :=
  fold_left count_tag (exec_all tagRegex html) [].

(** [o[key] > 0]: false for a missing key, for an inherited member and for
    a text (each converts to NaN or is undefined). *)
Definition positive_count (o : counts) (key : list Z) : bool :=
  match own o key with
  | Some (Num n) => 0 <? n
  | _ => false
  end.

(** ** The feature record ([HTMLFeatures]) *)

Record HTMLFeatures := {
  tagCounts : counts;
  classCounts : counts;
  idCounts : counts;
  attributeCounts : counts;
  (* semanticStructure *)
  nestingDepth : Z;
  semanticTags : list (list Z);
  interactiveTags : list (list Z);
  mediaTags : list (list Z);
  (* contentMetrics *)
  textLength : Z;
  linkCount : Z;
  imageCount : Z;
  formElements : Z;
  (* domComplexity *)
  totalElements : Z;
  uniqueTags : Z;
  avgNestingLevel : Q;
  maxNestingLevel : Z;
  colorPalette : list (list Z);
  structuralHash : list Z;
}.

(** ** The document tree of the host

    [analyze] hands the markup to the host's [DOMParser] and reads the
    resulting tree.  A node is an element, with its lower-cased tag name
    ([el.tagName.toLowerCase()]) and children, or a text node of a given
    length. *)
Inductive node :=
  | Elem (tag : list Z) (kids : list node)
  | TextNode (len : Z).

Record document := { documentElement : node; body : option node }.

(** [querySelectorAll("*")]: the elements below and including [n], in
    document order, each with its depth ([getElementDepth]: the number of
    [parentElement] steps to the root). *)
Fixpoint elements_at (depth : Z) (n : node) : list (list Z * Z) :=
  match n with
  | Elem tag kids => (tag, depth) :: flat_map (elements_at (depth + 1)) kids
  | TextNode _ => []
  end.

Definition allElements (doc : document) : list (list Z * Z) :=
  elements_at 0 (documentElement doc).

(** [textContent.length] *)
Fixpoint textContentLength (n : node) : Z :=
  match n with
  | Elem _ kids => fold_right (fun k acc => textContentLength k + acc) 0 kids
  | TextNode len => len
  end.

(** [calculateMaxNestingDepth] *)
Fixpoint calculateMaxNestingDepth (n : node) : Z :=
  match n with
  | Elem _ kids =>
      fold_left (fun maxDepth k =>
                   match k with
                   | Elem _ _ => Z.max maxDepth (calculateMaxNestingDepth k)
                   | TextNode _ => maxDepth
                   end) kids 0 + 1
  | TextNode _ => 0
  end.

(** [[...new Set(xs)]]: first occurrences, in order. *)
Fixpoint unique (xs : list (list Z)) : list (list Z) :=
  match xs with
  | [] => []
  | x :: xs' => x :: filter (fun y => y <> x) (unique xs')
  end.

Definition includes (xs : list (list Z)) (x : list Z) : bool :=
  bool_decide (x ∈ xs).

Definition semanticTagNames : list (list Z) :=
  map js ["header"; "nav"; "main"; "section"; "article"; "aside"; "footer";
          "h1"; "h2"; "h3"; "h4"; "h5"; "h6"; "figure"; "figcaption"]%string.

Definition interactiveTagNames : list (list Z) :=
  map js ["button"; "input"; "select"; "textarea"; "a"; "form"; "label"]%string.

Definition mediaTagNames : list (list Z) :=
  map js ["img"; "video"; "audio"; "canvas"; "svg"; "picture"; "source"]%string.

Definition count_tags (doc : document) (names : list (list Z)) : Z :=
  Z.of_nat (length (filter (fun e => includes names (fst e) = true) (allElements doc))).

Section Analyze.

(** The host's parser, [new DOMParser().parseFromString(html, "text/html")],
    and the extractors of the analyzer that the properties below do not
    constrain. *)
Variable parseFromString : list Z -> document.
Variable extractClassCounts extractIdCounts extractAttributeCounts : list Z -> counts.
Variable extractColorPalette : list Z -> list (list Z).

Definition tags_among (doc : document) (names : list (list Z)) : list (list Z) :=
  unique (filter (fun t => includes names t = true) (map fst (allElements doc))).

Definition analyze (html : list Z) : HTMLFeatures :=
  let doc := parseFromString html in
  let all := allElements doc in
  let totalElements := Z.of_nat (length all) in
  let totalNesting := fold_left (fun acc e => acc + snd e) all 0 in
  {| tagCounts := extractTagCounts html;
     classCounts := extractClassCounts html;
     idCounts := extractIdCounts html;
     attributeCounts := extractAttributeCounts html;
     nestingDepth :=
       match body doc with Some b => calculateMaxNestingDepth b | None => 0 end;
     semanticTags := tags_among doc semanticTagNames;
     interactiveTags := tags_among doc interactiveTagNames;
     mediaTags := tags_among doc mediaTagNames;
     textLength :=
       match body doc with Some b => textContentLength b | None => 0 end;
     linkCount := count_tags doc [js "a"];
     imageCount := count_tags doc [js "img"];
     formElements := count_tags doc (map js ["input"; "select"; "textarea"; "button"]%string);
     totalElements := totalElements;
     uniqueTags := Z.of_nat (length (unique (map fst all)));
     avgNestingLevel :=
       if 0 <? totalElements then inject_Z totalNesting / inject_Z totalElements
       else 0%Q;
     maxNestingLevel := fold_left (fun m e => Z.max m (snd e)) all 0;
     colorPalette := extractColorPalette html;
     structuralHash := generateStructuralHash html |}.

End Analyze.

End HTMLAnalyzer.
Import HTMLAnalyzer.

(* ===================================================================== *)
(** * The class, id and attribute counts ([src/utils/htmlAnalyzer.ts]) *)
(* ===================================================================== *)

Module CountExtractors.

(** The apostrophe, code unit 39.  The patterns below accept either quote
    character where a value opens and closes, and neither of them inside
    the value. *)
Definition sq : Z := 39.

Definition is_quote (c : Z) : bool := (c =? dq) || (c =? sq).

Definition no_quote (c : Z) : bool := negb (is_quote c).

(** [\w] *)
Definition is_word_char (c : Z) : bool :=
  ((97 <=? c) && (c <=? 122)) || ((65 <=? c) && (c <=? 90))
  || ((48 <=? c) && (c <=? 57)) || (c =? 95).

(** The common end of the three patterns: any white space, the equals
    sign, any white space, a quote character, any number of code units that
    are no quote character, a quote character.  The opening and the closing
    quote need not be the same character. *)
Definition quoted_value : regex :=
  [Atom is_space Star; lit 61; Atom is_space Star;
   Atom is_quote One; Atom no_quote Star; Atom is_quote One].

(** The class pattern: the letters of class, then the quoted value.  Its
    group is the value, the text of atom 9. *)
Definition classRegex : regex := lits "class" ++ quoted_value.

(** The id pattern: the letters of id, then the quoted value.  Its group
    is the value, the text of atom 6. *)
Definition idRegex : regex := lits "id" ++ quoted_value.

(** The attribute pattern: one or more of [\w], then the quoted value.
    Its group is the name, the text of atom 0; its code units are in [\w],
    where [lower] acts as [toLowerCase] does. *)
Definition attrRegex : regex := Atom is_word_char Plus :: quoted_value.

(** [String.prototype.trim]: it removes the code units of [\s] at both
    ends. *)
Fixpoint trimStart (s : list Z) : list Z :=
  match s with
  | c :: s' => if is_space c then trimStart s' else s
  | [] => []
  end.

Definition trimEnd (s : list Z) : list Z := reverse (trimStart (reverse s)).

Definition trim (s : list Z) : list Z := trimEnd (trimStart s).

(** [s.split(sep)] for a pattern [sep]: the subject is scanned from the
    left; [piece] is the text since the last separator.  Where the pattern
    matches, the piece is closed and the scan resumes behind the match;
    a match that ends where the piece starts (an empty match at the start
    of a piece) is passed over.  At the end the last piece is closed.
    [fuel] bounds the number of scan steps. *)
Fixpoint split_from (fuel : nat) (sep : regex) (piece s : list Z)
    : list (list Z) :=
  match fuel with
  | O => [piece ++ s]
  | S fuel' =>
      match s with
      | [] => [piece]
      | c :: s' =>
          match exec_at sep s with
          | Some r =>
              match matched r, piece with
              | [], [] => split_from fuel' sep [c] s'
              | _, _ => piece :: split_from fuel' sep [] (snd r)
              end
          | None => split_from fuel' sep (piece ++ [c]) s'
          end
      end
  end.

(** The split of the empty string by a pattern that does not match it is
    the array of the empty string. *)
Definition split (sep : regex) (s : list Z) : list (list Z) :=
  match s with
  | [] => match exec_at sep [] with Some _ => [] | None => [[]] end
  | _ :: _ => split_from (S (2 * length s)) sep [] s
  end.

(** The members of [Object.prototype] that hold a function.  A counting
    object is created by the literal [{}]; the read of a key that is not an
    own property finds these. *)
Definition prototype_functions : list (list Z) :=
  map js ["constructor"; "__defineGetter__"; "__defineSetter__";
          "hasOwnProperty"; "__lookupGetter__"; "__lookupSetter__";
          "isPrototypeOf"; "propertyIsEnumerable"; "toString"; "valueOf";
          "toLocaleString"]%string.

(** The accessor member of [Object.prototype]: its read yields the
    prototype, an object, and its write of a value that is no object does
    nothing. *)
Definition proto : list Z := js "__proto__".

(** [o[key] = (o[key] || 0) + 1] *)
Definition count_key (o : counts) (key : list Z) : counts :=
  if decide (key = proto) then o
  else
    assign o key
      match own o key with
      | Some (Num n) => if n =? 0 then Num 1 else Num (n + 1)
      | Some (Text k) => Text (S k)
      | None => if bool_decide (key ∈ prototype_functions) then Text 1 else Num 1
      end.

(** [match[1].split(/\s+/)] and the pieces [cls] with a truthy
    [cls.trim()]. *)
Definition class_names (m : list (list Z)) : list (list Z) :=
  filter (fun cls => trim cls <> []) (split spaceRegex (nth 9 m [])).

Definition extractClassCounts (html : list Z) : counts :=
  fold_left (fun classCounts m => fold_left count_key (class_names m) classCounts)
    (exec_all classRegex html) [].

Definition extractIdCounts (html : list Z) : counts :=
  fold_left (fun idCounts m =>
               let id := trim (nth 6 m []) in
               if decide (id = []) then idCounts else count_key idCounts id)
    (exec_all idRegex html) [].

Definition extractAttributeCounts (html : list Z) : counts :=
  fold_left (fun attributeCounts m =>
               count_key attributeCounts (toLowerCase (nth 0 m [])))
    (exec_all attrRegex html) [].

End CountExtractors.

(* ===================================================================== *)
(** * Numbers, the host and scene objects *)
(* ===================================================================== *)

Module Scene.

Local Open Scope Q_scope.

(** [Math.trunc] on a rational, and the remainder operator [a % b] of
    JavaScript on non-integers (the sign follows the dividend). *)
Definition Qtrunc (q : Q) : Z := if Qle_bool 0 q then Qfloor q else Qceiling q.

Definition fmod (a b : Q) : Q := a - b * inject_Z (Qtrunc (a / b)).

Definition vec3 : Type := Q * Q * Q.

(** A [THREE.Color], by the way it is constructed. *)
Inductive color :=
  | ColorStyle (css : list Z)
  | ColorHex (hex : Z)
  | ColorHSL (h s l : Q).

(** A geometry, by the constructor call that makes it.  [BufferGeometry]
    carries its [position] and [color] attributes, [ShapeGeometry] stands
    for [createShapeGeometry(shape, size)]. *)
Inductive geometry :=
  | BufferGeometry (position colors : list Q)
  | PointsGeometry (points : list vec3)
  | TetrahedronGeometry (radius : Q)
  | SphereGeometry (radius : Q) (widthSegments heightSegments : Z)
  | RingGeometry (inner outer : Q) (thetaSegments : Z) (phiSegments : option Z)
  | CylinderGeometry (radiusTop radiusBottom height : Q)
  | TubeGeometry (path : list vec3) (tubularSegments : Z) (radius : Q)
      (radialSegments : Z) (closed : bool)
  | ShapeGeometry (shape : list Z) (size : Q).

Inductive material :=
  | PointsMaterial (size : Q)
  | LineBasicMaterial (tint : option color) (opacity : option Q)
  | MeshBasicMaterial (tint : color) (opacity : option Q)
  | MeshPhongMaterial (tint emissive : color) (emissiveIntensity : Q)
      (opacity : option Q).

(** A [THREE.Object3D] as the generators build it. *)
Inductive object3d :=
  | Points (g : geometry) (m : material)
  | Line (g : geometry) (m : material)
  | LineSegments (g : geometry) (m : material)
  | Mesh (g : geometry) (m : material) (position rotation : vec3)
      (userData : list Q) (children : list object3d)
  | Group (children : list object3d).

(** The functions of the host that the generators call. *)
Class Host := {
  sin : Q -> Q;
  cos : Q -> Q;
  sqrt : Q -> Q;
  log : Q -> Q;
  PI : Q;
  (** the [r], [g], [b] fields of a [THREE.Color] *)
  color_rgb : color -> Q * Q * Q;
}.

(** [Math.random]: the ambient, unseeded source.  A state of the source is
    the sequence of numbers it is going to return and how many were
    drawn. *)
Record random_source := { draws : nat -> Q; drawn : nat }.

(** A computation that may draw random numbers and may run out of fuel. *)
Definition M (A : Type) : Type := random_source -> option (A * random_source).

#[export] Instance M_ret : MRet M := fun A x r => Some (x, r).

#[export] Instance M_bind : MBind M := fun A B f m r =>
  match m r with
  | Some (x, r') => f x r'
  | None => None
  end.

Definition random : M Q := fun r =>
  Some (draws r (drawn r), {| draws := draws r; drawn := S (drawn r) |}).

Definition out_of_fuel {A} : M A := fun _ => None.

(** [for (let i = 0; i < n; i++) body] over a state. *)
Definition for_loop {S : Type} (n : Z) (body : Z -> S -> S) (init : S) : S :=
  fold_left (fun s i => body i s) (seqZ 0 n) init.

Fixpoint foldM {S : Type} (body : Z -> S -> M S) (l : list Z) (s : S) : M S :=
  match l with
  | [] => mret s
  | i :: l' => s' ← body i s; foldM body l' s'
  end.

Definition for_loopM {S : Type} (n : Z) (body : Z -> S -> M S) (init : S) : M S :=
  foldM body (seqZ 0 n) init.

End Scene.
Import Scene.

(* ===================================================================== *)
(** * The generation algorithms ([FractalAlgorithms]) *)
(* ===================================================================== *)

Module FractalAlgorithms.

Local Open Scope Q_scope.

Record FractalParams := {
  iterations : Z;
  complexity : Q;
  scale : option Q;
  colorSeed : Z;
  algorithm : list Z;
  morphFactor : Q;
  animationSpeed : Q;
}.

(** The [vertices] and [colors] arrays that a generator fills by [push]. *)
Definition arrays : Type := list Q * list Q.

Definition push (a : arrays) (vs cs : list Q) : arrays :=
  (fst a ++ vs, snd a ++ cs).

(** [scale] is a number of the source that can be NaN ([None]); no
    generator reads it. *)

(** ** The escape-time loop

    [while (x * x + y * y <= 4 && iteration < 100) {
       xtemp = x * x - y * y + a; y = 2 * x * y + b; x = xtemp; iteration++ }]
    The counter bounds the loop, so 100 units of fuel are never used up. *)
Fixpoint escape_loop (fuel : nat) (a b x y : Q) (iteration : Z) : Z :=
  match fuel with
  | O => iteration
  | S fuel' =>
      if Qle_bool (x * x + y * y) 4 && (iteration <? 100)%Z then
        let xtemp := x * x - y * y + a in
        let y := 2 * x * y + b in
        let x := xtemp in
        escape_loop fuel' a b x y (iteration + 1)
      else iteration
  end.

Definition escape_time (a b x y : Q) : Z := escape_loop 100 a b x y 0.

Section Generators.

Context {host : Host}.

Definition semanticTagCount (features : HTMLFeatures) : Z :=
  Z.of_nat (length (semanticTags features)).

(** ** [generateMandelbrotSet] *)

(** The sample point of grid index [i]:
    [((i - params.iterations / 2) * zoom) / 100 + offset]. *)
Definition mandelbrot_sample (params : FractalParams) (zoom offset : Q) (i : Z) : Q :=
  ((inject_Z i - inject_Z (iterations params) / 2) * zoom) / 100 + offset.

Definition mandelbrot_point (features : HTMLFeatures) (params : FractalParams)
    (zoom offsetX offsetY : Q) (i j : Z) (out : arrays) : arrays :=
  let half := inject_Z (iterations params) / 2 in
  let x0 := mandelbrot_sample params zoom offsetX i in
  let y0 := mandelbrot_sample params zoom offsetY j in
  let iteration := escape_time x0 y0 0 0 in
  if (iteration <? 100)%Z then
    let hue := fmod (inject_Z (iteration * 360) / 100 + inject_Z (colorSeed params)) 360 in
    let saturation := 80 + inject_Z (Z.rem (semanticTagCount features * 2) 20) in
    let lightness := 50 + inject_Z (Z.rem iteration 30) in
    let '(r, g, b) := color_rgb (ColorHSL hue saturation lightness) in
    push out
      [(inject_Z i - half) * 0.1; (inject_Z j - half) * 0.1; inject_Z iteration * 0.5]
      [r; g; b]
  else out.

Definition mandelbrot_arrays (features : HTMLFeatures) (params : FractalParams)
    : arrays :=
  let zoom := 0.5 + inject_Z (nestingDepth features) * 0.1 in
  let offsetX := inject_Z (Z.rem (linkCount features) 100) * 0.001 in
  let offsetY := inject_Z (Z.rem (imageCount features) 100) * 0.001 in
  for_loop (iterations params) (fun i out =>
    for_loop (iterations params) (fun j out =>
      mandelbrot_point features params zoom offsetX offsetY i j out) out)
    ([], []).

Definition generateMandelbrotSet (features : HTMLFeatures) (params : FractalParams)
    : object3d :=
  let complexity := Qmin (inject_Z (totalElements features) / 100) 5 in
  let out := mandelbrot_arrays features params in
  Points (BufferGeometry (fst out) (snd out)) (PointsMaterial (0.8 + complexity * 0.2)).

(** ** [generateJuliaSet] *)

(** The start point of grid index [i]:
    [((i - params.iterations / 2) * 3) / params.iterations]. *)
Definition julia_sample (params : FractalParams) (i : Z) : Q :=
  ((inject_Z i - inject_Z (iterations params) / 2) * 3) / inject_Z (iterations params).

Definition julia_point (features : HTMLFeatures) (params : FractalParams)
    (cReal cImag complexity : Q) (i j : Z) (out : arrays) : arrays :=
  let half := inject_Z (iterations params) / 2 in
  let x := julia_sample params i in
  let y := julia_sample params j in
  let iteration := escape_time cReal cImag x y in
  if (iteration <? 100)%Z then
    let hue :=
      fmod (inject_Z (iteration * 180) / 100 + inject_Z (colorSeed params)
            + inject_Z (Z.of_nat (length (colorPalette features)) * 20)) 360 in
    let '(r, g, b) := color_rgb (ColorHSL hue 90 60) in
    push out
      [(inject_Z i - half) * 0.15; (inject_Z j - half) * 0.15;
       sin (inject_Z iteration * 0.1) * complexity]
      [r; g; b]
  else out.

Definition julia_arrays (features : HTMLFeatures) (params : FractalParams)
    : arrays :=
  let cReal := -0.7 + inject_Z (Z.rem (uniqueTags features) 20) * 0.05 in
  let cImag := 0.27015 + inject_Z (Z.rem (formElements features) 10) * 0.02 in
  let complexity := Qmin (inject_Z (totalElements features) / 50) 8 in
  for_loop (iterations params) (fun i out =>
    for_loop (iterations params) (fun j out =>
      julia_point features params cReal cImag complexity i j out) out)
    ([], []).

Definition generateJuliaSet (features : HTMLFeatures) (params : FractalParams)
    : object3d :=
  let complexity := Qmin (inject_Z (totalElements features) / 50) 8 in
  let out := julia_arrays features params in
  Points (BufferGeometry (fst out) (snd out)) (PointsMaterial (0.5 + complexity * 0.1)).

(** ** [generateDragonCurve] *)

(** One rewriting of the sequence: the character 1 (code 49) becomes
    [1R2], any other character becomes [1L2]. *)
Definition rewrite_sequence (sequence : list Z) : list Z :=
  flat_map (fun c => if (c =? 49)%Z then js "1R2" else js "1L2") sequence.

Definition dragon_sequence (depth : Z) : list Z :=
  for_loop depth (fun _ sequence => rewrite_sequence sequence) (js "1").

Record turtle := {
  tx : Q; ty : Q; tz : Q; direction : Q; drawn_lines : arrays;
}.

Definition dragon_step (features : HTMLFeatures) (params : FractalParams)
    (sequence : list Z) (scale : Q) (i : Z) (t : turtle) : turtle :=
  match sequence !! Z.to_nat i with
  | Some char =>
      if (char =? 49)%Z || (char =? 50)%Z then
        let x := tx t + cos (direction t) * scale in
        let y := ty t + sin (direction t) * scale in
        let z :=
          tz t + sin (inject_Z i * 0.01 + inject_Z (totalElements features) * 0.001)
                 * scale * 0.5 in
        let hue :=
          fmod (inject_Z (i * 180) / inject_Z (Z.of_nat (length sequence))
                + inject_Z (colorSeed params)) 360 in
        let '(r, g, b) := color_rgb (ColorHSL hue 85 65) in
        {| tx := x; ty := y; tz := z; direction := direction t;
           drawn_lines :=
             push (drawn_lines t) [tx t; ty t; tz t; x; y; z] [r; g; b; r; g; b] |}
      else if (char =? 82)%Z then
        {| tx := tx t; ty := ty t; tz := tz t;
           direction := direction t + PI / 2; drawn_lines := drawn_lines t |}
      else if (char =? 76)%Z then
        {| tx := tx t; ty := ty t; tz := tz t;
           direction := direction t - PI / 2; drawn_lines := drawn_lines t |}
      else t
  | None => t
  end.

Definition generateDragonCurve (features : HTMLFeatures) (params : FractalParams)
    : object3d :=
  let depth := Z.min (nestingDepth features + 8) 16 in
  let scale := 0.5 + avgNestingLevel features * 0.1 in
  let sequence := dragon_sequence depth in
  let t :=
    for_loop (Z.min (Z.of_nat (length sequence)) (iterations params * 10))
      (dragon_step features params sequence scale)
      {| tx := 0; ty := 0; tz := 0; direction := 0; drawn_lines := ([], []) |} in
  LineSegments (BufferGeometry (fst (drawn_lines t)) (snd (drawn_lines t)))
    (LineBasicMaterial None None).

(** ** [generateSierpinskiTetrahedron] *)

Definition vadd (a b : vec3) : vec3 :=
  let '(ax, ay, az) := a in let '(bx, by_, bz) := b in (ax + bx, ay + by_, az + bz).

Definition vdiv (a : vec3) (k : Q) : vec3 :=
  let '(ax, ay, az) := a in (ax / k, ay / k, az / k).

Definition midpoint (a b : vec3) : vec3 := vdiv (vadd a b) 2.

(** [recursiveSierpinski]; [group] is the list of the children added so
    far.  The recursion is on [depth]; [fuel] makes it structural. *)
Fixpoint recursiveSierpinski (fuel : nat) (v0 v1 v2 v3 : vec3) (depth : Z)
    (group : list object3d) (params : FractalParams) (level : Z)
    : option (list object3d) :=
  match fuel with
  | O => None
  | S fuel' =>
      if (depth <=? 0)%Z || (15 <? level)%Z then
        let hue := fmod (inject_Z (level * 60 + colorSeed params)) 360 in
        let center := vdiv (vadd (vadd (vadd (vadd (0, 0, 0) v0) v1) v2) v3) 4 in
        Some (group ++
              [Mesh (TetrahedronGeometry 0.2)
                 (MeshBasicMaterial (ColorHSL hue 80 60) None)
                 center (0, 0, 0) [] []])
      else
        let m0 := midpoint v0 v1 in
        let m1 := midpoint v0 v2 in
        let m2 := midpoint v0 v3 in
        let m3 := midpoint v1 v2 in
        let m4 := midpoint v1 v3 in
        let m5 := midpoint v2 v3 in
        group ← recursiveSierpinski fuel' v0 m0 m1 m2 (depth - 1) group params (level + 1);
        group ← recursiveSierpinski fuel' v1 m0 m3 m4 (depth - 1) group params (level + 1);
        group ← recursiveSierpinski fuel' v2 m1 m3 m5 (depth - 1) group params (level + 1);
        recursiveSierpinski fuel' v3 m2 m4 m5 (depth - 1) group params (level + 1)
  end.

Definition generateSierpinskiTetrahedron (fuel : nat) (features : HTMLFeatures)
    (params : FractalParams) : option object3d :=
  let depth := Z.min (nestingDepth features + 3) 8 in
  let baseSize := 5 + inject_Z (uniqueTags features) * 0.2 in
  Group <$>
    recursiveSierpinski fuel
      (0, baseSize, 0) (- baseSize, - baseSize, baseSize)
      (baseSize, - baseSize, baseSize) (0, - baseSize, - baseSize)
      depth [] params 0.

(** ** [generateLorenzAttractor] *)

Record lorenz_state := { lx : Q; ly : Q; lz : Q; trace : arrays }.

Definition lorenz_step (params : FractalParams) (sigma rho beta : Q) (i : Z)
    (st : lorenz_state) : lorenz_state :=
  let dt := 0.01 in
  let dx := sigma * (ly st - lx st) * dt in
  let dy := (lx st * (rho - lz st) - ly st) * dt in
  let dz := (lx st * ly st - beta * lz st) * dt in
  let x := lx st + dx in
  let y := ly st + dy in
  let z := lz st + dz in
  let distance := sqrt (x * x + y * y + z * z) in
  let hue := fmod (distance * 10 + inject_Z (colorSeed params) + inject_Z i * 0.5) 360 in
  let '(r, g, b) := color_rgb (ColorHSL hue 90 60) in
  {| lx := x; ly := y; lz := z;
     trace := push (trace st) [x * 0.3; y * 0.3; z * 0.3] [r; g; b] |}.

Definition lorenz_arrays (features : HTMLFeatures) (params : FractalParams)
    : arrays :=
  let sigma := 10 + inject_Z (Z.rem (totalElements features) 100) * 0.1 in
  let rho := 28 + inject_Z (Z.rem (textLength features) 1000) * 0.01 in
  let beta := 8 / 3 + inject_Z (Z.rem (semanticTagCount features) 10) * 0.1 in
  trace (for_loop (iterations params * 20) (lorenz_step params sigma rho beta)
           {| lx := 0.1; ly := 0; lz := 0; trace := ([], []) |}).

Definition generateLorenzAttractor (features : HTMLFeatures) (params : FractalParams)
    : object3d :=
  let out := lorenz_arrays features params in
  let geometry := BufferGeometry (fst out) (snd out) in
  Group [Points geometry (PointsMaterial 0.3);
         Line geometry (LineBasicMaterial None None)].

(** ** [generateSpirograph] *)

Definition spirograph_point (params : FractalParams)
    (layer : Z) (layerR layerr layerd zOffset : Q) (i : Z) (out : arrays) : arrays :=
  let t := inject_Z i * 0.1 in
  let x := (layerR - layerr) * cos t + layerd * cos (((layerR - layerr) / layerr) * t) in
  let y := (layerR - layerr) * sin t - layerd * sin (((layerR - layerr) / layerr) * t) in
  let z := zOffset + sin (t * 0.2) * 2 in
  let hue := fmod (t * 30 + inject_Z (layer * 45) + inject_Z (colorSeed params)) 360 in
  let saturation := 70 + inject_Z (layer * 5) in
  let lightness := 50 + sin (t * 0.1) * 20 in
  let '(r, g, b) := color_rgb (ColorHSL hue saturation lightness) in
  push out [x * 0.3; y * 0.3; z * 0.3] [r; g; b].

Definition spirograph_arrays (features : HTMLFeatures) (params : FractalParams)
    : arrays :=
  let R := 5 + inject_Z (uniqueTags features) * 0.5 in
  let r := 2 + inject_Z (linkCount features) * 0.01 in
  let d := 3 + inject_Z (imageCount features) * 0.02 in
  let layers := Z.min (semanticTagCount features + 2) 8 in
  for_loop layers (fun layer out =>
    let layerR := R + inject_Z layer * 2 in
    let layerr := r + inject_Z layer * 0.5 in
    let layerd := d + inject_Z layer * 0.3 in
    let zOffset := inject_Z layer * 2 in
    for_loop (iterations params * 5)
      (spirograph_point params layer layerR layerr layerd zOffset) out)
    ([], []).

Definition generateSpirograph (features : HTMLFeatures) (params : FractalParams)
    : object3d :=
  let out := spirograph_arrays features params in
  Line (BufferGeometry (fst out) (snd out)) (LineBasicMaterial None None).

(** ** [generateFractalTree]

    [generateBranch] appends one segment (two vertices, two colours) and
    recurses [branchingFactor] times with [depth - 1]; it draws from
    [Math.random] for the new length and for each child's angle and tilt.
    The recursion is on [depth]; [fuel] makes it structural. *)
Fixpoint generateBranch (fuel : nat)
    (startX startY startZ endX endY endZ : Q) (depth branchingFactor : Z)
    (params : FractalParams) (out : arrays) : M arrays :=
  match fuel with
  | O => out_of_fuel
  | S fuel' =>
      if (depth <=? 0)%Z || (20 <? depth)%Z then mret out
      else
        let out := push out [startX; startY; startZ; endX; endY; endZ] [] in
        let hue := Z.rem ((12 - depth) * 30 + colorSeed params) 360 in
        let saturation := (60 + depth * 5)%Z in
        let lightness := (40 + depth * 3)%Z in
        let '(r, g, b) :=
          color_rgb (ColorHSL (inject_Z hue) (inject_Z saturation) (inject_Z lightness)) in
        let out := push out [] [r; g; b; r; g; b] in
        let length :=
          sqrt ((endX - startX) * (endX - startX) + (endY - startY) * (endY - startY)
                + (endZ - startZ) * (endZ - startZ)) in
        u ← random;
        let newLength := length * (0.6 + u * 0.2) in
        for_loopM branchingFactor (fun i out =>
          u1 ← random;
          let angle := (inject_Z i * 2 * PI) / inject_Z branchingFactor + u1 * 0.5 in
          u2 ← random;
          let tilt := (u2 - 0.5) * PI * 0.3 in
          let newEndX := endX + cos angle * cos tilt * newLength in
          let newEndY := endY + newLength * 0.8 in
          let newEndZ := endZ + sin angle * cos tilt * newLength in
          generateBranch fuel' endX endY endZ newEndX newEndY newEndZ
            (depth - 1) (Z.max 2 (branchingFactor - 1)) params out) out
  end.

Definition generateFractalTree (fuel : nat) (features : HTMLFeatures)
    (params : FractalParams) : M object3d :=
  let maxDepth := Z.min (nestingDepth features + 6) 12 in
  let branchingFactor := Z.min (uniqueTags features + 2) 6 in
  out ← generateBranch fuel 0 0 0 0 8 0 maxDepth branchingFactor params ([], []);
  mret (LineSegments (BufferGeometry (fst out) (snd out)) (LineBasicMaterial None None)).

End Generators.

End FractalAlgorithms.

(* ===================================================================== *)
(** * The tag-driven algorithms ([DynamicFractalAlgorithms]) *)
(* ===================================================================== *)

Module DynamicFractalAlgorithms.

Import FractalAlgorithms.

Local Open Scope Q_scope.

(** [hashCode]: the rolling hash of the analyzer, absolute value taken. *)
Definition hashCode (str : list Z) : Z := Z.abs (hash_loop str).

(** [tag + seed]: the number is appended in decimal. *)
Definition concat_number (tag : list Z) (seed : Z) : list Z :=
  tag ++ toString 10 seed.

Definition colorSchemes_structural : list (list Z) :=
  map js ["#FF6B6B"; "#4ECDC4"; "#45B7D1"; "#96CEB4"; "#FFEAA7"]%string.
Definition colorSchemes_semantic : list (list Z) :=
  map js ["#FD79A8"; "#A29BFE"; "#74B9FF"; "#55EFC4"; "#FDCB6E"]%string.
Definition colorSchemes_interactive : list (list Z) :=
  map js ["#E17055"; "#00B894"; "#6C5CE7"; "#FDCB6E"; "#00CEC9"]%string.
Definition colorSchemes_media : list (list Z) :=
  map js ["#FAB1A0"; "#FF7675"; "#FD79A8"; "#E84393"; "#BE2EDD"]%string.
Definition colorSchemes_text : list (list Z) :=
  map js ["#81ECEC"; "#74B9FF"; "#A29BFE"; "#DFE6E9"; "#B2BEC3"]%string.
Definition colorSchemes_navigation : list (list Z) :=
  map js ["#00D2D3"; "#54A0FF"; "#5F27CD"; "#341F97"; "#EE5A24"]%string.

Definition getColorSchemeForTag (tag : list Z) : list (list Z) :=
  if includes (map js ["h1"; "h2"; "h3"; "h4"; "h5"; "h6"; "p"; "span"; "em"; "strong"]%string) tag
  then colorSchemes_text
  else if includes (map js ["header"; "nav"; "footer"; "aside"]%string) tag
  then colorSchemes_navigation
  else if includes (map js ["button"; "input"; "select"; "textarea"; "form"; "label"]%string) tag
  then colorSchemes_interactive
  else if includes (map js ["img"; "video"; "audio"; "canvas"; "svg"; "picture"]%string) tag
  then colorSchemes_media
  else if includes (map js ["section"; "article"; "main"; "div"]%string) tag
  then colorSchemes_structural
  else colorSchemes_semantic.

Definition getColorForTag (tag : list Z) (seed : Z) : color :=
  let scheme := getColorSchemeForTag tag in
  let index := Z.rem (Z.abs (hashCode (concat_number tag seed))) (Z.of_nat (length scheme)) in
  ColorStyle (nth (Z.to_nat index) scheme []).

(** [tagShapeMap], read at the tag names of the semantic list and at
    [div] only. *)
Definition tagShapeMap : list (list Z * list Z) :=
  map (fun p => (js (fst p), js (snd p)))
    [("div", "square"); ("span", "circle"); ("p", "wave"); ("a", "star");
     ("img", "hexagon"); ("video", "hexagon"); ("h1", "triangle");
     ("h2", "triangle"); ("h3", "triangle"); ("header", "wave");
     ("nav", "spiral"); ("section", "square"); ("article", "hexagon");
     ("button", "star"); ("input", "circle"); ("form", "square");
     ("ul", "spiral"); ("ol", "spiral"); ("li", "circle"); ("table", "square");
     ("footer", "wave"); ("main", "hexagon"); ("aside", "triangle");
     ("figure", "hexagon"); ("canvas", "star"); ("svg", "star")]%string.

Fixpoint lookup_shape (table : list (list Z * list Z)) (tag : list Z) : option (list Z) :=
  match table with
  | [] => None
  | (k, v) :: table' => if decide (k = tag) then Some v else lookup_shape table' tag
  end.

(** [this.tagShapeMap[tag] || 'circle'] *)
Definition shape_of (tag : list Z) : list Z :=
  match lookup_shape tagShapeMap tag with
  | Some shape => shape
  | None => js "circle"
  end.

(** ** [Object.keys]

    The own keys of an object: the array indices in ascending order, then
    the other keys in insertion order. *)
Definition is_digit (c : Z) : bool := (48 <=? c)%Z && (c <=? 57)%Z.

Definition decimal_value (k : list Z) : Z :=
  fold_left (fun acc c => (acc * 10 + (c - 48))%Z) k 0%Z.

Definition array_index (k : list Z) : option Z :=
  match k with
  | [] => None
  | c :: k' =>
      if forallb is_digit k && (negb (c =? 48)%Z || bool_decide (k' = []))
         && (decimal_value k <? 2 ^ 32 - 1)%Z
      then Some (decimal_value k) else None
  end.

Fixpoint insert_index (i : Z) (k : list Z) (l : list (Z * list Z)) : list (Z * list Z) :=
  match l with
  | [] => [(i, k)]
  | (j, k') :: l' => if (i <? j)%Z then (i, k) :: l else (j, k') :: insert_index i k l'
  end.

Definition index_keys (o : counts) : list (Z * list Z) :=
  fold_left (fun acc e =>
               match array_index (fst e) with
               | Some i => insert_index i (fst e) acc
               | None => acc
               end) o [].

Definition Object_keys (o : counts) : list (list Z) :=
  map snd (index_keys o)
  ++ map fst (filter (fun e => array_index (fst e) = None) o).

Section Generators.

Context {host : Host}.

(** ** [generateHtmlDnaHelix] ([generateTagBasedFractal]) *)

Record helix_state := { helix_points : list vec3; helix_colors : list Q;
                        helix_group : list object3d }.

Definition helix_point (helixIndex : Z) (points : Z) (radius : Q) (tint : color)
    (i : Z) (st : helix_state) : helix_state :=
  let totalHeight := 20 in
  let baseRadius := 8 in
  let t := inject_Z i / inject_Z points in
  let angle := t * PI * 8 + inject_Z helixIndex * PI / 4 in
  let height := t * totalHeight - totalHeight / 2 in
  let x := cos angle * radius * (1 + sin (t * PI * 6) * 0.3) in
  let y := height in
  let z := sin angle * radius * (1 + cos (t * PI * 4) * 0.3) in
  let '(r, g, b) := color_rgb tint in
  let bridge :=
    if (0 <? helixIndex)%Z && (Z.rem i 10 =? 0)%Z then
      let prevRadius := baseRadius + inject_Z (helixIndex - 1) * 2 in
      let prevX := cos angle * prevRadius in
      let prevZ := sin angle * prevRadius in
      [Line (BufferGeometry [x; y; z; prevX; y; prevZ] [])
         (LineBasicMaterial (Some tint) (Some 0.4))]
    else [] in
  {| helix_points := helix_points st ++ [(x, y, z)];
     helix_colors := helix_colors st ++ [r; g; b];
     helix_group := helix_group st ++ bridge |}.

Definition nucleotide (helixIndex : Z) (points : Z) (radius : Q) (tint : color)
    (i : Z) : object3d :=
  let totalHeight := 20 in
  let t := inject_Z i / inject_Z points in
  let angle := t * PI * 8 + inject_Z helixIndex * PI / 4 in
  let height := t * totalHeight - totalHeight / 2 in
  let x := cos angle * radius in
  let z := sin angle * radius in
  Mesh (SphereGeometry 0.5 8 8) (MeshPhongMaterial tint tint 0.5 None)
    (x, height, z) (0, 0, 0) [] [].

(** [for (let i = 0; i < points; i += 15)]: the values of [i]. *)
Definition every_15th (points : Z) : list Z :=
  map (fun k => (15 * k)%Z) (seqZ 0 ((points + 14) / 15)).

Definition helix (params : FractalParams) (tagCounts : counts)
    (helixIndex : Z) (tag : list Z) (group : list object3d) : list object3d :=
  match own tagCounts tag with
  | Some (Num count) =>
      if (count =? 0)%Z then group
      else
        let baseRadius := 8 in
        let radius := baseRadius + inject_Z helixIndex * 2 in
        let points := Z.min (count * 5) 200 in
        let tint := getColorForTag tag (colorSeed params + helixIndex * 50) in
        let st :=
          for_loop points (helix_point helixIndex points radius tint)
            {| helix_points := []; helix_colors := []; helix_group := group |} in
        let tube :=
          if (1 <? Z.of_nat (length (helix_points st)))%Z then
            [Mesh (TubeGeometry (helix_points st) 64 0.3 8 false)
               (MeshPhongMaterial tint tint 0.3 (Some 0.7)) (0, 0, 0) (0, 0, 0) [] []]
          else [] in
        helix_group st ++ tube
        ++ map (nucleotide helixIndex points radius tint) (every_15th points)
  | _ => group
  end.

Definition generateHtmlDnaHelix (features : HTMLFeatures) (params : FractalParams)
    : object3d :=
  let tagTypes := Object_keys (tagCounts features) in
  let helixCount := Z.min (Z.of_nat (length tagTypes)) 8 in
  Group
    (for_loop helixCount (fun helixIndex group =>
       match tagTypes !! Z.to_nat helixIndex with
       | Some tag => helix params (tagCounts features) helixIndex tag group
       | None => group
       end) []).

Definition generateTagBasedFractal := generateHtmlDnaHelix.

(** ** [generateGeometricMandala] *)

Definition mandala_layer (features : HTMLFeatures) (params : FractalParams)
    (layer : Z) (group : list object3d) : list object3d :=
  let radius := inject_Z ((layer + 1) * 3) in
  let segments := (6 + layer * 2)%Z in
  let tag :=
    match semanticTags features !! Z.to_nat layer with
    | Some (c :: t) => c :: t
    | _ => js "div"
    end in
  let tint := getColorForTag tag (colorSeed params) in
  let ring :=
    Mesh (RingGeometry (radius - 0.5) radius segments (Some 1%Z))
      (MeshBasicMaterial tint (Some (0.7 - inject_Z layer * 0.08)))
      (0, 0, 0) (0, 0, (inject_Z layer * PI) / inject_Z segments) [] [] in
  let shapes :=
    map (fun i =>
           let angle := (inject_Z i / inject_Z segments) * PI * 2 in
           let shapeSize := 0.5 + inject_Z layer * 0.2 in
           Mesh (ShapeGeometry (shape_of tag) shapeSize)
             (MeshPhongMaterial tint tint 0.2 None)
             (cos angle * radius, sin angle * radius, inject_Z layer * 0.5)
             (0, 0, angle) [] [])
        (seqZ 0 segments) in
  group ++ shapes ++ [ring].

Definition generateGeometricMandala (features : HTMLFeatures) (params : FractalParams)
    : object3d :=
  let layers := Z.min (semanticTagCount features + 3) 8 in
  Group (for_loop layers (mandala_layer features params) []).

(** ** [generateSpiderWebDimension]

    The spokes and rings are computed from the features; the dewdrops and
    the insects are placed with [Math.random]. *)

Definition web_spoke (layer : Z) (radius : Q) (spokes rings : Z) (layerColor : color)
    (spokeIndex : Z) : object3d :=
  let angle := (inject_Z spokeIndex / inject_Z spokes) * PI * 2 in
  Line
    (PointsGeometry
       (map (fun r =>
               let currentRadius := (radius * inject_Z r) / inject_Z rings in
               (cos angle * currentRadius,
                sin (inject_Z r * 0.5) * (inject_Z layer * 0.8),
                sin angle * currentRadius))
            (seqZ 0 (rings + 1))))
    (LineBasicMaterial (Some layerColor) (Some (0.7 - inject_Z layer * 0.08))).

Definition web_ring (layer : Z) (radius : Q) (spokes rings : Z) (layerColor : color)
    (ring : Z) : object3d :=
  let ringRadius := (radius * inject_Z ring) / inject_Z rings in
  Mesh (RingGeometry (ringRadius - 0.1) (ringRadius + 0.1) spokes None)
    (MeshBasicMaterial layerColor (Some (0.4 - inject_Z layer * 0.04)))
    (0, sin (inject_Z ring * 0.5) * (inject_Z layer * 0.8), 0) (PI / 2, 0, 0) [] [].

Definition web_dewdrop (layer : Z) (radius : Q) (spokes rings : Z) (layerColor : color)
    (d : Z) (group : list object3d) : M (list object3d) :=
  u1 ← random;
  let spoke := Qfloor (u1 * inject_Z spokes) in
  u2 ← random;
  let ring := (1 + Qfloor (u2 * inject_Z (rings - 1)))%Z in
  let angle := (inject_Z spoke / inject_Z spokes) * PI * 2 in
  let currentRadius := (radius * inject_Z ring) / inject_Z rings in
  let x := cos angle * currentRadius in
  let z := sin angle * currentRadius in
  let y := sin (inject_Z ring * 0.5) * (inject_Z layer * 0.8) in
  u3 ← random;
  u4 ← random;
  u5 ← random;
  mret (group ++
        [Mesh (SphereGeometry (0.2 + u3 * 0.3) 8 8)
           (MeshPhongMaterial (ColorHex 16777215) layerColor 0.2 (Some 0.8))
           (x, y, z) (0, 0, 0) [0.02 + u4 * 0.03; u5 * PI * 2; 0.8] []]).

Definition web_insect (radius : Q) (layerColor : color)
    (i : Z) (group : list object3d) : M (list object3d) :=
  u1 ← random;
  let startAngle := u1 * PI * 2 in
  u2 ← random;
  let startRadius := radius * 0.5 + u2 * radius * 0.5 in
  u3 ← random;
  let height := (u3 - 0.5) * 10 in
  u4 ← random;
  u5 ← random;
  u6 ← random;
  mret (group ++
        [Mesh (SphereGeometry 0.1 6 6)
           (MeshPhongMaterial layerColor layerColor 0.5 None)
           (cos startAngle * startRadius, height, sin startAngle * startRadius)
           (0, 0, 0)
           [0.01 + u4 * 0.02; startRadius; startAngle; height;
            0.03 + u5 * 0.02; u6 * PI * 2] []]).

Definition web_layer (layer : Z) (group : list object3d) : M (list object3d) :=
  let radius := inject_Z (6 + layer * 3) in
  let spokes := (8 + layer * 2)%Z in
  let rings := (5 + layer)%Z in
  let layerColor :=
    ColorStyle (nth (Z.to_nat (Z.rem layer 5)) colorSchemes_navigation []) in
  let group := group ++ map (web_spoke layer radius spokes rings layerColor) (seqZ 0 spokes) in
  let group := group ++ map (web_ring layer radius spokes rings layerColor) (seqZ 1 rings) in
  let dewdrops := Qfloor (inject_Z (spokes * rings) * 0.3) in
  group ← for_loopM dewdrops (web_dewdrop layer radius spokes rings layerColor) group;
  u ← random;
  let insects := Qfloor (6 + u * 8) in
  for_loopM insects (web_insect radius layerColor) group.

Definition spider : object3d :=
  Mesh (SphereGeometry 1 12 12)
    (MeshPhongMaterial (ColorHex 3342336) (ColorHex 1114112) 0.3 None)
    (0, 0, 0) (0, 0, 0) []
    (map (fun leg =>
            let legAngle := (inject_Z leg / 8) * PI * 2 in
            Mesh (CylinderGeometry 0.05 0.1 2)
              (MeshPhongMaterial (ColorHex 2228224) (ColorHex 1114112) 0.2 None)
              (cos legAngle * 1.5, 0, sin legAngle * 1.5) (0, 0, legAngle) [] [])
         (seqZ 0 8)).

Definition generateSpiderWebDimension (features : HTMLFeatures) (params : FractalParams)
    : M object3d :=
  let complexity := totalElements features in
  let webLayers := Z.min (complexity / 25) 8 in
  group ← for_loopM webLayers web_layer [];
  mret (Group (group ++ [spider])).

End Generators.

End DynamicFractalAlgorithms.

(* ===================================================================== *)
(** * The section orchestrator ([EnhancedFractalGenerator]) *)
(* ===================================================================== *)

Module EnhancedFractalGenerator.

Import FractalAlgorithms.

Local Open Scope Q_scope.

(** How a call ends: normally with a value, or by a thrown error. *)
Inductive completion (A : Type) :=
  | Normal (value : A)
  | Throw (message : list Z).
Arguments Normal {A} value.
Arguments Throw {A} message.

(** A section.  [position] and [scale] are numbers of the source that can
    be NaN; [None] stands for NaN. *)
Record FractalSection := {
  name : list Z;
  section_algorithm : list Z;
  enabled : bool;
  position : option vec3;
  section_scale : option Q;
}.

Record RenderSettings := {
  background : list Z;
  lighting : bool;
  postProcessing : bool;
  animation : bool;
  quality : list Z;
}.

(** An object as mounted in the scene: the generated object with the
    position, scale and rotation the orchestrator gave it. *)
Record mounted := {
  object : object3d;
  mounted_position : option vec3;
  mounted_scale : option Q;
  mounted_rotation : vec3;
}.

(** The state of a generator instance.  Every [scene.add] of the class is
    paired with a [currentMeshes.push] and every [scene.remove] with the
    reset of [currentMeshes], so that list also stands for the fractal
    objects of the scene.  The lights, the renderer's buffers and the orbit
    controls belong to the host and are left out. *)
Record generator := {
  features : option HTMLFeatures;
  currentMeshes : list mounted;
  animating : bool;
  camera : vec3;
  settings : option RenderSettings;
}.

(** [new EnhancedFractalGenerator()] *)
Definition fresh_generator : generator :=
  {| features := None; currentMeshes := []; animating := false;
     camera := (0, 0, 0); settings := None |}.

(** [simpleHash] of this class: the rolling hash, absolute value taken. *)
Definition simpleHash (str : list Z) : Z := Z.abs (hash_loop str).

Definition sectionTypes : list (list Z) :=
  map js ["header"; "footer"; "body"; "section"; "nav"; "main"; "article"]%string.

Definition algorithmMap : list (list Z) :=
  map js ["mandelbrot"; "julia"; "lorenz"; "dragon"; "sierpinski"; "spirograph"; "tree"]%string.

(** [choices[index]]; an index outside the array yields [undefined] in the
    source, written here as the string of that name: every reader of the
    algorithm name treats the two alike (the default branch of
    [createFractalObject], the default of [calculateIterations]). *)
Definition pick (choices : list string) (index : Z) : list Z :=
  if (index <? 0)%Z then js "undefined"
  else nth (Z.to_nat index) (map js choices) (js "undefined").

Section Generator.

Context {host : Host}.

Definition selectAlgorithmForSection (f : HTMLFeatures) (sectionType : list Z)
    (index : Z) : list Z :=
  let hash := simpleHash (sectionType ++ structuralHash f) in
  let complexityFactor := totalElements f in
  if decide (sectionType = js "header") then
    pick ["mandelbrot"; "julia"; "spirograph"]%string (Z.rem (hash + complexityFactor) 3)
  else if decide (sectionType = js "footer") then
    pick ["lorenz"; "dragon"]%string (Z.rem (hash + complexityFactor) 2)
  else if decide (sectionType = js "body" \/ sectionType = js "main") then
    pick ["sierpinski"; "tree"; "spirograph"]%string (Z.rem (hash + complexityFactor) 3)
  else if decide (sectionType = js "nav") then js "dragon"
  else if decide (sectionType = js "section" \/ sectionType = js "article") then
    pick ["tree"; "julia"; "mandelbrot"; "spirograph"]%string (Z.rem (hash + complexityFactor) 4)
  else
    nth (Z.to_nat (Z.rem index (Z.of_nat (length algorithmMap)))) algorithmMap (js "undefined").

(** [calculateSectionPosition]; with [totalSections = 0] the angle is a
    division by zero and every coordinate is NaN. *)
Definition calculateSectionPosition (index totalSections : Z) : option vec3 :=
  if (totalSections =? 1)%Z then Some (0, 0, 0)
  else if (totalSections =? 0)%Z then None
  else
    let radius := inject_Z (20 + totalSections * 3) in
    let angle := (inject_Z index * 2 * PI) / inject_Z totalSections in
    let height := sin (angle * 2) * 10 + (inject_Z index - inject_Z totalSections / 2) * 5 in
    Some (cos angle * radius, height, sin angle * radius).

(** [calculateSectionScale]; a count that is a text makes the scale NaN. *)
Definition calculateSectionScale (f : HTMLFeatures) (sectionType : list Z) : option Q :=
  let count :=
    match own (tagCounts f) sectionType with
    | Some (Num n) => Some (if (n =? 0)%Z then 1%Z else n)
    | Some (Text _) => None
    | None => if inherited sectionType then None else Some 1%Z
    end in
  match count with
  | None => None
  | Some count =>
      let baseScale := 0.7 + Qmin (inject_Z count / 10) 1.5 in
      if decide (sectionType = js "body" \/ sectionType = js "main") then
        Some (baseScale * 1.5)
      else if decide (sectionType = js "header" \/ sectionType = js "footer") then
        Some (baseScale * 1.2)
      else Some baseScale
  end.

Definition default_section : FractalSection :=
  {| name := js "default"; section_algorithm := js "mandelbrot"; enabled := true;
     position := Some (0, 0, 0); section_scale := Some 1 |}.

(** [createDefaultSections] *)
Definition createDefaultSections (features : option HTMLFeatures) : list FractalSection :=
  match features with
  | None => []
  | Some f =>
      let sections :=
        fold_left (fun sections '(index, type) =>
                     if positive_count (tagCounts f) type then
                       sections ++
                       [{| name := type;
                           section_algorithm := selectAlgorithmForSection f type index;
                           enabled := true;
                           position :=
                             calculateSectionPosition index (Z.of_nat (length sections));
                           section_scale := calculateSectionScale f type |}]
                     else sections)
          (zip (seqZ 0 (Z.of_nat (length sectionTypes))) sectionTypes) [] in
      match sections with
      | [] => [default_section]
      | _ :: _ => sections
      end
  end.

(** [calculateIterations] *)
Definition baseIterations (algorithm : list Z) : Z :=
  if decide (algorithm = js "mandelbrot") then 40
  else if decide (algorithm = js "julia") then 35
  else if decide (algorithm = js "lorenz") then 50
  else if decide (algorithm = js "dragon") then 20
  else if decide (algorithm = js "sierpinski") then 30
  else if decide (algorithm = js "spirograph") then 60
  else if decide (algorithm = js "tree") then 25
  else 30.

Definition calculateIterations (features : option HTMLFeatures) (algorithm : list Z) : Z :=
  let complexity :=
    match features with
    | Some f => if (totalElements f =? 0)%Z then 100%Z else totalElements f
    | None => 100%Z
    end in
  let multiplier := Qmin (1 + inject_Z complexity / 1000) 2 in
  Qfloor (inject_Z (baseIterations algorithm) * multiplier).

(** [createFractalObject]: the dispatch on the algorithm identifier.  The
    two recursive generators take [fuel]. *)
Definition createFractalObject (fuel : nat) (features : option HTMLFeatures)
    (algorithm : list Z) (params : FractalParams) : M (option object3d) :=
  match features with
  | None => mret None
  | Some f =>
      if decide (algorithm = js "mandelbrot") then mret (Some (generateMandelbrotSet f params))
      else if decide (algorithm = js "julia") then mret (Some (generateJuliaSet f params))
      else if decide (algorithm = js "lorenz") then mret (Some (generateLorenzAttractor f params))
      else if decide (algorithm = js "dragon") then mret (Some (generateDragonCurve f params))
      else if decide (algorithm = js "sierpinski") then
        match generateSierpinskiTetrahedron fuel f params with
        | Some o => mret (Some o)
        | None => out_of_fuel
        end
      else if decide (algorithm = js "spirograph") then mret (Some (generateSpirograph f params))
      else if decide (algorithm = js "tree") then
        o ← generateFractalTree fuel f params; mret (Some o)
      else mret (Some (generateMandelbrotSet f params))
  end.

(** [generateFractalSections] *)
Definition generateFractalSection (fuel : nat) (index : Z) (section : FractalSection)
    (g : generator) : M generator :=
  match features g with
  | Some f =>
      if enabled section then
        let params :=
          {| iterations := calculateIterations (features g) (section_algorithm section);
             complexity := avgNestingLevel f;
             scale := section_scale section;
             colorSeed := (simpleHash (name section ++ structuralHash f) + index * 60)%Z;
             algorithm := section_algorithm section;
             morphFactor := inject_Z (nestingDepth f) / 10;
             animationSpeed := 1 |} in
        fractalObject ← createFractalObject fuel (features g) (section_algorithm section) params;
        match fractalObject with
        | Some o =>
            let rotationOffset := (inject_Z index * PI) / 3 in
            let m :=
              {| object := o; mounted_position := position section;
                 mounted_scale := section_scale section;
                 mounted_rotation :=
                   (rotationOffset, rotationOffset * 0.7, rotationOffset * 0.3) |} in
            mret {| features := features g; currentMeshes := currentMeshes g ++ [m];
                    animating := animating g; camera := camera g;
                    settings := settings g |}
        | None => mret g
        end
      else mret g
  | None => mret g
  end.

Fixpoint generateFractalSections_from (fuel : nat) (index : Z)
    (sections : list FractalSection) (g : generator) : M generator :=
  match sections with
  | [] => mret g
  | section :: rest =>
      g ← generateFractalSection fuel index section g;
      generateFractalSections_from fuel (index + 1) rest g
  end.

Definition generateFractalSections (fuel : nat) (sections : list FractalSection)
    (g : generator) : M generator :=
  generateFractalSections_from fuel 0 sections g.

(** [clearPreviousFractal]: the current objects leave the scene, the
    animation frame is cancelled. *)
Definition clearCurrentMeshes (g : generator) : generator :=
  {| features := features g;
     currentMeshes := []; animating := animating g; camera := camera g;
     settings := settings g |}.

Definition clearPreviousFractal (g : generator) : generator :=
  let g := clearCurrentMeshes g in
  {| features := features g; currentMeshes := currentMeshes g;
     animating := false; camera := camera g; settings := settings g |}.

Definition positionCamera (g : generator) : generator :=
  let place :=
    match features g with
    | None => (50, 30, 50)
    | Some f =>
        let distance := 40 + log (inject_Z (totalElements f + 1)) * 10 in
        let height := 20 + inject_Z (nestingDepth f) * 2 in
        (distance, height, distance)
    end in
  {| features := features g; currentMeshes := currentMeshes g;
     animating := animating g; camera := place; settings := settings g |}.

(** The sections a request is generated from:
    [sections.length > 0 ? sections : defaultSections]. *)
Definition finalSections (features : option HTMLFeatures)
    (sections : list FractalSection) : list FractalSection :=
  match sections with
  | [] => createDefaultSections features
  | _ :: _ => sections
  end.

(** The analyzer of the instance; its [analyze] either returns the
    features or throws. *)
Variable analyze : list Z -> completion HTMLFeatures.

(** [generateFractal(html, sections, settings)]; the canvas it returns is
    the instance's own and is not part of the result here. *)
Definition generateFractal (fuel : nat) (html : list Z)
    (sections : list FractalSection) (s : RenderSettings) (g : generator)
    : M (completion generator) :=
  let g := clearPreviousFractal g in
  match analyze html with
  | Throw message => mret (Throw message)
  | Normal f =>
      let g :=
        {| features := Some f; currentMeshes := currentMeshes g;
           animating := animating g; camera := camera g; settings := Some s |} in
      g ← generateFractalSections fuel (finalSections (features g) sections) g;
      let g := positionCamera g in
      mret (Normal
              {| features := features g;
                 currentMeshes := currentMeshes g; animating := true;
                 camera := camera g; settings := settings g |})
  end.

End Generator.

End EnhancedFractalGenerator.

(* ===================================================================== *)
(** * The mode orchestrator ([OptimizedFractalGenerator]) *)
(* ===================================================================== *)

Module OptimizedFractalGenerator.

Import FractalAlgorithms DynamicFractalAlgorithms.

Local Open Scope Q_scope.

Record OptimizedFractalMode := {
  id : list Z;
  mode_name : list Z;
  mode_algorithm : list Z;
  performance : list Z;
}.

Definition modes : list OptimizedFractalMode :=
  [ {| id := js "dna-helix"; mode_name := js "HTML DNA Helix";
       mode_algorithm := js "tagBased"; performance := js "fast" |};
    {| id := js "crystal-growth"; mode_name := js "Crystal Growth";
       mode_algorithm := js "flowField"; performance := js "fast" |};
    {| id := js "neural-network"; mode_name := js "Living Neural Network";
       mode_algorithm := js "neuralNetwork"; performance := js "balanced" |};
    {| id := js "spider-web"; mode_name := js "Spider Web Dimension";
       mode_algorithm := js "spiderWeb"; performance := js "fast" |};
    {| id := js "mandala"; mode_name := js "Geometric Mandala";
       mode_algorithm := js "mandala"; performance := js "fast" |} ].

Record OptimizedRenderSettings := {
  settings_mode : list Z;
  quality : list Z;
  animation : bool;
  particleCount : Z;
  enableBloom : bool;
  enableDepthOfField : bool;
  cacheStrategy : list Z;
}.

(** An entry of [currentMeshes].  [reduceQuality] tells a [THREE.Points]
    with a [THREE.PointsMaterial] from everything else; the material is an
    object of its own, shared by every mesh that was given it, so it is
    held by address. *)
Inductive mesh_kind :=
  | PointsWith (g : geometry) (material : nat)
  | Other (o : object3d).

(** [frozen] is [userData.animated === false]. *)
Record mesh := { kind : mesh_kind; rotation_x : Q; rotation_y : Q; frozen : bool }.

(** [performanceMonitor.fps]: [Math.round(1000 / deltaTime)], infinite
    for a frame that took no time. *)
Inductive frame_rate := Fps (n : Z) | Infinite.

Record generator := {
  features : option HTMLFeatures;
  pixelRatio : Q;
  (** the [size] of each [PointsMaterial], by address *)
  pointSizes : gmap nat Q;
  currentMeshes : list mesh;
  geometryCache : gmap (list Z) geometry;
  materialCache : gmap (list Z) material;
  (** the state of a running animation: [lastFrameTime], [frameCount] *)
  animation_state : option (Q * Z);
  fps : frame_rate;
  frameTime : Q;
  camera : vec3;
}.

Definition set_quality (g : generator) (ratio : Q) (sizes : gmap nat Q) : generator :=
  {| features := features g; pixelRatio := ratio; pointSizes := sizes;
     currentMeshes := currentMeshes g; geometryCache := geometryCache g;
     materialCache := materialCache g; animation_state := animation_state g;
     fps := fps g; frameTime := frameTime g; camera := camera g |}.

Definition set_meshes (g : generator) (meshes : list mesh) (sizes : gmap nat Q) : generator :=
  {| features := features g; pixelRatio := pixelRatio g; pointSizes := sizes;
     currentMeshes := meshes; geometryCache := geometryCache g;
     materialCache := materialCache g; animation_state := animation_state g;
     fps := fps g; frameTime := frameTime g; camera := camera g |}.

(** ** [reduceQuality] *)

(** [mesh.material.size = Math.max(0.1, mesh.material.size * 0.8)] *)
Definition shrink (size : Q) : Q := Qmax 0.1 (size * 0.8).

Definition reduce_mesh (sizes : gmap nat Q) (m : mesh) : gmap nat Q :=
  match kind m with
  | PointsWith _ a => alter shrink a sizes
  | Other _ => sizes
  end.

Definition reduceQuality (g : generator) : generator :=
  let currentPixelRatio := pixelRatio g in
  let ratio :=
    if Qlt_le_dec 1 currentPixelRatio then Qmax 1 (currentPixelRatio - 0.5)
    else currentPixelRatio in
  set_quality g ratio (fold_left reduce_mesh (currentMeshes g) (pointSizes g)).

(** ** One frame of [startOptimizedAnimation]

    [animate], called by the host's scheduler at time [currentTime]. *)
Definition round (q : Q) : Z := Qfloor (q + 0.5).

Definition rotationSpeed (f : frame_rate) : Q :=
  match f with
  | Infinite => Qmin 0.005 0
  | Fps n => if (n =? 0)%Z then 0.005 else Qmin 0.005 (60 / inject_Z n * 0.005)
  end.

Definition rotate (speed : Q) (index : Z) (m : mesh) : mesh :=
  if frozen m then m
  else {| kind := kind m;
          rotation_x := rotation_x m + speed * 0.6 * (1 + inject_Z index * 0.05);
          rotation_y := rotation_y m + speed * (1 + inject_Z index * 0.1);
          frozen := frozen m |}.

Definition animate (currentTime : Q) (g : generator) : generator :=
  match animation_state g with
  | None => g
  | Some (lastFrameTime, frameCount) =>
      let deltaTime := currentTime - lastFrameTime in
      let frameCount := (frameCount + 1)%Z in
      let g :=
        if (Z.rem frameCount 30 =? 0)%Z then
          let rate :=
            if Qeq_bool deltaTime 0 then Infinite else Fps (round (1000 / deltaTime)) in
          let g :=
            {| features := features g; pixelRatio := pixelRatio g;
               pointSizes := pointSizes g; currentMeshes := currentMeshes g;
               geometryCache := geometryCache g; materialCache := materialCache g;
               animation_state := animation_state g;
               fps := rate; frameTime := deltaTime; camera := camera g |} in
          match rate with
          | Fps n => if (n <? 30)%Z then reduceQuality g else g
          | Infinite => g
          end
        else g in
      let speed := rotationSpeed (fps g) in
      {| features := features g; pixelRatio := pixelRatio g;
         pointSizes := pointSizes g;
         currentMeshes :=
           map (fun im => rotate speed (fst im) (snd im))
               (zip (seqZ 0 (Z.of_nat (length (currentMeshes g)))) (currentMeshes g));
         geometryCache := geometryCache g; materialCache := materialCache g;
         animation_state := Some (currentTime, frameCount);
         fps := fps g; frameTime := frameTime g; camera := camera g |}
  end.

Section Generator.

Context {host : Host}.

(** The two generators of the library that no property below reads. *)
Variable generateCrystalGrowth generateLivingNeuralNetwork :
  HTMLFeatures -> FractalParams -> M object3d.

Definition generateFlowField := generateCrystalGrowth.

(** [calculateOptimizedIterations] *)
Definition calculateOptimizedIterations (mode : OptimizedFractalMode)
    (quality : list Z) : Z :=
  let base :=
    if decide (performance mode = js "ultra-fast") then 10
    else if decide (performance mode = js "fast") then 20
    else if decide (performance mode = js "balanced") then 40
    else 60 in
  let multiplier :=
    if decide (quality = js "low") then 0.5
    else if decide (quality = js "medium") then 1
    else if decide (quality = js "high") then 1.5
    else if decide (quality = js "ultra") then 2
    else 1 in
  Qfloor (base * multiplier).

(** The dispatch on [mode.algorithm] in [generateFractalByMode]. *)
Definition generate_by_algorithm (algorithm : list Z) (f : HTMLFeatures)
    (params : FractalParams) : M object3d :=
  if decide (algorithm = js "tagBased") then mret (generateTagBasedFractal f params)
  else if decide (algorithm = js "flowField") then generateFlowField f params
  else if decide (algorithm = js "neuralNetwork") then generateLivingNeuralNetwork f params
  else if decide (algorithm = js "spiderWeb") then generateSpiderWebDimension f params
  else if decide (algorithm = js "mandala") then mret (generateGeometricMandala f params)
  else mret (generateTagBasedFractal f params).

(** The parameters that [generateFractalByMode] derives. *)
Definition mode_params (mode : OptimizedFractalMode) (s : OptimizedRenderSettings)
    (f : HTMLFeatures) : FractalParams :=
  {| iterations := calculateOptimizedIterations mode (quality s);
     complexity := avgNestingLevel f;
     scale := Some 1;
     colorSeed := hashCode (structuralHash f);
     algorithm := mode_algorithm mode;
     morphFactor := inject_Z (nestingDepth f) / 10;
     animationSpeed := 1 |}.

Definition generateFractalByMode (features : option HTMLFeatures)
    (mode : OptimizedFractalMode) (s : OptimizedRenderSettings) : M (option object3d) :=
  match features with
  | None => mret None
  | Some f =>
      o ← generate_by_algorithm (mode_algorithm mode) f (mode_params mode s f);
      mret (Some o)
  end.

(** A generated object enters [currentMeshes]; the material of a point
    cloud is a new object, at a free address. *)
Definition adopt (o : object3d) (g : generator) : generator :=
  match o with
  | Points geometry (PointsMaterial size) =>
      let a := fresh (dom (pointSizes g)) in
      set_meshes g
        (currentMeshes g ++
         [{| kind := PointsWith geometry a; rotation_x := 0; rotation_y := 0;
             frozen := false |}])
        (<[a := size]> (pointSizes g))
  | _ =>
      set_meshes g
        (currentMeshes g ++
         [{| kind := Other o; rotation_x := 0; rotation_y := 0; frozen := false |}])
        (pointSizes g)
  end.

(** [clearCurrentMeshes]; the disposal of geometries and materials frees
    buffers of the host and leaves this state alone. *)
Definition clearCurrentMeshes (g : generator) : generator :=
  set_meshes g [] (pointSizes g).

(** [this.modes.find(m => m.id === modeId)] *)
Definition find_mode (modeId : list Z) : option OptimizedFractalMode :=
  List.find (fun m => bool_decide (id m = modeId)) modes.

(** The settings that [switchMode] generates with. *)
Definition switch_settings (modeId : list Z) : OptimizedRenderSettings :=
  {| settings_mode := modeId; quality := js "medium"; animation := true;
     particleCount := 5000; enableBloom := false;
     enableDepthOfField := false; cacheStrategy := js "balanced" |}.

(** [switchMode] *)
Definition switchMode (modeId : list Z) (g : generator) : M generator :=
  match find_mode modeId, features g with
  | Some mode, Some _ =>
      let g := clearCurrentMeshes g in
      let s := switch_settings modeId in
      fractalObject ← generateFractalByMode (features g) mode s;
      match fractalObject with
      | Some o => mret (adopt o g)
      | None => mret g
      end
  | _, _ => mret g
  end.

End Generator.

End OptimizedFractalGenerator.

(* ===================================================================== *)
(** * The content script ([FractalViewer], [content/enhancedContent.ts]) *)
(* ===================================================================== *)

Module FractalViewer.

Import FractalAlgorithms EnhancedFractalGenerator.

Local Open Scope Q_scope.

(** What the viewer has put into the page.  A canvas is the
    [renderer.domElement] of one generator instance and is named by the
    address of that instance. *)
Record page := {
  (** the canvases inside the element [this.container] refers to *)
  container : option (list nat);
  (** earlier containers, still in the page, that nothing refers to *)
  stale_containers : list (list nat);
  (** the number of control panels in the page *)
  controls : nat;
}.

Record viewer := {
  generator : option nat;
  the_page : page;
  isActive : bool;
  currentFeatures : option HTMLFeatures;
  cachedModes : gmap (list Z) (nat * nat);
  currentMode : option (list Z);
  (** every generator instance that returned a canvas *)
  instances : gmap nat EnhancedFractalGenerator.generator;
  (** the instances on which [dispose] was called *)
  disposed : list nat;
  (** the messages shown by [alert] *)
  alerts : list (list Z);
}.

Definition with_page (v : viewer) (p : page) : viewer :=
  {| generator := generator v; the_page := p; isActive := isActive v;
     currentFeatures := currentFeatures v; cachedModes := cachedModes v;
     currentMode := currentMode v; instances := instances v;
     disposed := disposed v; alerts := alerts v |}.

(** [container.querySelector("canvas")?.remove()]: the first canvas of
    the container leaves it. *)
Definition remove_first_canvas (p : page) : page :=
  {| container := tail <$> container p; stale_containers := stale_containers p;
     controls := controls p |}.

(** [document.querySelector(".fractal-controls")?.remove()] *)
Definition remove_old_controls (p : page) : page :=
  {| container := container p; stale_containers := stale_containers p;
     controls := Nat.pred (controls p) |}.

(** [showControls]: one more panel. *)
Definition showControls (p : page) : page :=
  {| container := container p; stale_containers := stale_containers p;
     controls := S (controls p) |}.

(** [parent.appendChild(canvas)] moves the canvas: it leaves whatever
    element held it. *)
Definition without (canvas : nat) (canvases : list nat) : list nat :=
  filter (fun c => c <> canvas) canvases.

(** [displayFractal]: a new container with the canvas, appended to the
    body; the viewer refers to it from now on. *)
Definition displayFractal (canvas : nat) (p : page) : page :=
  {| container := Some [canvas];
     stale_containers :=
       map (without canvas)
         (match container p with Some c => [c] | None => [] end ++ stale_containers p);
     controls := controls p |}.

(** The fixed features that [analyzeCurrentPage] returns when the
    analysis throws. *)
Definition fallback_features : HTMLFeatures :=
  {| tagCounts := [(js "div", Num 50); (js "span", Num 30); (js "p", Num 20)];
     classCounts := [(js "container", Num 10); (js "content", Num 15)];
     idCounts := [(js "main", Num 1); (js "header", Num 1)];
     attributeCounts := [(js "class", Num 25); (js "id", Num 5)];
     nestingDepth := 3;
     semanticTags := map js ["div"; "span"; "p"]%string;
     interactiveTags := map js ["button"; "a"]%string;
     mediaTags := [js "img"];
     textLength := 1000;
     linkCount := 20;
     imageCount := 5;
     formElements := 2;
     totalElements := 100;
     uniqueTags := 10;
     avgNestingLevel := 3;
     maxNestingLevel := 8;
     colorPalette := map js ["#000000"; "#ffffff"]%string;
     structuralHash := js "default" |}.

Section Viewer.

Context {host : Host}.

(** [HTMLAnalyzer.analyze], which returns the features or throws; the
    viewer and every generator instance hold an analyzer of this class. *)
Variable analyze : list Z -> completion HTMLFeatures.

(** [document.documentElement.outerHTML], as a function of what the viewer
    has mounted. *)
Variable outerHTML : page -> list Z.

(** [analyzeCurrentPage] *)
Definition analyzeCurrentPage (v : viewer) : HTMLFeatures :=
  match analyze (outerHTML (the_page v)) with
  | Normal features => features
  | Throw _ => fallback_features
  end.

(** [closeFractal] *)
Definition closeFractal (v : viewer) : viewer :=
  let cached_is_current :=
    match generator v, currentMode v with
    | Some g, Some (c :: mode) =>
        match cachedModes v !! (c :: mode) with
        | Some (_, g') => bool_decide (g' = g)
        | None => false
        end
    | _, _ => false
    end in
  {| generator := None;
     the_page := {| container := None; stale_containers := []; controls := 0 |};
     isActive := false;
     currentFeatures := currentFeatures v; cachedModes := cachedModes v;
     currentMode := currentMode v; instances := instances v;
     disposed :=
       match generator v with
       | Some g => if cached_is_current then disposed v else disposed v ++ [g]
       | None => disposed v
       end;
     alerts := alerts v |}.

(** The first statements of [generateFractal]: without a container the
    viewer closes whatever is left, with one it takes the old canvas and
    the old controls out. *)
Definition make_room (v : viewer) : viewer :=
  match container (the_page v) with
  | None => closeFractal v
  | Some _ => with_page v (remove_old_controls (remove_first_canvas (the_page v)))
  end.

(** [if (!this.currentFeatures) this.currentFeatures = this.analyzeCurrentPage()] *)
Definition ensure_features (v : viewer) : viewer :=
  match currentFeatures v with
  | Some _ => v
  | None =>
      {| generator := generator v; the_page := the_page v; isActive := isActive v;
         currentFeatures := Some (analyzeCurrentPage v);
         cachedModes := cachedModes v; currentMode := currentMode v;
         instances := instances v; disposed := disposed v; alerts := alerts v |}
  end.

(** The [catch] block of [generateFractal]: the error is shown by [alert]. *)
Definition report (message : list Z) (v : viewer) : viewer :=
  {| generator := generator v; the_page := the_page v; isActive := isActive v;
     currentFeatures := currentFeatures v; cachedModes := cachedModes v;
     currentMode := currentMode v; instances := instances v;
     disposed := disposed v;
     alerts := alerts v ++ [js "Error generating fractal: " ++ message] |}.

(** [generateFractal(sections, settings, mode)] *)
Definition generateFractal (fuel : nat) (sections : list FractalSection)
    (s : RenderSettings) (mode : option (list Z)) (v : viewer) : M viewer :=
  let v := make_room v in
  let v := ensure_features v in
  let g := fresh (dom (instances v)) in
  let html := outerHTML (the_page v) in
  outcome ← EnhancedFractalGenerator.generateFractal analyze fuel html sections s
              fresh_generator;
  match outcome with
  | Normal instance =>
      let canvas := g in
      let v :=
        {| generator := generator v; the_page := the_page v; isActive := isActive v;
           currentFeatures := currentFeatures v; cachedModes := cachedModes v;
           currentMode := currentMode v;
           instances := <[g := instance]> (instances v);
           disposed := disposed v; alerts := alerts v |} in
      let v :=
        match mode with
        | Some (c :: m) =>
            {| generator := Some g; the_page := the_page v; isActive := isActive v;
               currentFeatures := currentFeatures v;
               cachedModes := <[c :: m := (canvas, g)]> (cachedModes v);
               currentMode := Some (c :: m);
               instances := instances v;
               disposed := disposed v; alerts := alerts v |}
        | _ => v
        end in
      mret (with_page v (showControls (displayFractal canvas (the_page v))))
  | Throw message => mret (report message v)
  end.

(** [switchToMode(mode)] *)
Definition switchToMode (mode : list Z) (v : viewer) : viewer :=
  match cachedModes v !! mode with
  | None => v
  | Some (canvas, g) =>
      let p := the_page v in
      let p :=
        match container p with
        | Some _ =>
            let p := remove_first_canvas p in
            let p :=
              {| container := (fun c => without canvas c ++ [canvas]) <$> container p;
                 stale_containers := map (without canvas) (stale_containers p);
                 controls := controls p |} in
            showControls (remove_old_controls p)
        | None => p
        end in
      {| generator := Some g; the_page := p; isActive := isActive v;
         currentFeatures := currentFeatures v; cachedModes := cachedModes v;
         currentMode := Some mode; instances := instances v;
         disposed := disposed v; alerts := alerts v |}
  end.

End Viewer.

End FractalViewer.

(* ===================================================================== *)
(** * Properties of the escape-time generators *)
(* ===================================================================== *)

Module EscapeTimeFacts.

Import FractalAlgorithms.

Local Open Scope Q_scope.

(** The quadratic map [x' = x² − y² + a], [y' = 2xy + b]. *)
Definition quadratic_map (a b : Q) (p : Q * Q) : Q * Q :=
  (fst p * fst p - snd p * snd p + a, 2 * fst p * snd p + b).

(** The iterate after [k] steps from [(x, y)]. *)
Definition orbit (k : nat) (a b x y : Q) : Q * Q :=
  Nat.iter k (quadratic_map a b) (x, y).

Definition escaped (p : Q * Q) : Prop := 4 < fst p * fst p + snd p * snd p.

(** The iterate leaves the disc of radius 2 before the cap of 100 steps. *)
Definition escapes_before_cap (a b x y : Q) : Prop :=
  exists k : nat, (k < 100)%nat /\ escaped (orbit k a b x y).

Lemma orbit_S k a b x y :
  orbit (S k) a b x y = orbit k a b (x * x - y * y + a) (2 * x * y + b).
Proof. unfold orbit. rewrite Nat.iter_succ_r. reflexivity. Qed.

Lemma inside_or_escaped x y :
  (Qle_bool (x * x + y * y) 4 = true /\ ~ escaped (x, y))
  \/ (Qle_bool (x * x + y * y) 4 = false /\ escaped (x, y)).
Proof.
  unfold escaped; simpl.
  destruct (Qle_bool (x * x + y * y) 4) eqn:E.
  - left. split; [reflexivity|]. apply Qle_bool_iff in E. apply Qle_not_lt, E.
  - right. split; [reflexivity|]. apply Qnot_le_lt. intros H.
    apply Qle_bool_iff in H. congruence.
Qed.

(** The loop from counter value [it] with [fuel = 100 - it] steps left. *)
Lemma escape_loop_spec fuel : forall a b x y it,
  (0 <= it)%Z -> (it + Z.of_nat fuel = 100)%Z ->
  let r := escape_loop fuel a b x y it in
  (it <= r <= 100)%Z
  /\ ((r < 100)%Z <->
      exists k, (k < fuel)%nat /\ escaped (orbit k a b x y))
  /\ (forall k, (Z.of_nat k < r - it)%Z -> ~ escaped (orbit k a b x y))
  /\ ((r < 100)%Z -> escaped (orbit (Z.to_nat (r - it)) a b x y)).
Proof.
  induction fuel as [|fuel IH]; intros a b x y it Hit Hsum; cbn [escape_loop].
  - cbv zeta. replace it with 100%Z by lia. repeat split; try lia.
    + intros (k & Hk & _). lia.
  - cbv zeta.
    assert (Hlt : (it <? 100)%Z = true) by (apply Z.ltb_lt; lia).
    rewrite Hlt, andb_true_r.
    destruct (inside_or_escaped x y) as [[E Hin]|[E Hout]]; rewrite E.
    + specialize (IH a b (x * x - y * y + a) (2 * x * y + b) (it + 1)%Z
                    ltac:(lia) ltac:(lia)).
      cbv zeta in IH. destruct IH as (Hr & Hiff & Hbefore & Hat).
      set (r := escape_loop fuel a b _ _ _) in *.
      split; [lia|]. split; [|split].
      * rewrite Hiff. split.
        -- intros (k & Hk & He). exists (S k). split; [lia|].
           rewrite orbit_S. exact He.
        -- intros (k & Hk & He). destruct k as [|k].
           ++ exfalso. apply Hin. exact He.
           ++ exists k. split; [lia|]. rewrite orbit_S in He. exact He.
      * intros k Hk. destruct k as [|k]; [exact Hin|].
        rewrite orbit_S. apply Hbefore. lia.
      * intros Hr100. specialize (Hat Hr100).
        replace (Z.to_nat (r - it)) with (S (Z.to_nat (r - (it + 1)))) by lia.
        rewrite orbit_S. exact Hat.
    + split; [lia|]. split; [|split].
      * split; [|lia]. intros _. exists 0%nat. split; [lia|exact Hout].
      * intros k Hk. lia.
      * intros _. replace (it - it)%Z with 0%Z by lia. exact Hout.
Qed.

End EscapeTimeFacts.

Module EscapeTimeTheorems.

Import FractalAlgorithms EscapeTimeFacts.
Local Open Scope Q_scope.

Lemma escape_time_bounds a b x y : (0 <= escape_time a b x y <= 100)%Z.
Proof.
  unfold escape_time.
  pose proof (escape_loop_spec 100 a b x y 0%Z ltac:(lia) ltac:(lia)) as H.
  cbv zeta in H. lia.
Qed.

Lemma escape_time_lt_cap a b x y :
  (escape_time a b x y < 100)%Z <-> escapes_before_cap a b x y.
Proof.
  unfold escape_time, escapes_before_cap.
  pose proof (escape_loop_spec 100 a b x y 0%Z ltac:(lia) ltac:(lia)) as H.
  cbv zeta in H. tauto.
Qed.

Lemma escape_time_first a b x y :
  (forall k, (Z.of_nat k < escape_time a b x y)%Z -> ~ escaped (orbit k a b x y))
  /\ ((escape_time a b x y < 100)%Z ->
      escaped (orbit (Z.to_nat (escape_time a b x y)) a b x y)).
Proof.
  unfold escape_time.
  pose proof (escape_loop_spec 100 a b x y 0%Z ltac:(lia) ltac:(lia)) as H.
  cbv zeta in H. destruct H as (_ & _ & Hb & Ha). split.
  - intros k Hk. apply Hb. lia.
  - intros Hlt. specialize (Ha Hlt). rewrite Z.sub_0_r in Ha. exact Ha.
Qed.

Lemma push_nil (out : arrays) : push out [] [] = out.
Proof. destruct out. unfold push. simpl. rewrite !app_nil_r. reflexivity. Qed.

Lemma push_push (out : arrays) v1 c1 v2 c2 :
  push (push out v1 c1) v2 c2 = push out (v1 ++ v2) (c1 ++ c2).
Proof. unfold push. simpl. rewrite <- !app_assoc. reflexivity. Qed.

(** A loop whose body only pushes, pushes the concatenation. *)
Lemma fold_push (body : Z -> arrays -> arrays) (e : Z -> arrays) (l : list Z) :
  (forall i out, body i out = push out (fst (e i)) (snd (e i))) ->
  forall out,
    fold_left (fun s i => body i s) l out
    = push out (flat_map (fun i => fst (e i)) l) (flat_map (fun i => snd (e i)) l).
Proof.
  intros Hbody. induction l as [|i l IH]; intros out; simpl.
  - symmetry. apply push_nil.
  - rewrite IH, Hbody, push_push. reflexivity.
Qed.

Lemma for_loop_push n (body : Z -> arrays -> arrays) (e : Z -> arrays) :
  (forall i out, body i out = push out (fst (e i)) (snd (e i))) ->
  forall out,
    for_loop n body out
    = push out (flat_map (fun i => fst (e i)) (seqZ 0 n))
               (flat_map (fun i => snd (e i)) (seqZ 0 n)).
Proof. intros H out. unfold for_loop. apply fold_push, H. Qed.

Section Grid.

Context {host : Host}.

(** What one sample contributes, as a pair of a vertex and a colour. *)
Definition mandelbrot_emitted features params zoom offsetX offsetY i j : arrays :=
  mandelbrot_point features params zoom offsetX offsetY i j ([], []).

Definition julia_emitted features params cReal cImag complexity i j : arrays :=
  julia_point features params cReal cImag complexity i j ([], []).

Lemma mandelbrot_point_push features params zoom offsetX offsetY i j out :
  mandelbrot_point features params zoom offsetX offsetY i j out
  = push out (fst (mandelbrot_emitted features params zoom offsetX offsetY i j))
             (snd (mandelbrot_emitted features params zoom offsetX offsetY i j)).
Proof.
  unfold mandelbrot_emitted, mandelbrot_point. cbv zeta.
  destruct (_ <? 100)%Z.
  - destruct (color_rgb _) as [[r g] b]. reflexivity.
  - simpl. symmetry. apply push_nil.
Qed.

Lemma julia_point_push features params cReal cImag complexity i j out :
  julia_point features params cReal cImag complexity i j out
  = push out (fst (julia_emitted features params cReal cImag complexity i j))
             (snd (julia_emitted features params cReal cImag complexity i j)).
Proof.
  unfold julia_emitted, julia_point. cbv zeta.
  destruct (_ <? 100)%Z.
  - destruct (color_rgb _) as [[r g] b]. reflexivity.
  - simpl. symmetry. apply push_nil.
Qed.

End Grid.
End EscapeTimeTheorems.

Module EscapeTimeGrid.

Import FractalAlgorithms EscapeTimeFacts EscapeTimeTheorems.
Local Open Scope Q_scope.

(** The grid of sample indices, row by row. *)
Definition grid (n : Z) : list (Z * Z) := list_prod (seqZ 0 n) (seqZ 0 n).

Lemma flat_map_row_kept {A} (f v : Z -> list A) (t : Z -> bool) (cols : list Z) :
  (forall j, f j = if t j then v j else []) ->
  flat_map f cols = flat_map v (List.filter t cols).
Proof.
  intros H. induction cols as [|j cols IH]; [reflexivity|].
  cbn [flat_map List.filter]. rewrite H, IH. destruct (t j); reflexivity.
Qed.

Lemma filter_row {A B} (t : A * B -> bool) (a : A) (l : list B) :
  List.filter t (map (pair a) l) = map (pair a) (List.filter (fun b => t (a, b)) l).
Proof.
  induction l as [|b l IH]; [reflexivity|]. cbn [map List.filter].
  destruct (t (a, b)); cbn [map]; rewrite IH; reflexivity.
Qed.

Lemma flat_map_pair {A B C} (v : A * B -> list C) (a : A) (l : list B) :
  flat_map v (map (pair a) l) = flat_map (fun b => v (a, b)) l.
Proof.
  induction l as [|b l IH]; [reflexivity|]. cbn [map flat_map]. rewrite IH. reflexivity.
Qed.

(** Two nested loops over a grid that push for the samples passing a test
    push the contributions of these samples, row by row. *)
Lemma flat_map_grid_kept {A} (f : Z -> Z -> list A) (v : Z * Z -> list A)
    (t : Z * Z -> bool) (rows cols : list Z) :
  (forall i j, f i j = if t (i, j) then v (i, j) else []) ->
  flat_map (fun i => flat_map (f i) cols) rows
  = flat_map v (List.filter t (list_prod rows cols)).
Proof.
  intros H. induction rows as [|i rows IH]; [reflexivity|].
  cbn [flat_map list_prod]. rewrite List.filter_app, flat_map_app, <- IH. f_equal.
  rewrite filter_row, flat_map_pair.
  apply (flat_map_row_kept (f i) (fun j => v (i, j)) (fun j => t (i, j))).
  intros j. apply H.
Qed.

Lemma NoDup_list_prod_rows (rows cols : list Z) :
  NoDup rows -> NoDup cols -> NoDup (list_prod rows cols).
Proof.
  intros Hrows Hcols.
  induction Hrows as [|i rows Hi Hrows IH]; cbn [list_prod]; [constructor|].
  apply NoDup_app. split; [|split; [|exact IH]].
  - apply NoDup_fmap_2; [|exact Hcols]. intros a b [= ->]. reflexivity.
  - intros [i' j] H1 H2. apply list_elem_of_In in H1, H2.
    apply in_map_iff in H1. destruct H1 as (j' & [= <- <-] & _).
    apply in_prod_iff in H2. destruct H2 as [H2 _].
    apply Hi, list_elem_of_In, H2.
Qed.

Lemma NoDup_grid n : NoDup (grid n).
Proof. apply NoDup_list_prod_rows; apply NoDup_seqZ. Qed.

Lemma NoDup_kept {A} (t : A -> bool) (l : list A) :
  NoDup l -> NoDup (List.filter t l).
Proof.
  induction 1 as [|a l Ha Hl IH]; cbn [List.filter]; [constructor|].
  destruct (t a); [|exact IH]. constructor; [|exact IH].
  intros Hin. apply Ha. apply list_elem_of_In in Hin. apply filter_In in Hin.
  apply list_elem_of_In, Hin.
Qed.

Lemma in_grid n i j :
  In (i, j) (grid n) <-> (0 <= i < n)%Z /\ (0 <= j < n)%Z.
Proof.
  unfold grid. rewrite in_prod_iff, <- !list_elem_of_In, !elem_of_seqZ. lia.
Qed.

Section Grid.
Context {host : Host}.

Lemma mandelbrot_arrays_eq features params :
  let zoom := 0.5 + inject_Z (nestingDepth features) * 0.1 in
  let offsetX := inject_Z (Z.rem (linkCount features) 100) * 0.001 in
  let offsetY := inject_Z (Z.rem (imageCount features) 100) * 0.001 in
  let n := iterations params in
  mandelbrot_arrays features params
  = (flat_map (fun i => flat_map (fun j =>
        fst (mandelbrot_emitted features params zoom offsetX offsetY i j)) (seqZ 0 n)) (seqZ 0 n),
     flat_map (fun i => flat_map (fun j =>
        snd (mandelbrot_emitted features params zoom offsetX offsetY i j)) (seqZ 0 n)) (seqZ 0 n)).
Proof.
  cbv zeta. unfold mandelbrot_arrays.
  set (zoom := 0.5 + _). set (ox := inject_Z (Z.rem (linkCount _) _) * _).
  set (oy := inject_Z (Z.rem (imageCount _) _) * _).
  rewrite (for_loop_push (iterations params) _
             (fun i => (flat_map (fun j => fst (mandelbrot_emitted features params zoom ox oy i j))
                           (seqZ 0 (iterations params)),
                        flat_map (fun j => snd (mandelbrot_emitted features params zoom ox oy i j))
                           (seqZ 0 (iterations params))))).
  - reflexivity.
  - intros i out. simpl fst; simpl snd.
    apply (for_loop_push (iterations params) _
             (fun j => mandelbrot_emitted features params zoom ox oy i j)).
    intros j out'. apply mandelbrot_point_push.
Qed.

Lemma julia_arrays_eq features params :
  let cReal := -0.7 + inject_Z (Z.rem (uniqueTags features) 20) * 0.05 in
  let cImag := 0.27015 + inject_Z (Z.rem (formElements features) 10) * 0.02 in
  let complexity := Qmin (inject_Z (totalElements features) / 50) 8 in
  let n := iterations params in
  julia_arrays features params
  = (flat_map (fun i => flat_map (fun j =>
        fst (julia_emitted features params cReal cImag complexity i j)) (seqZ 0 n)) (seqZ 0 n),
     flat_map (fun i => flat_map (fun j =>
        snd (julia_emitted features params cReal cImag complexity i j)) (seqZ 0 n)) (seqZ 0 n)).
Proof.
  cbv zeta. unfold julia_arrays.
  set (cReal := -0.7 + _). set (cImag := 0.27015 + _). set (cx := Qmin _ _).
  rewrite (for_loop_push (iterations params) _
             (fun i => (flat_map (fun j => fst (julia_emitted features params cReal cImag cx i j))
                           (seqZ 0 (iterations params)),
                        flat_map (fun j => snd (julia_emitted features params cReal cImag cx i j))
                           (seqZ 0 (iterations params))))).
  - reflexivity.
  - intros i out. simpl fst; simpl snd.
    apply (for_loop_push (iterations params) _
             (fun j => julia_emitted features params cReal cImag cx i j)).
    intros j out'. apply julia_point_push.
Qed.

(** The samples of the Mandelbrot grid that are kept, and those of the
    Julia grid. *)
Definition mandelbrot_kept (features : HTMLFeatures) (params : FractalParams)
    : list (Z * Z) :=
  let zoom := 0.5 + inject_Z (nestingDepth features) * 0.1 in
  let offsetX := inject_Z (Z.rem (linkCount features) 100) * 0.001 in
  let offsetY := inject_Z (Z.rem (imageCount features) 100) * 0.001 in
  List.filter (fun ij =>
      (escape_time (mandelbrot_sample params zoom offsetX (fst ij))
         (mandelbrot_sample params zoom offsetY (snd ij)) 0 0 <? 100)%Z)
    (grid (iterations params)).

Definition julia_kept (features : HTMLFeatures) (params : FractalParams)
    : list (Z * Z) :=
  let cReal := -0.7 + inject_Z (Z.rem (uniqueTags features) 20) * 0.05 in
  let cImag := 0.27015 + inject_Z (Z.rem (formElements features) 10) * 0.02 in
  List.filter (fun ij =>
      (escape_time cReal cImag (julia_sample params (fst ij))
         (julia_sample params (snd ij)) <? 100)%Z)
    (grid (iterations params)).

(** The start of the orbit of a sample, the coefficients of the map for
    it, and the value of the loop counter when the loop is left. *)
Definition mandelbrot_coefficients (features : HTMLFeatures) (params : FractalParams)
    (ij : Z * Z) : Q * Q :=
  let zoom := 0.5 + inject_Z (nestingDepth features) * 0.1 in
  let offsetX := inject_Z (Z.rem (linkCount features) 100) * 0.001 in
  let offsetY := inject_Z (Z.rem (imageCount features) 100) * 0.001 in
  (mandelbrot_sample params zoom offsetX (fst ij),
   mandelbrot_sample params zoom offsetY (snd ij)).

Definition mandelbrot_steps (features : HTMLFeatures) (params : FractalParams)
    (ij : Z * Z) : Z :=
  escape_time (fst (mandelbrot_coefficients features params ij))
    (snd (mandelbrot_coefficients features params ij)) 0 0.

(** The three coordinates and the three colour components that a kept
    sample contributes. *)
Definition mandelbrot_vertex (features : HTMLFeatures) (params : FractalParams)
    (ij : Z * Z) : list Q :=
  let half := inject_Z (iterations params) / 2 in
  [(inject_Z (fst ij) - half) * 0.1; (inject_Z (snd ij) - half) * 0.1;
   inject_Z (mandelbrot_steps features params ij) * 0.5].

Definition mandelbrot_colour (features : HTMLFeatures) (params : FractalParams)
    (ij : Z * Z) : list Q :=
  let iteration := mandelbrot_steps features params ij in
  let hue := fmod (inject_Z (iteration * 360) / 100 + inject_Z (colorSeed params)) 360 in
  let saturation := 80 + inject_Z (Z.rem (semanticTagCount features * 2) 20) in
  let lightness := 50 + inject_Z (Z.rem iteration 30) in
  let '(r, g, b) := color_rgb (ColorHSL hue saturation lightness) in
  [r; g; b].

Definition julia_coefficients (features : HTMLFeatures) : Q * Q :=
  (-0.7 + inject_Z (Z.rem (uniqueTags features) 20) * 0.05,
   0.27015 + inject_Z (Z.rem (formElements features) 10) * 0.02).

Definition julia_start (params : FractalParams) (ij : Z * Z) : Q * Q :=
  (julia_sample params (fst ij), julia_sample params (snd ij)).

Definition julia_steps (features : HTMLFeatures) (params : FractalParams)
    (ij : Z * Z) : Z :=
  escape_time (fst (julia_coefficients features)) (snd (julia_coefficients features))
    (fst (julia_start params ij)) (snd (julia_start params ij)).

Definition julia_vertex (features : HTMLFeatures) (params : FractalParams)
    (ij : Z * Z) : list Q :=
  let half := inject_Z (iterations params) / 2 in
  let complexity := Qmin (inject_Z (totalElements features) / 50) 8 in
  [(inject_Z (fst ij) - half) * 0.15; (inject_Z (snd ij) - half) * 0.15;
   sin (inject_Z (julia_steps features params ij) * 0.1) * complexity].

Definition julia_colour (features : HTMLFeatures) (params : FractalParams)
    (ij : Z * Z) : list Q :=
  let iteration := julia_steps features params ij in
  let hue :=
    fmod (inject_Z (iteration * 180) / 100 + inject_Z (colorSeed params)
          + inject_Z (Z.of_nat (length (colorPalette features)) * 20)) 360 in
  let '(r, g, b) := color_rgb (ColorHSL hue 90 60) in
  [r; g; b].

Lemma length_mandelbrot_colour features params ij :
  length (mandelbrot_colour features params ij) = 3%nat.
Proof.
  unfold mandelbrot_colour. cbv zeta. destruct (color_rgb _) as [[r g] b]. reflexivity.
Qed.

Lemma length_julia_colour features params ij :
  length (julia_colour features params ij) = 3%nat.
Proof.
  unfold julia_colour. cbv zeta. destruct (color_rgb _) as [[r g] b]. reflexivity.
Qed.

Lemma generateMandelbrotSet_kept features params :
  generateMandelbrotSet features params
  = Points
      (BufferGeometry
         (flat_map (mandelbrot_vertex features params) (mandelbrot_kept features params))
         (flat_map (mandelbrot_colour features params) (mandelbrot_kept features params)))
      (PointsMaterial (0.8 + Qmin (inject_Z (totalElements features) / 100) 5 * 0.2)).
Proof.
  unfold generateMandelbrotSet. cbv zeta. rewrite mandelbrot_arrays_eq. cbv zeta.
  cbn [fst snd]. unfold mandelbrot_kept, grid. cbv zeta. do 2 f_equal.
  - apply flat_map_grid_kept. intros i j.
    unfold mandelbrot_emitted, mandelbrot_point, mandelbrot_vertex, mandelbrot_steps,
      mandelbrot_coefficients. cbv zeta. cbn [fst snd].
    destruct (_ <? 100)%Z; [|reflexivity].
    destruct (color_rgb _) as [[r g] b]. reflexivity.
  - apply flat_map_grid_kept. intros i j.
    unfold mandelbrot_emitted, mandelbrot_point, mandelbrot_colour, mandelbrot_steps,
      mandelbrot_coefficients. cbv zeta. cbn [fst snd].
    destruct (_ <? 100)%Z; [|reflexivity].
    destruct (color_rgb _) as [[r g] b]. reflexivity.
Qed.

Lemma generateJuliaSet_kept features params :
  generateJuliaSet features params
  = Points
      (BufferGeometry
         (flat_map (julia_vertex features params) (julia_kept features params))
         (flat_map (julia_colour features params) (julia_kept features params)))
      (PointsMaterial (0.5 + Qmin (inject_Z (totalElements features) / 50) 8 * 0.1)).
Proof.
  unfold generateJuliaSet. cbv zeta. rewrite julia_arrays_eq. cbv zeta.
  cbn [fst snd]. unfold julia_kept, grid. cbv zeta. do 2 f_equal.
  - apply flat_map_grid_kept. intros i j.
    unfold julia_emitted, julia_point, julia_vertex, julia_steps, julia_coefficients,
      julia_start. cbv zeta. cbn [fst snd].
    destruct (_ <? 100)%Z; [|reflexivity].
    destruct (color_rgb _) as [[r g] b]. reflexivity.
  - apply flat_map_grid_kept. intros i j.
    unfold julia_emitted, julia_point, julia_colour, julia_steps, julia_coefficients,
      julia_start. cbv zeta. cbn [fst snd].
    destruct (_ <? 100)%Z; [|reflexivity].
    destruct (color_rgb _) as [[r g] b]. reflexivity.
Qed.

Lemma in_mandelbrot_kept features params ij :
  In ij (mandelbrot_kept features params)
  <-> In ij (grid (iterations params))
      /\ escapes_before_cap (fst (mandelbrot_coefficients features params ij))
           (snd (mandelbrot_coefficients features params ij)) 0 0.
Proof.
  unfold mandelbrot_kept. cbv zeta. rewrite filter_In, Z.ltb_lt, escape_time_lt_cap.
  reflexivity.
Qed.

Lemma in_julia_kept features params ij :
  In ij (julia_kept features params)
  <-> In ij (grid (iterations params))
      /\ escapes_before_cap (fst (julia_coefficients features))
           (snd (julia_coefficients features))
           (fst (julia_start params ij)) (snd (julia_start params ij)).
Proof.
  unfold julia_kept. cbv zeta. rewrite filter_In, Z.ltb_lt, escape_time_lt_cap.
  reflexivity.
Qed.

(** C6.  In the escape-time generators every sample of the grid is iterated
    under the map [x' = x² − y² + a], [y' = 2xy + b] for at most 100 steps,
    and the point cloud that the generator returns holds a vertex with its
    colour for a sample exactly when an iterate with [x² + y² > 4] is
    reached before the cap.  The loop counter stays within 0..100, no
    iterate before it has escaped, and it is below 100 exactly when some
    iterate of index below 100 has escaped.  The position and the colour
    array of [generateMandelbrotSet] and of [generateJuliaSet] are the
    concatenation, row by row, of three coordinates and three colour
    components for each kept sample; the kept samples are the samples
    [(i, j)] of the grid, [0 <= i, j < iterations], each once, whose orbit
    escapes before the cap. *)
Theorem escape_time_keeps_escaping_samples :
  (forall a b x y,
      (0 <= escape_time a b x y <= 100)%Z
      /\ ((escape_time a b x y < 100)%Z <-> escapes_before_cap a b x y)
      /\ (forall k, (Z.of_nat k < escape_time a b x y)%Z ->
                    ~ escaped (orbit k a b x y))
      /\ ((escape_time a b x y < 100)%Z ->
          escaped (orbit (Z.to_nat (escape_time a b x y)) a b x y)))
  /\ (forall features params,
        let kept := mandelbrot_kept features params in
        generateMandelbrotSet features params
        = Points
            (BufferGeometry (flat_map (mandelbrot_vertex features params) kept)
               (flat_map (mandelbrot_colour features params) kept))
            (PointsMaterial
               (0.8 + Qmin (inject_Z (totalElements features) / 100) 5 * 0.2))
        /\ NoDup kept
        /\ (forall i j,
              In (i, j) kept
              <-> ((0 <= i < iterations params)%Z /\ (0 <= j < iterations params)%Z)
                  /\ escapes_before_cap
                       (fst (mandelbrot_coefficients features params (i, j)))
                       (snd (mandelbrot_coefficients features params (i, j))) 0 0)
        /\ (forall ij,
              length (mandelbrot_vertex features params ij) = 3%nat
              /\ length (mandelbrot_colour features params ij) = 3%nat))
  /\ (forall features params,
        let kept := julia_kept features params in
        generateJuliaSet features params
        = Points
            (BufferGeometry (flat_map (julia_vertex features params) kept)
               (flat_map (julia_colour features params) kept))
            (PointsMaterial
               (0.5 + Qmin (inject_Z (totalElements features) / 50) 8 * 0.1))
        /\ NoDup kept
        /\ (forall i j,
              In (i, j) kept
              <-> ((0 <= i < iterations params)%Z /\ (0 <= j < iterations params)%Z)
                  /\ escapes_before_cap
                       (fst (julia_coefficients features))
                       (snd (julia_coefficients features))
                       (fst (julia_start params (i, j)))
                       (snd (julia_start params (i, j))))
        /\ (forall ij,
              length (julia_vertex features params ij) = 3%nat
              /\ length (julia_colour features params ij) = 3%nat)).
Proof.
  split; [|split].
  - intros a b x y. split; [apply escape_time_bounds|].
    split; [apply escape_time_lt_cap|]. apply escape_time_first.
  - intros features params kept. subst kept.
    split; [apply generateMandelbrotSet_kept|]. split; [|split].
    + unfold mandelbrot_kept. cbv zeta. apply NoDup_kept, NoDup_grid.
    + intros i j. rewrite in_mandelbrot_kept, in_grid. reflexivity.
    + intros ij. split; [reflexivity|apply length_mandelbrot_colour].
  - intros features params kept. subst kept.
    split; [apply generateJuliaSet_kept|]. split; [|split].
    + unfold julia_kept. cbv zeta. apply NoDup_kept, NoDup_grid.
    + intros i j. rewrite in_julia_kept, in_grid. reflexivity.
    + intros ij. split; [reflexivity|apply length_julia_colour].
Qed.

End Grid.
End EscapeTimeGrid.

(* ===================================================================== *)
(** * Termination and size of the fractal tree *)
(* ===================================================================== *)

Module FractalTreeFacts.

Import FractalAlgorithms.

(** The number of segments a call of [generateBranch] emits: one for the
    branch itself and, for each of its [branchingFactor] children, those
    of the child, which has one level less and one child less (but at
    least two). *)
Fixpoint segments (depth : nat) (branchingFactor : Z) : Z :=
  match depth with
  | O => 0
  | S depth' =>
      1 + Z.max 0 branchingFactor * segments depth' (Z.max 2 (branchingFactor - 1))
  end.

(** The depth that counts: none outside [1..20]. *)
Definition levels (depth : Z) : nat :=
  if (depth <=? 0) || (20 <? depth) then O else Z.to_nat depth.

(** The documented ceiling: the count for depth 12 and factor 6. *)
Definition segment_cap : Z := 91957.

Lemma segment_cap_eq : segments 12 6 = segment_cap.
Proof. vm_compute. reflexivity. Qed.

Lemma segments_nonneg depth : forall b, 0 <= segments depth b.
Proof. induction depth as [|d IH]; intros b; simpl; [lia|]. specialize (IH (Z.max 2 (b - 1))). nia. Qed.

Lemma segments_mono_factor depth : forall b b',
  b <= b' -> segments depth b <= segments depth b'.
Proof.
  induction depth as [|d IH]; intros b b' Hb; simpl; [lia|].
  specialize (IH (Z.max 2 (b - 1)) (Z.max 2 (b' - 1)) ltac:(lia)).
  pose proof (segments_nonneg d (Z.max 2 (b - 1))). nia.
Qed.

Lemma segments_mono_depth depth : forall b,
  segments depth b <= segments (S depth) b.
Proof.
  induction depth as [|d IH]; intros b.
  - pose proof (segments_nonneg 1 b). simpl in *. lia.
  - change (segments (S (S d)) b)
      with (1 + Z.max 0 b * segments (S d) (Z.max 2 (b - 1))).
    change (segments (S d) b)
      with (1 + Z.max 0 b * segments d (Z.max 2 (b - 1))).
    specialize (IH (Z.max 2 (b - 1))). nia.
Qed.

Lemma segments_mono depth depth' b b' :
  (depth <= depth')%nat -> b <= b' ->
  segments depth b <= segments depth' b'.
Proof.
  intros Hd Hb. induction Hd as [|d' Hd IH].
  - apply segments_mono_factor, Hb.
  - etransitivity; [exact IH|]. apply segments_mono_depth.
Qed.

Lemma segments_below_cap depth b :
  (depth <= 12)%nat -> b <= 6 -> segments depth b <= segment_cap.
Proof.
  intros Hd Hb. rewrite <- segment_cap_eq. apply segments_mono; assumption.
Qed.

(** A monadic loop whose body succeeds and adds [n] entries to each array
    succeeds and adds [n] entries per turn. *)
Definition entries (l : list Q) : Z := Z.of_nat (length l).

Lemma foldM_grows (body : Z -> arrays -> M arrays) (n : Z) (l : list Z) :
  (forall i out r, exists out' r',
      body i out r = Some (out', r')
      /\ entries (fst out') = entries (fst out) + n
      /\ entries (snd out') = entries (snd out) + n) ->
  forall out r, exists out' r',
    foldM body l out r = Some (out', r')
    /\ entries (fst out') = entries (fst out) + Z.of_nat (length l) * n
    /\ entries (snd out') = entries (snd out) + Z.of_nat (length l) * n.
Proof.
  intros Hbody. induction l as [|i l IH]; intros out r.
  - exists out, r. split; [reflexivity|]. simpl. lia.
  - destruct (Hbody i out r) as (out1 & r1 & E1 & Hv1 & Hc1).
    destruct (IH out1 r1) as (out2 & r2 & E2 & Hv2 & Hc2).
    exists out2, r2. cbn [foldM]. unfold mbind, M_bind. rewrite E1.
    split; [exact E2|]. cbn [length]. lia.
Qed.

Lemma length_seqZ_0 n : length (seqZ 0 n) = Z.to_nat n.
Proof. apply length_seqZ. Qed.

Section Tree.

Context {host : Host}.

(** With enough fuel for its depth, [generateBranch] returns, and the
    arrays grow by exactly the segments it emits: six coordinates and six
    colour components each. *)
Lemma generateBranch_returns fuel :
  forall sx sy sz ex ey ez depth b params out r,
    (levels depth < fuel)%nat ->
    exists out' r',
      generateBranch fuel sx sy sz ex ey ez depth b params out r = Some (out', r')
      /\ entries (fst out') = entries (fst out) + 6 * segments (levels depth) b
      /\ entries (snd out') = entries (snd out) + 6 * segments (levels depth) b.
Proof.
  induction fuel as [|fuel IH]; intros sx sy sz ex ey ez depth b params out r Hfuel;
    [lia|].
  cbn [generateBranch]. unfold levels in *.
  destruct ((depth <=? 0) || (20 <? depth)) eqn:Hguard.
  - exists out, r. split; [reflexivity|]. simpl. lia.
  - apply orb_false_iff in Hguard. destruct Hguard as [H0 H20].
    apply Z.leb_gt in H0. apply Z.ltb_ge in H20.
    destruct (color_rgb _) as [[cr cg] cb].
    unfold mbind at 1. unfold M_bind at 1. unfold random at 1. cbv beta iota.
    set (r1 := {| draws := draws r; drawn := S (drawn r) |}).
    set (out1 := push (push out _ _) _ _).
    unfold for_loopM.
    assert (HL : (if (depth - 1 <=? 0) || (20 <? depth - 1) then 0%nat
                  else Z.to_nat (depth - 1)) = Z.to_nat (depth - 1)).
    { destruct (depth - 1 <=? 0) eqn:E0; simpl.
      - apply Z.leb_le in E0. lia.
      - destruct (20 <? depth - 1) eqn:E20; [apply Z.ltb_lt in E20; lia|reflexivity]. }
    match goal with
    | |- context [foldM ?body _ _ _] =>
        destruct (foldM_grows body (6 * segments (Z.to_nat (depth - 1)) (Z.max 2 (b - 1)))
                    (seqZ 0 b)) with (out := out1) (r := r1)
          as (out2 & r2 & E2 & Hv2 & Hc2)
    end.
    + intros i o rr.
      unfold mbind, M_bind, random. cbv beta iota.
      match goal with
      | |- context [generateBranch fuel ?a1 ?a2 ?a3 ?a4 ?a5 ?a6 ?d ?bb ?p ?oo ?r0] =>
          destruct (IH a1 a2 a3 a4 a5 a6 d bb p oo r0) as (o' & r' & E & Hv & Hc)
      end.
      * rewrite HL. lia.
      * exists o', r'. split; [exact E|]. rewrite HL in Hv, Hc. lia.
    + exists out2, r2. split; [exact E2|].
      rewrite length_seqZ_0 in Hv2, Hc2.
      replace (Z.to_nat depth) with (S (Z.to_nat (depth - 1))) by lia.
      cbn [segments].
      assert (Hv1 : entries (fst out1) = entries (fst out) + 6).
      { subst out1. unfold entries, push. simpl. rewrite !length_app. simpl. lia. }
      assert (Hc1 : entries (snd out1) = entries (snd out) + 6).
      { subst out1. unfold entries, push. simpl. rewrite !length_app. simpl. lia. }
      replace (Z.of_nat (Z.to_nat b)) with (Z.max 0 b) in Hv2, Hc2 by lia.
      lia.
Qed.

Lemma levels_le_12 depth : depth <= 12 -> (levels depth <= 12)%nat.
Proof.
  intros H. unfold levels.
  destruct ((depth <=? 0) || (20 <? depth)); lia.
Qed.

Lemma levels_pred depth :
  0 < depth <= 20 -> levels depth = S (levels (depth - 1)).
Proof.
  intros H. unfold levels.
  replace ((depth <=? 0) || (20 <? depth)) with false
    by (symmetry; apply orb_false_iff; split; [apply Z.leb_gt|apply Z.ltb_ge]; lia).
  destruct (depth - 1 <=? 0) eqn:E0; simpl.
  - apply Z.leb_le in E0. lia.
  - apply Z.leb_gt in E0.
    replace (20 <? depth - 1) with false by (symmetry; apply Z.ltb_ge; lia). lia.
Qed.

(** C3.  [generateFractalTree] returns for every features and parameters
    (any fuel from 13 on is enough, whatever the random source yields), and
    the number of line segments it emits stays below a ceiling that does
    not depend on the input: the depth is [nestingDepth + 6] capped at 12,
    the branching factor is capped at 6, a call at depth at most 0 returns
    at once, a call at a depth in 1..20 emits one segment and recurses at
    depth minus one, and the emitted segments (six coordinates and six
    colour components each) number at most [segment_cap] = 91957, the
    count for depth 12 and factor 6. *)
Theorem fractal_tree_terminates_within_cap :
  forall (extra : nat) features params (r : random_source),
    let maxDepth := Z.min (nestingDepth features + 6) 12 in
    let branchingFactor := Z.min (uniqueTags features + 2) 6 in
    maxDepth <= 12 /\ branchingFactor <= 6
    /\ (exists vertices colors r',
          generateFractalTree (13 + extra) features params r
          = Some (LineSegments (BufferGeometry vertices colors)
                    (LineBasicMaterial None None), r')
          /\ entries vertices = 6 * segments (levels maxDepth) branchingFactor
          /\ entries colors = 6 * segments (levels maxDepth) branchingFactor
          /\ segments (levels maxDepth) branchingFactor <= segment_cap)
    /\ (forall fuel sx sy sz ex ey ez depth b out r0,
          depth <= 0 ->
          generateBranch (S fuel) sx sy sz ex ey ez depth b params out r0
          = Some (out, r0))
    /\ (forall depth b,
          0 < depth <= 20 ->
          segments (levels depth) b
          = 1 + Z.max 0 b * segments (levels (depth - 1)) (Z.max 2 (b - 1)))
    /\ segments (levels 12) 6 = segment_cap.
Proof.
  intros extra features params r maxDepth branchingFactor.
  assert (Hd : maxDepth <= 12) by (subst maxDepth; lia).
  assert (Hb : branchingFactor <= 6) by (subst branchingFactor; lia).
  split; [exact Hd|]. split; [exact Hb|]. split; [|split; [|split]].
  - unfold generateFractalTree. fold maxDepth branchingFactor.
    destruct (generateBranch_returns (13 + extra) 0 0 0 0 8 0 maxDepth
                branchingFactor params ([], []) r)
      as (out & r' & E & Hv & Hc).
    { pose proof (levels_le_12 maxDepth Hd). lia. }
    exists (fst out), (snd out), r'.
    unfold mbind, M_bind. rewrite E. split; [reflexivity|].
    unfold entries in *. simpl in Hv, Hc. split; [lia|]. split; [lia|].
    apply segments_below_cap; [apply levels_le_12, Hd|exact Hb].
  - intros fuel sx sy sz ex ey ez depth b out r0 Hdepth.
    cbn [generateBranch].
    replace (depth <=? 0) with true by (symmetry; apply Z.leb_le; exact Hdepth).
    reflexivity.
  - intros depth b Hdepth. rewrite (levels_pred depth Hdepth). reflexivity.
  - vm_compute. reflexivity.
Qed.

End Tree.

End FractalTreeFacts.

(* ===================================================================== *)
(** * The adaptive quality step *)
(* ===================================================================== *)

Module QualityFacts.

Import FractalAlgorithms OptimizedFractalGenerator.

Local Open Scope Q_scope.

(** The number of entries of [currentMeshes] that are point clouds with the
    material at address [a]. *)
Definition uses (a : nat) (meshes : list mesh) : nat :=
  length (List.filter (fun m => match kind m with
                                | PointsWith _ a' => bool_decide (a' = a)
                                | Other _ => false
                                end) meshes).

Lemma shrink_floor s : 0.1 <= shrink s.
Proof. unfold shrink. apply Q.le_max_l. Qed.

Lemma shrink_le s : 0.1 <= s -> shrink s <= s.
Proof.
  intros H. unfold shrink. apply Q.max_lub; [exact H|]. lra.
Qed.

Lemma iter_shrink_le k s : 0.1 <= s -> Nat.iter k shrink s <= s.
Proof.
  intros H. induction k as [|k IH]; simpl; [lra|].
  assert (0.1 <= Nat.iter k shrink s).
  { destruct k; simpl; [exact H|apply shrink_floor]. }
  pose proof (shrink_le _ H0). lra.
Qed.

(** The sizes after the loop over [currentMeshes]: each material was
    shrunk once per mesh that holds it. *)
Lemma reduce_meshes_lookup (meshes : list mesh) : forall (sizes : gmap nat Q) a,
  fold_left reduce_mesh meshes sizes !! a
  = Nat.iter (uses a meshes) shrink <$> sizes !! a.
Proof.
  induction meshes as [|m meshes IH]; intros sizes a.
  - simpl. destruct (sizes !! a); reflexivity.
  - cbn [fold_left]. rewrite IH. unfold uses, reduce_mesh. cbn [List.filter].
    destruct (kind m) as [g a'|o].
    + destruct (decide (a' = a)) as [->|Hne].
      * rewrite bool_decide_eq_true_2 by reflexivity. cbn [length].
        rewrite lookup_alter_eq. destruct (sizes !! a) as [q|]; [|reflexivity].
        cbn [fmap option_fmap option_map]. rewrite Nat.iter_succ_r. reflexivity.
      * rewrite bool_decide_eq_false_2 by exact Hne.
        rewrite lookup_alter_ne by exact Hne. reflexivity.
    + reflexivity.
Qed.

Lemma reduceQuality_ratio g :
  pixelRatio (reduceQuality g)
  = (if Qlt_le_dec 1 (pixelRatio g) then Qmax 1 (pixelRatio g - 0.5) else pixelRatio g).
Proof. reflexivity. Qed.

Lemma reduceQuality_ratio_le g : pixelRatio (reduceQuality g) <= pixelRatio g.
Proof.
  rewrite reduceQuality_ratio. destruct (Qlt_le_dec 1 (pixelRatio g)) as [H|H].
  - apply Q.max_lub; lra.
  - lra.
Qed.

Lemma reduceQuality_sizes g a :
  pointSizes (reduceQuality g) !! a
  = Nat.iter (uses a (currentMeshes g)) shrink <$> pointSizes g !! a.
Proof. unfold reduceQuality. cbn. apply reduce_meshes_lookup. Qed.

(** The frame callback changes the pixel ratio and the sizes only through
    [reduceQuality]. *)
Lemma animate_quality t g :
  (pixelRatio (animate t g) = pixelRatio g
   /\ pointSizes (animate t g) = pointSizes g)
  \/ (pixelRatio (animate t g) = pixelRatio (reduceQuality g)
      /\ pointSizes (animate t g) = pointSizes (reduceQuality g)).
Proof.
  unfold animate. destruct (animation_state g) as [[last count]|]; [|left; split; reflexivity].
  destruct (Z.rem (count + 1) 30 =? 0)%Z; [|left; split; reflexivity].
  destruct (Qeq_bool (t - last) 0); [left; split; reflexivity|].
  destruct (round (1000 / (t - last)) <? 30)%Z.
  - right. split; reflexivity.
  - left. split; reflexivity.
Qed.

(** ** The sizes of a running generator

    Every [PointsMaterial] of the sources is created with a size of 0.3 or
    more, and [reduceQuality] keeps a size at or above its floor of 0.1:
    in every state of a running generator the sizes are at or above the
    floor. *)
Definition sizes_above_floor (g : generator) : Prop :=
  forall a s, pointSizes g !! a = Some s -> 0.1 <= s.

(** The size that an object brings along when it enters [currentMeshes]. *)
Definition size_above_floor (o : object3d) : Prop :=
  match o with
  | Points _ (PointsMaterial size) => 0.1 <= size
  | _ => True
  end.

Lemma adopt_sizes_above_floor o g :
  sizes_above_floor g -> size_above_floor o -> sizes_above_floor (adopt o g).
Proof.
  intros Hg Ho. unfold adopt.
  destruct o as [geo [size| | |]| | | |]; try exact Hg.
  intros a s. cbn [set_meshes pointSizes]. intros H.
  apply lookup_insert_Some in H. destruct H as [[_ <-]|[_ H]]; [exact Ho|].
  apply (Hg _ _ H).
Qed.

Lemma reduceQuality_sizes_above_floor g :
  sizes_above_floor g -> sizes_above_floor (reduceQuality g).
Proof.
  intros Hg a s. rewrite reduceQuality_sizes.
  destruct (pointSizes g !! a) as [s0|] eqn:E; [|discriminate].
  cbn [fmap option_fmap option_map]. intros [= <-].
  destruct (uses a (currentMeshes g)) as [|k]; [apply (Hg _ _ E)|].
  rewrite Nat.iter_succ. apply shrink_floor.
Qed.

Lemma animate_sizes_above_floor t g :
  sizes_above_floor g -> sizes_above_floor (animate t g).
Proof.
  intros Hg. unfold sizes_above_floor.
  destruct (animate_quality t g) as [[_ ->]|[_ ->]];
    [exact Hg|apply reduceQuality_sizes_above_floor, Hg].
Qed.

Section Generated.

Context {host : Host}.
Variable generateCrystalGrowth generateLivingNeuralNetwork :
  HTMLFeatures -> FractalParams -> M object3d.

(** What [generateFractalByMode] returns is a [THREE.Group] in four of its
    branches, whatever the features; the objects of the two generators
    that are not modelled are taken as they come. *)
Lemma generated_size_above_floor features mode s r o r' :
  (forall f p r o r',
      generateCrystalGrowth f p r = Some (o, r') -> size_above_floor o) ->
  (forall f p r o r',
      generateLivingNeuralNetwork f p r = Some (o, r') -> size_above_floor o) ->
  generateFractalByMode generateCrystalGrowth generateLivingNeuralNetwork
    features mode s r = Some (Some o, r') ->
  size_above_floor o.
Proof.
  intros Hc Hn. unfold generateFractalByMode.
  destruct features as [f|]; [|discriminate].
  unfold generate_by_algorithm, generateFlowField, mbind, M_bind, mret, M_ret.
  repeat match goal with
         | |- context [decide ?P] => destruct (decide P)
         end.
  - intros [= <- _]. exact I.
  - destruct (generateCrystalGrowth _ _ r) as [[o' r'']|] eqn:E; [|discriminate].
    intros [= <- _]. apply (Hc _ _ _ _ _ E).
  - destruct (generateLivingNeuralNetwork _ _ r) as [[o' r'']|] eqn:E; [|discriminate].
    intros [= <- _]. apply (Hn _ _ _ _ _ E).
  - unfold DynamicFractalAlgorithms.generateSpiderWebDimension, mbind, M_bind, mret, M_ret.
    cbv zeta.
    match goal with |- context [for_loopM ?n ?b ?i r] =>
      destruct (for_loopM n b i r) as [[group r'']|] end; [|discriminate].
    intros [= <- _]. exact I.
  - intros [= <- _]. exact I.
  - intros [= <- _]. exact I.
Qed.

(** [switchMode] keeps the sizes at or above the floor. *)
Lemma switchMode_sizes_above_floor modeId g r g' r' :
  (forall f p r o r',
      generateCrystalGrowth f p r = Some (o, r') -> size_above_floor o) ->
  (forall f p r o r',
      generateLivingNeuralNetwork f p r = Some (o, r') -> size_above_floor o) ->
  sizes_above_floor g ->
  switchMode generateCrystalGrowth generateLivingNeuralNetwork modeId g r
  = Some (g', r') ->
  sizes_above_floor g'.
Proof.
  intros Hc Hn Hg. unfold switchMode.
  destruct (find_mode modeId) as [mode|]; [|intros [= <- _]; exact Hg].
  destruct (features g) as [f|] eqn:Ef; [|intros [= <- _]; exact Hg].
  cbv zeta. unfold mbind, M_bind.
  destruct (generateFractalByMode _ _ _ _ _ r) as [[[o|] r'']|] eqn:E; [| |discriminate].
  - unfold mret, M_ret. intros [= <- _]. apply adopt_sizes_above_floor.
    + exact Hg.
    + apply (generated_size_above_floor _ _ _ _ _ _ Hc Hn E).
  - unfold mret, M_ret. intros [= <- _]. exact Hg.
Qed.

End Generated.

(** A running generator at the pixel ratio 2 that shows one group. *)
Definition running : generator :=
  {| features := None; pixelRatio := 2; pointSizes := ∅;
     currentMeshes :=
       [{| kind := Other (Group []); rotation_x := 0; rotation_y := 0;
           frozen := false |}];
     geometryCache := ∅; materialCache := ∅; animation_state := Some (0, 29%Z);
     fps := Fps 60; frameTime := 0; camera := (0, 0, 0) |}.

(** C9.  The adaptive quality step only ever reduces.  In every state
    whose point sizes are at or above the floor of 0.1, as the sizes of a
    running generator are, [reduceQuality] never increases the pixel ratio
    or a point size: the new ratio is [max(1, previous - 0.5)] when the
    previous one exceeds 1 and is the previous one otherwise; the size of
    the material of a point cloud of [currentMeshes] becomes
    [max(0.1, 0.8 × previous)], once for each entry that holds the
    material, and a size that no entry holds stays as it is.  The sizes
    are at or above the floor afterwards as well.  The frame callback
    touches the pixel ratio and the sizes through [reduceQuality] only, so
    it never raises either. *)
Theorem reduceQuality_only_reduces :
  forall g : generator,
    sizes_above_floor g ->
    pixelRatio (reduceQuality g)
    = (if Qlt_le_dec 1 (pixelRatio g) then Qmax 1 (pixelRatio g - 0.5)
       else pixelRatio g)
    /\ pixelRatio (reduceQuality g) <= pixelRatio g
    /\ (forall a,
          pointSizes (reduceQuality g) !! a
          = Nat.iter (uses a (currentMeshes g)) shrink <$> pointSizes g !! a)
    /\ (forall a s,
          pointSizes g !! a = Some s ->
          (uses a (currentMeshes g) = 1%nat ->
           pointSizes (reduceQuality g) !! a = Some (Qmax 0.1 (s * 0.8)))
          /\ (uses a (currentMeshes g) = 0%nat ->
              pointSizes (reduceQuality g) !! a = Some s)
          /\ exists s', pointSizes (reduceQuality g) !! a = Some s'
                        /\ s' <= s /\ 0.1 <= s')
    /\ sizes_above_floor (reduceQuality g)
    /\ (forall t,
          pixelRatio (animate t g) <= pixelRatio g
          /\ (forall a s,
                pointSizes g !! a = Some s ->
                exists s', pointSizes (animate t g) !! a = Some s' /\ s' <= s)
          /\ sizes_above_floor (animate t g)).
Proof.
  intros g Hg. split; [apply reduceQuality_ratio|]. split; [apply reduceQuality_ratio_le|].
  split; [apply reduceQuality_sizes|].
  assert (Hred : forall a s, pointSizes g !! a = Some s ->
            exists s', pointSizes (reduceQuality g) !! a = Some s' /\ s' <= s /\ 0.1 <= s').
  { intros a s Hs. pose proof (Hg _ _ Hs) as Hfloor.
    rewrite reduceQuality_sizes, Hs. cbn.
    eexists. split; [reflexivity|]. split; [apply iter_shrink_le, Hfloor|].
    destruct (uses a (currentMeshes g)); simpl; [exact Hfloor|apply shrink_floor]. }
  split; [|split].
  - intros a s Hs. split; [|split].
    + intros H1. rewrite reduceQuality_sizes, Hs, H1. reflexivity.
    + intros H0. rewrite reduceQuality_sizes, Hs, H0. reflexivity.
    + apply Hred, Hs.
  - apply reduceQuality_sizes_above_floor, Hg.
  - intros t. split; [|split].
    + destruct (animate_quality t g) as [[-> _]|[-> _]];
        [lra|apply reduceQuality_ratio_le].
    + intros a s Ha. destruct (animate_quality t g) as [[_ ->]|[_ ->]].
      * exists s. split; [exact Ha|lra].
      * destruct (Hred a s Ha) as (s' & E & Hle & _). exists s'. split; assumption.
    + apply animate_sizes_above_floor, Hg.
Qed.

Lemma reduceQuality_only_reduces_witness :
  sizes_above_floor running
  /\ pixelRatio (reduceQuality running) = Qmax 1 (2 - 0.5)
  /\ pixelRatio (animate 100 running) <= pixelRatio running.
Proof.
  assert (sizes_above_floor running) as H.
  { intros a s E. cbn in E. rewrite lookup_empty in E. discriminate. }
  split; [exact H|].
  destruct (reduceQuality_only_reduces running H) as (Hr & _ & _ & _ & _ & Ht).
  split; [exact Hr|]. apply Ht.
Defined.

End QualityFacts.

(* ===================================================================== *)
(** * Mode switching and analysis failure in the content script *)
(* ===================================================================== *)

Module ViewerFacts.

Import FractalAlgorithms EnhancedFractalGenerator FractalViewer.

Module OFG := OptimizedFractalGenerator.

(** A viewer that has generated nothing yet. *)
Definition idle_viewer : viewer :=
  {| generator := None;
     the_page := {| container := None; stale_containers := []; controls := 0 |};
     isActive := false; currentFeatures := None; cachedModes := ∅;
     currentMode := None; instances := ∅; disposed := []; alerts := [] |}.

(** C4, as stated, fails: [switchToMode] on a mode that is not cached
    generates nothing and caches nothing. *)
Lemma switchToMode_miss_generates_nothing :
  cachedModes idle_viewer !! js "mandala" = None
  /\ cachedModes (switchToMode (js "mandala") idle_viewer) !! js "mandala" = None
  /\ instances (switchToMode (js "mandala") idle_viewer) = ∅.
Proof. repeat split. Qed.

Section Viewer.

Context {host : Host}.
Variable analyze : list Z -> completion HTMLFeatures.
Variable outerHTML : page -> list Z.
Variable generateCrystalGrowth generateLivingNeuralNetwork :
  HTMLFeatures -> FractalParams -> M object3d.

Lemma make_room_features v : currentFeatures (make_room v) = currentFeatures v.
Proof. unfold make_room. destruct (container (the_page v)); reflexivity. Qed.

Lemma ensure_features_page v :
  the_page (ensure_features analyze outerHTML v) = the_page v.
Proof. unfold ensure_features. destruct (currentFeatures v); reflexivity. Qed.

(** When the analysis of the page throws, the generator instance throws
    too, and the request ends in the [catch] block. *)
Lemma generateFractal_analysis_throws fuel sections s mode v r message :
  analyze (outerHTML (the_page (make_room v))) = Throw message ->
  FractalViewer.generateFractal analyze outerHTML fuel sections s mode v r
  = Some (report message (ensure_features analyze outerHTML (make_room v)), r).
Proof.
  intros Hthrow. unfold FractalViewer.generateFractal. cbv zeta.
  unfold EnhancedFractalGenerator.generateFractal. cbv zeta.
  rewrite ensure_features_page, Hthrow. reflexivity.
Qed.

(** When the analysis succeeds and the instance returns, a request with a
    mode caches the new canvas and generator under that mode. *)
Lemma generateFractal_caches fuel sections s c m v r instance r' :
  let v1 := ensure_features analyze outerHTML (make_room v) in
  EnhancedFractalGenerator.generateFractal analyze fuel (outerHTML (the_page v1))
    sections s fresh_generator r = Some (Normal instance, r') ->
  exists v',
    FractalViewer.generateFractal analyze outerHTML fuel sections s (Some (c :: m)) v r
    = Some (v', r')
    /\ cachedModes v' !! (c :: m)
       = Some (fresh (dom (instances v1)), fresh (dom (instances v1)))
    /\ instances v' !! fresh (dom (instances v1)) = Some instance
    /\ instances v !! fresh (dom (instances v1)) = None
    /\ currentMode v' = Some (c :: m).
Proof.
  intros v1 Hgen. unfold FractalViewer.generateFractal. cbv zeta. fold v1.
  unfold mbind at 1. unfold M_bind at 1. rewrite Hgen. cbv beta iota.
  eexists. split; [reflexivity|]. cbn.
  split; [apply lookup_insert_eq|]. split; [apply lookup_insert_eq|]. split; [|reflexivity].
  assert (Hinst : instances v1 = instances v).
  { subst v1. unfold ensure_features, make_room.
    destruct (container (the_page v)); cbn;
      repeat match goal with |- context [match ?x with _ => _ end] => destruct x end;
      reflexivity. }
  rewrite <- Hinst. apply not_elem_of_dom, is_fresh.
Qed.


(** C4, amended.  [FractalViewer.switchToMode]: when the mode is cached,
    the cached canvas and generator become the current ones, the cache, the
    generator instances, the features and the alerts are left as they were
    (nothing is generated), and a mounted container ends up holding the
    cached canvas in place of its first one; when the mode is not cached,
    the call changes nothing (no generation, no insertion).
    [OptimizedFractalGenerator.switchMode] consults no cache of results:
    for an unknown mode or missing features it changes nothing, and for a
    known mode with features it always generates afresh from the features
    and replaces the current objects by the new one, leaving the geometry
    and material caches as they were.  Generating and caching is what
    [FractalViewer.generateFractal] does when it is given a mode and the
    generation returns: the new canvas and generator are stored under the
    mode, at an address no earlier instance has. *)
Theorem switchMode_reuses_cache_or_does_nothing :
  (forall mode v canvas g,
      cachedModes v !! mode = Some (canvas, g) ->
      let v' := switchToMode mode v in
      currentMode v' = Some mode
      /\ FractalViewer.generator v' = Some g
      /\ cachedModes v' = cachedModes v
      /\ instances v' = instances v
      /\ currentFeatures v' = currentFeatures v
      /\ disposed v' = disposed v
      /\ alerts v' = alerts v
      /\ container (the_page v')
         = (fun held => without canvas (tail held) ++ [canvas])
             <$> container (the_page v))
  /\ (forall mode v, cachedModes v !! mode = None -> switchToMode mode v = v)
  /\ (forall modeId g r,
        (OFG.find_mode modeId = None \/ OFG.features g = None) ->
        OFG.switchMode generateCrystalGrowth
          generateLivingNeuralNetwork modeId g r = Some (g, r))
  /\ (forall modeId mode f g r,
        OFG.find_mode modeId = Some mode ->
        OFG.features g = Some f ->
        OFG.switchMode generateCrystalGrowth
          generateLivingNeuralNetwork modeId g r
        = match OFG.generate_by_algorithm
                  generateCrystalGrowth generateLivingNeuralNetwork
                  (OFG.mode_algorithm mode) f
                  (OFG.mode_params mode
                     (OFG.switch_settings modeId) f) r with
          | Some (o, r') =>
              Some (OFG.adopt o
                      (OFG.clearCurrentMeshes g), r')
          | None => None
          end)
  /\ (forall o g,
        let g' := OFG.adopt o
                    (OFG.clearCurrentMeshes g) in
        length (OFG.currentMeshes g') = 1%nat
        /\ OFG.geometryCache g'
           = OFG.geometryCache g
        /\ OFG.materialCache g'
           = OFG.materialCache g)
  /\ (forall fuel sections s c m v r instance r',
        let v1 := ensure_features analyze outerHTML (make_room v) in
        EnhancedFractalGenerator.generateFractal analyze fuel
          (outerHTML (the_page v1)) sections s fresh_generator r
        = Some (Normal instance, r') ->
        exists v',
          FractalViewer.generateFractal analyze outerHTML fuel sections s
            (Some (c :: m)) v r = Some (v', r')
          /\ cachedModes v' !! (c :: m)
             = Some (fresh (dom (instances v1)), fresh (dom (instances v1)))
          /\ instances v' !! fresh (dom (instances v1)) = Some instance
          /\ instances v !! fresh (dom (instances v1)) = None
          /\ currentMode v' = Some (c :: m)).
Proof.
  split; [|split; [|split; [|split; [|split]]]].
  - intros mode v canvas g Hhit v'. subst v'. unfold switchToMode. rewrite Hhit.
    cbn. repeat (split; [reflexivity|]).
    destruct (container (the_page v)) as [held|] eqn:E; cbn; rewrite ?E; reflexivity.
  - intros mode v Hmiss. unfold switchToMode. rewrite Hmiss. reflexivity.
  - intros modeId g r [H|H]; unfold OFG.switchMode; rewrite H.
    + reflexivity.
    + destruct (OFG.find_mode modeId); reflexivity.
  - intros modeId mode f g r Hmode Hf.
    unfold OFG.switchMode. rewrite Hmode, Hf. cbn zeta.
    unfold OFG.generateFractalByMode.
    cbn [OFG.features OFG.clearCurrentMeshes
         OFG.set_meshes].
    rewrite Hf. unfold mbind, M_bind.
    destruct (OFG.generate_by_algorithm _ _ _ _ _ r)
      as [[o r']|]; reflexivity.
  - intros o g g'. subst g'.
    destruct o as [geo m|geo m|geo m|geo m p rot u ch|ch];
      try destruct m; repeat split.
  - intros fuel sections s c m v r instance r'. apply generateFractal_caches.
Qed.


End Viewer.

(** C8, on the code: a request on a page whose analysis throws.  The
    viewer's own [analyzeCurrentPage] substitutes the fallback features, but
    the generator instance analyzes the page again without any fallback, so
    the request ends with an alert and neither displays nor caches
    anything. *)
Theorem analysis_failure_aborts_generation :
  forall (host : Host) (outerHTML : page -> list Z) fuel sections s mode r message,
    let analyze := fun _ : list Z => @Throw HTMLFeatures message in
    analyzeCurrentPage analyze outerHTML idle_viewer = fallback_features
    /\ exists v',
         FractalViewer.generateFractal analyze outerHTML fuel sections s mode
           idle_viewer r = Some (v', r)
         /\ currentFeatures v' = Some fallback_features
         /\ alerts v' = [js "Error generating fractal: " ++ message]
         /\ container (the_page v') = None
         /\ cachedModes v' = ∅
         /\ instances v' = ∅.
Proof.
  intros host outerHTML fuel sections s mode r message analyze. split; [reflexivity|].
  eexists. split.
  - apply generateFractal_analysis_throws. reflexivity.
  - repeat split.
Qed.

End ViewerFacts.

(* ===================================================================== *)
(** * The default section *)
(* ===================================================================== *)

Module DefaultSectionFacts.

Import FractalAlgorithms EnhancedFractalGenerator.

Lemma extractTagCounts_empty : extractTagCounts [] = [].
Proof. reflexivity. Qed.

Section Defaults.

Context {host : Host}.

(** The loop over the section types adds nothing when no count is
    positive. *)
Lemma createDefaultSections_none_positive f :
  (forall type, type ∈ sectionTypes -> positive_count (tagCounts f) type = false) ->
  createDefaultSections (Some f) = [default_section].
Proof.
  intros Hnone. unfold createDefaultSections.
  assert (Hfold : forall l acc,
             (forall p, p ∈ l -> snd p ∈ sectionTypes) ->
             acc = [] ->
             fold_left (fun sections '(index, type) =>
                          if positive_count (tagCounts f) type then
                            sections ++
                            [{| name := type;
                                section_algorithm := selectAlgorithmForSection f type index;
                                enabled := true;
                                position :=
                                  calculateSectionPosition index (Z.of_nat (length sections));
                                section_scale := calculateSectionScale f type |}]
                          else sections) l acc = []).
  { induction l as [|[index type] l IH]; intros acc Hall Hacc; [exact Hacc|].
    cbn [fold_left]. rewrite (Hnone type).
    - apply IH; [|exact Hacc]. intros p Hp. apply Hall. right. exact Hp.
    - apply (Hall (index, type)). left. }
  rewrite Hfold; [reflexivity| |reflexivity].
  intros [index type] Hp. apply elem_of_zip_r in Hp. exact Hp.
Qed.

Lemma createDefaultSections_nonempty f : createDefaultSections (Some f) <> [].
Proof.
  unfold createDefaultSections.
  destruct (fold_left _ _ _); discriminate.
Qed.

Lemma positive_count_empty type : positive_count [] type = false.
Proof. reflexivity. Qed.

Section EmptyDocument.

(** The analyzer with the host's parser and the extractors that are not
    modelled; it never throws. *)
Variable parseFromString : list Z -> document.
Variable extractClassCounts extractIdCounts extractAttributeCounts : list Z -> counts.
Variable extractColorPalette : list Z -> list (list Z).

Definition analyzer (html : list Z) : completion HTMLFeatures :=
  Normal (analyze parseFromString extractClassCounts extractIdCounts
            extractAttributeCounts extractColorPalette html).

(** C7.  When no section type of the fixed list has a positive tag count,
    [createDefaultSections] returns exactly the one section named default
    with the algorithm mandelbrot, enabled, at the origin with scale 1; with
    features present its result is never empty.  In particular a request
    for the empty markup with no sections of the caller does not throw: it
    is generated from exactly that default section and mounts exactly one
    object, the Mandelbrot set of the default section. *)
Theorem empty_document_yields_default_section :
  (forall f,
      (forall type, type ∈ sectionTypes -> positive_count (tagCounts f) type = false) ->
      createDefaultSections (Some f) = [default_section])
  /\ name default_section = js "default"
  /\ section_algorithm default_section = js "mandelbrot"
  /\ (forall f, createDefaultSections (Some f) <> [])
  /\ (forall fuel s g r,
        exists f g' params,
          analyzer [] = Normal f
          /\ finalSections (Some f) [] = [default_section]
          /\ generateFractal analyzer fuel [] [] s g r = Some (Normal g', r)
          /\ features g' = Some f
          /\ map object (currentMeshes g') = [generateMandelbrotSet f params]
          /\ map mounted_position (currentMeshes g') = [Some (0, 0, 0)%Q]
          /\ map mounted_scale (currentMeshes g') = [Some 1%Q]).
Proof.
  split; [apply createDefaultSections_none_positive|].
  split; [reflexivity|]. split; [reflexivity|].
  split; [apply createDefaultSections_nonempty|].
  intros fuel s g r.
  set (f := analyze parseFromString extractClassCounts extractIdCounts
              extractAttributeCounts extractColorPalette []).
  assert (Hdefault : createDefaultSections (Some f) = [default_section]).
  { apply createDefaultSections_none_positive. intros type _. reflexivity. }
  exists f. eexists. eexists.
  split; [reflexivity|]. split; [exact Hdefault|].
  unfold generateFractal, analyzer. fold f. cbv zeta.
  cbn [features clearPreviousFractal clearCurrentMeshes currentMeshes animating
       camera settings finalSections].
  rewrite Hdefault. unfold generateFractalSections.
  cbn [generateFractalSections_from generateFractalSection features enabled
       default_section section_algorithm].
  unfold createFractalObject.
  destruct (decide (js "mandelbrot" = js "mandelbrot")) as [_|Hne]; [|contradiction].
  split; [reflexivity|]. split; [reflexivity|]. split; [reflexivity|].
  split; reflexivity.
Qed.

End EmptyDocument.

End Defaults.

End DefaultSectionFacts.

(* ===================================================================== *)
(** * Determinism of the generators *)
(* ===================================================================== *)

Module DeterminismFacts.

Import FractalAlgorithms DynamicFractalAlgorithms.

Module EFG := EnhancedFractalGenerator.
Module OFG := OptimizedFractalGenerator.

(** Two calls in a row, the second on the random source as the first left
    it: the two objects. *)
Definition twice {A : Type} (generate : M A) : M (A * A) :=
  first ← generate; second ← generate; mret (first, second).

(** The generator yields one and the same object whatever the state of the
    random source, and leaves the source alone. *)
Definition deterministic {A : Type} (generate : M A) : Prop :=
  exists o, forall r, generate r = Some (o, r).

Lemma deterministic_twice {A : Type} (generate : M A) :
  deterministic generate ->
  forall r, exists o, twice generate r = Some ((o, o), r).
Proof.
  intros [o Ho] r. exists o. unfold twice, mbind, M_bind.
  rewrite Ho, Ho. reflexivity.
Qed.

Lemma deterministic_mret {A : Type} (o : A) : deterministic (mret o).
Proof. exists o. intros r. reflexivity. Qed.

Section Sierpinski.

Context {host : Host}.

Lemma recursiveSierpinski_returns fuel :
  forall v0 v1 v2 v3 depth group params level,
    (Z.to_nat depth < fuel)%nat ->
    exists group',
      recursiveSierpinski fuel v0 v1 v2 v3 depth group params level = Some group'.
Proof.
  induction fuel as [|fuel IH]; intros v0 v1 v2 v3 depth group params level Hfuel;
    [lia|].
  cbn [recursiveSierpinski].
  destruct ((depth <=? 0) || (15 <? level)) eqn:Hguard; [eexists; reflexivity|].
  apply orb_false_iff in Hguard. destruct Hguard as [H0 _]. apply Z.leb_gt in H0.
  cbv zeta.
  repeat match goal with
  | |- context [recursiveSierpinski fuel ?a ?b ?c ?d ?e ?g ?p ?l] =>
      let E := fresh "E" in
      destruct (IH a b c d e g p l ltac:(lia)) as [? E]; rewrite E; cbn
  end.
  eexists; reflexivity.
Qed.

Lemma generateSierpinskiTetrahedron_returns extra features params :
  exists o, generateSierpinskiTetrahedron (9 + extra) features params = Some o.
Proof.
  unfold generateSierpinskiTetrahedron.
  match goal with
  | |- context [recursiveSierpinski ?n ?a ?b ?c ?d ?e ?g ?p ?l] =>
      destruct (recursiveSierpinski_returns n a b c d e g p l) as [group E];
        [lia|rewrite E]
  end.
  eexists; reflexivity.
Qed.

End Sierpinski.

(** A host for evaluating the generators on concrete inputs: the
    arithmetic is that of the rationals, the transcendental functions are
    constant. *)
Definition plain_host : Host :=
  {| sin := fun _ => 0%Q; cos := fun _ => 1%Q; sqrt := fun q => q;
     log := fun q => q; PI := 3%Q; color_rgb := fun _ => (0, 0, 0)%Q |}.

(** A document of 25 elements and nothing else of note. *)
Definition small_features : HTMLFeatures :=
  {| tagCounts := []; classCounts := []; idCounts := []; attributeCounts := [];
     nestingDepth := 1; semanticTags := []; interactiveTags := []; mediaTags := [];
     textLength := 0; linkCount := 0; imageCount := 0; formElements := 0;
     totalElements := 25; uniqueTags := 1; avgNestingLevel := 1%Q;
     maxNestingLevel := 1; colorPalette := []; structuralHash := js "0" |}.

Definition small_params : FractalParams :=
  {| iterations := 20; complexity := 1%Q; scale := Some 1%Q; colorSeed := 0;
     algorithm := js "spiderWeb"; morphFactor := 0%Q; animationSpeed := 1%Q |}.

(** A random source that returns 0 for its first 61 draws and 1/2 from
    then on. *)
Definition uneven_source : random_source :=
  {| draws := fun n => if (n <? 61)%nat then 0%Q else (1 # 2)%Q; drawn := 0 |}.

Definition children_count (o : object3d) : nat :=
  match o with
  | Group children => length children
  | _ => 0%nat
  end.

(** C2, as stated, fails: the spider-web generator is no recursive
    branching variant, and two calls in a row with the same features and
    parameters return different objects (here with 32 and 36 children). *)
Lemma spider_web_differs_between_calls :
  exists o1 o2 r',
    twice (generateSpiderWebDimension (host := plain_host) small_features small_params)
      uneven_source = Some ((o1, o2), r')
    /\ children_count o1 <> children_count o2.
Proof.
  eexists. eexists. eexists. split.
  - vm_compute. reflexivity.
  - vm_compute. discriminate.
Qed.

Section Dispatch.

Context {host : Host}.
Variable generateCrystalGrowth generateLivingNeuralNetwork :
  HTMLFeatures -> FractalParams -> M object3d.

(** C2, amended.  Every algorithm identifier whose generator does not call
    the unseeded random source is deterministic: its object depends on the
    features and the parameters only, whatever the random source holds,
    and two calls in a row return the same object.  That is every
    identifier of [createFractalObject] except tree, and every identifier
    of [generateFractalByMode] except flowField (crystal growth),
    neuralNetwork and spiderWeb, which draw from [Math.random].  In
    particular the Mandelbrot and Lorenz generators are functions of the
    features and the parameters. *)
Theorem generators_without_random_are_deterministic :
  (forall f p alg extra,
      alg <> js "tree" ->
      deterministic (EFG.createFractalObject (9 + extra) (Some f) alg p))
  /\ (forall f p alg,
        alg <> js "flowField" -> alg <> js "neuralNetwork" -> alg <> js "spiderWeb" ->
        deterministic
          (OFG.generate_by_algorithm generateCrystalGrowth
             generateLivingNeuralNetwork alg f p))
  /\ (forall f p fuel r,
        EFG.createFractalObject fuel (Some f) (js "mandelbrot") p r
        = Some (Some (generateMandelbrotSet f p), r))
  /\ (forall f p fuel r,
        EFG.createFractalObject fuel (Some f) (js "lorenz") p r
        = Some (Some (generateLorenzAttractor f p), r))
  /\ (forall (A : Type) (generate : M A),
        deterministic generate ->
        forall r, exists o, twice generate r = Some ((o, o), r)).
Proof.
  split; [|split; [|split; [|split]]].
  - intros f p alg extra Htree. unfold EFG.createFractalObject.
    repeat match goal with
    | |- context [decide (alg = ?s)] => destruct (decide (alg = s))
    end; try apply deterministic_mret; try contradiction.
    destruct (generateSierpinskiTetrahedron_returns extra f p) as [o E].
    rewrite E. apply deterministic_mret.
  - intros f p alg Hflow Hneural Hweb. unfold OFG.generate_by_algorithm.
    repeat match goal with
    | |- context [decide (alg = ?s)] => destruct (decide (alg = s))
    end; try apply deterministic_mret; contradiction.
  - intros f p fuel r. reflexivity.
  - intros f p fuel r. reflexivity.
  - intros A generate. apply deterministic_twice.
Qed.

End Dispatch.

End DeterminismFacts.


(* ===================================================================== *)
(** * Properties of the pattern matcher *)
(* ===================================================================== *)

Module RegexFacts.

Lemma matched_with_text m r : matched (with_text m r) = m ++ matched r.
Proof. reflexivity. Qed.

Lemma matched_extend c r : matched (extend c r) = c :: matched r.
Proof.
  unfold matched, extend. destruct r as [[|m ms] rest]; reflexivity.
Qed.

Lemma snd_with_text m r : snd (with_text m r) = snd r.
Proof. reflexivity. Qed.

Lemma snd_extend c r : snd (extend c r) = snd r.
Proof. unfold extend. destruct r as [[|m ms] rest]; reflexivity. Qed.

(** A continuation is sound when the subject is what it matched followed
    by what it left. *)
Definition sound (k : list Z -> option match_result) : Prop :=
  forall s r, k s = Some r -> s = matched r ++ snd r.

Lemma greedy_star_sound p k : sound k -> sound (greedy_star p k).
Proof.
  intros Hk s. induction s as [|c s IH]; intros r H; cbn [greedy_star] in H.
  - destruct (k []) as [r0|] eqn:E; [|discriminate]. injection H as <-.
    rewrite matched_with_text, snd_with_text. apply Hk, E.
  - destruct (p c).
    + destruct (greedy_star p k s) as [r0|] eqn:E0.
      * injection H as <-. rewrite matched_extend, snd_extend.
        cbn. f_equal. apply IH. reflexivity.
      * destruct (k (c :: s)) as [r1|] eqn:E1; [|discriminate]. injection H as <-.
        rewrite matched_with_text, snd_with_text. apply Hk, E1.
    + destruct (k (c :: s)) as [r1|] eqn:E1; [|discriminate]. injection H as <-.
      rewrite matched_with_text, snd_with_text. apply Hk, E1.
Qed.

Lemma lazy_star_sound p k : sound k -> sound (lazy_star p k).
Proof.
  intros Hk s. induction s as [|c s IH]; intros r H; cbn [lazy_star] in H.
  - destruct (k []) as [r0|] eqn:E; [|discriminate]. injection H as <-.
    rewrite matched_with_text, snd_with_text. apply Hk, E.
  - destruct (k (c :: s)) as [r0|] eqn:E.
    + injection H as <-. rewrite matched_with_text, snd_with_text. apply Hk, E.
    + destruct (p c); [|discriminate].
      destruct (lazy_star p k s) as [r1|] eqn:E1; [|discriminate]. injection H as <-.
      rewrite matched_extend, snd_extend. cbn. f_equal. apply IH. reflexivity.
Qed.

Lemma exec_at_sound re : sound (exec_at re).
Proof.
  induction re as [|a re IH]; intros s r H; cbn [exec_at] in H.
  - injection H as <-. reflexivity.
  - destruct (quant a).
    + destruct s as [|c s]; [discriminate|]. destruct (accepts a c); [|discriminate].
      destruct (exec_at re s) as [r0|] eqn:E; [|discriminate]. injection H as <-.
      rewrite matched_with_text, snd_with_text. cbn. f_equal. apply IH, E.
    + revert H. apply greedy_star_sound, IH.
    + destruct s as [|c s]; [discriminate|]. destruct (accepts a c); [|discriminate].
      destruct (greedy_star (accepts a) (exec_at re) s) as [r0|] eqn:E; [|discriminate].
      injection H as <-. rewrite matched_extend, snd_extend. cbn. f_equal.
      revert E. apply greedy_star_sound, IH.
    + revert H. apply lazy_star_sound, IH.
Qed.

Lemma exec_at_shorter re s r :
  exec_at re s = Some r -> matched r <> [] -> (length (snd r) < length s)%nat.
Proof.
  intros H Hne. apply exec_at_sound in H.
  apply (f_equal (@length Z)) in H. rewrite length_app in H.
  destruct (matched r); [contradiction|]. simpl in H. lia.
Qed.

(** ** The scan loops do not depend on the fuel, once there is enough *)

Lemma replace_from_enough re by_ fuel : forall s fuel',
  (length s < fuel)%nat -> (length s < fuel')%nat ->
  replace_from fuel re by_ s = replace_from fuel' re by_ s.
Proof.
  induction fuel as [|fuel IH]; intros s fuel' H H'; [lia|].
  destruct fuel' as [|fuel']; [lia|]. cbn [replace_from].
  assert (Hkeep : match s with [] => [] | c :: s' => c :: replace_from fuel re by_ s' end
                  = match s with [] => [] | c :: s' => c :: replace_from fuel' re by_ s' end).
  { destruct s as [|c s]; [reflexivity|]. f_equal. apply IH; simpl in *; lia. }
  rewrite Hkeep. destruct (exec_at re s) as [r|] eqn:E; [|reflexivity].
  destruct (matched r) as [|m ms] eqn:Em; [reflexivity|]. f_equal.
  assert (length (snd r) < length s)%nat
    by (apply (exec_at_shorter re s r E); rewrite Em; discriminate).
  apply IH; lia.
Qed.

(** The unfolding of [replace_all]. *)
Lemma replace_all_unfold re by_ s :
  replace_all re by_ s
  = let keep := match s with [] => [] | c :: s' => c :: replace_all re by_ s' end in
    match exec_at re s with
    | Some r =>
        match matched r with
        | [] => by_ ++ keep
        | _ :: _ => by_ ++ replace_all re by_ (snd r)
        end
    | None => keep
    end.
Proof.
  unfold replace_all at 1. cbn [replace_from]. cbv zeta.
  assert (Hkeep : match s with [] => [] | c :: s' => c :: replace_from (length s) re by_ s' end
                  = match s with [] => [] | c :: s' => c :: replace_all re by_ s' end).
  { destruct s as [|c s]; reflexivity. }
  rewrite Hkeep. destruct (exec_at re s) as [r|] eqn:E; [|reflexivity].
  destruct (matched r) as [|m ms] eqn:Em; [reflexivity|]. f_equal.
  assert (length (snd r) < length s)%nat
    by (apply (exec_at_shorter re s r E); rewrite Em; discriminate).
  apply replace_from_enough; lia.
Qed.

Lemma exec_all_from_enough re fuel : forall s fuel',
  (length s < fuel)%nat -> (length s < fuel')%nat ->
  exec_all_from fuel re s = exec_all_from fuel' re s.
Proof.
  induction fuel as [|fuel IH]; intros s fuel' H H'; [lia|].
  destruct fuel' as [|fuel']; [lia|]. cbn [exec_all_from].
  destruct (exec_at re s) as [r|] eqn:E.
  - destruct (matched r) as [|m ms] eqn:Em; [reflexivity|]. f_equal.
    assert (length (snd r) < length s)%nat
      by (apply (exec_at_shorter re s r E); rewrite Em; discriminate).
    apply IH; lia.
  - destruct s as [|c s]; [reflexivity|]. apply IH; simpl in *; lia.
Qed.

(** The unfolding of [exec_all]. *)
Lemma exec_all_unfold re s :
  exec_all re s
  = match exec_at re s with
    | Some r =>
        match matched r with
        | [] => []
        | _ :: _ => fst r :: exec_all re (snd r)
        end
    | None =>
        match s with
        | [] => []
        | _ :: s' => exec_all re s'
        end
    end.
Proof.
  unfold exec_all at 1. cbn [exec_all_from].
  destruct (exec_at re s) as [r|] eqn:E.
  - destruct (matched r) as [|m ms] eqn:Em; [reflexivity|]. f_equal.
    assert (length (snd r) < length s)%nat
      by (apply (exec_at_shorter re s r E); rewrite Em; discriminate).
    apply exec_all_from_enough; lia.
  - destruct s as [|c s]; [reflexivity|]. apply exec_all_from_enough; simpl; lia.
Qed.

(** ** Direct readings of the patterns

    What is left of the subject behind a match, if there is one. *)
Definition rest (re : regex) (s : list Z) : option (list Z) := snd <$> exec_at re s.

(** A pattern that never matches the empty string. *)
Definition consuming (re : regex) : Prop :=
  forall s r, exec_at re s = Some r -> matched r <> [].

Lemma consuming_one p re : consuming (Atom p One :: re).
Proof.
  intros s r H. cbn in H. destruct s as [|c s]; [discriminate|].
  destruct (p c); [|discriminate]. destruct (exec_at re s); [|discriminate].
  injection H as <-. rewrite matched_with_text. discriminate.
Qed.

Lemma consuming_plus p re : consuming (Atom p Plus :: re).
Proof.
  intros s r H. cbn in H. destruct s as [|c s]; [discriminate|].
  destruct (p c); [|discriminate]. destruct (greedy_star p (exec_at re) s); [|discriminate].
  injection H as <-. rewrite matched_extend. discriminate.
Qed.

(** The unfolding of [replace_all] for such a pattern and the empty
    replacement or any other. *)
Lemma replace_all_consuming re by_ s :
  consuming re ->
  replace_all re by_ s
  = match rest re s with
    | Some behind => by_ ++ replace_all re by_ behind
    | None => match s with [] => [] | c :: s' => c :: replace_all re by_ s' end
    end.
Proof.
  intros Hc. rewrite replace_all_unfold. cbv zeta. unfold rest.
  destruct (exec_at re s) as [r|] eqn:E; [|reflexivity]. cbn.
  destruct (matched r) eqn:Em; [|reflexivity]. exfalso. apply (Hc s r E Em).
Qed.

(** [starts_with p s]: what follows [p] at the start of [s]. *)
Fixpoint starts_with (p s : list Z) : option (list Z) :=
  match p, s with
  | [], _ => Some s
  | a :: p', c :: s' => if a =? c then starts_with p' s' else None
  | _ :: _, [] => None
  end.

Lemma rest_literal p re s :
  rest (map lit p ++ re) s = starts_with p s ≫= rest re.
Proof.
  unfold rest. revert s. induction p as [|a p IH]; intros s; [reflexivity|].
  cbn [map app exec_at lit quant accepts starts_with].
  destruct s as [|c s]; [reflexivity|].
  destruct (a =? c); [|reflexivity].
  rewrite <- IH. destruct (exec_at (map lit p ++ re) s); reflexivity.
Qed.

Lemma rest_nil s : rest [] s = Some s.
Proof. reflexivity. Qed.

Lemma starts_with_app p s : starts_with p (p ++ s) = Some s.
Proof.
  induction p as [|a p IH]; [reflexivity|]. cbn. rewrite Z.eqb_refl. exact IH.
Qed.

Lemma starts_with_Some p s t : starts_with p s = Some t -> s = p ++ t.
Proof.
  revert s. induction p as [|a p IH]; intros s H; cbn in H.
  - injection H as <-. reflexivity.
  - destruct s as [|c s]; [discriminate|]. destruct (a =? c) eqn:E; [|discriminate].
    apply Z.eqb_eq in E. subst c. cbn. f_equal. apply IH, H.
Qed.

End RegexFacts.

(* ===================================================================== *)
(** * The fingerprint, in the words of the specification *)
(* ===================================================================== *)

Module FingerprintSpec.

Import RegexFacts.

(** Collapse every run of white space to a single space.  [in_run] tells
    that the previous code unit was white space. *)
Fixpoint collapse_whitespace (in_run : bool) (s : list Z) : list Z :=
  match s with
  | [] => []
  | c :: s' =>
      if is_space c then
        if in_run then collapse_whitespace true s'
        else 32 :: collapse_whitespace true s'
      else c :: collapse_whitespace false s'
  end.

(** The text behind the first end-of-comment mark, provided no line
    terminator comes before it. *)
Fixpoint comment_end (t : list Z) : option (list Z) :=
  match starts_with (js "-->") t with
  | Some behind => Some behind
  | None =>
      match t with
      | c :: t' => if dot c then comment_end t' else None
      | [] => None
      end
  end.

(** A comment at the start of [s]: the text behind it. *)
Definition comment_at (s : list Z) : option (list Z) :=
  starts_with (js "<!--") s ≫= comment_end.

(** The text behind the next double quote. *)
Fixpoint quote_end (t : list Z) : option (list Z) :=
  match t with
  | [] => None
  | c :: t' => if c =? dq then Some t' else quote_end t'
  end.

(** An attribute [name=dq...dq] at the start of [s]: the text behind it. *)
Definition attribute_at (name : string) (s : list Z) : option (list Z) :=
  starts_with (js name ++ [61; dq]) s ≫= quote_end.

(** Strip every occurrence found by [at_start], scanning from the left. *)
Fixpoint strip_from (fuel : nat) (at_start : list Z -> option (list Z)) (s : list Z)
    : list Z :=
  match fuel with
  | O => s
  | S fuel' =>
      match at_start s with
      | Some behind => strip_from fuel' at_start behind
      | None =>
          match s with
          | [] => []
          | c :: s' => c :: strip_from fuel' at_start s'
          end
      end
  end.

Definition strip (at_start : list Z -> option (list Z)) (s : list Z) : list Z :=
  strip_from (S (length s)) at_start s.

(** Normalize: collapse white space, strip comments, strip the [style],
    [class] and [id] attributes. *)
Definition normalize (html : list Z) : list Z :=
  strip (attribute_at "id")
    (strip (attribute_at "class")
      (strip (attribute_at "style")
        (strip comment_at
          (collapse_whitespace false html)))).

(** Wrap to the signed 32-bit range. *)
Definition wrap32 (z : Z) : Z := (z + 2147483648) mod 4294967296 - 2147483648.

(** The rolling polynomial hash: times 31, plus the code unit, wrapped at
    every step, from 0. *)
Definition rolling_hash (s : list Z) : Z :=
  fold_left (fun h c => wrap32 (h * 31 + c)) s 0.

(** The value of a base-36 numeral: an optional minus sign, then digits
    [0-9a-z], most significant first. *)
Definition digit_value (c : Z) : Z := if c <? 58 then c - 48 else c - 87.

Definition numeral_value (s : list Z) : Z :=
  match s with
  | 45 :: ds => - fold_left (fun v c => v * 36 + digit_value c) ds 0
  | _ => fold_left (fun v c => v * 36 + digit_value c) s 0
  end.

Definition is_digit36 (c : Z) : bool :=
  ((48 <=? c) && (c <=? 57)) || ((97 <=? c) && (c <=? 122)).

End FingerprintSpec.

Module FingerprintFacts.

Import RegexFacts FingerprintSpec.

(** ** White space *)

Fixpoint skip_spaces (s : list Z) : list Z :=
  match s with
  | c :: s' => if is_space c then skip_spaces s' else s
  | [] => []
  end.

Lemma skip_spaces_length s : (length (skip_spaces s) <= length s)%nat.
Proof.
  induction s as [|c s IH]; [reflexivity|]. cbn.
  destruct (is_space c); simpl; lia.
Qed.

Lemma greedy_spaces s :
  snd <$> greedy_star is_space (exec_at []) s = Some (skip_spaces s).
Proof.
  induction s as [|c s IH]; [reflexivity|]. cbn [greedy_star skip_spaces].
  destruct (is_space c); [|reflexivity].
  destruct (greedy_star is_space (exec_at []) s) as [r|]; [|discriminate].
  cbn [fmap option_fmap option_map] in IH |- *. rewrite snd_extend. exact IH.
Qed.

Lemma rest_spaceRegex s :
  rest spaceRegex s
  = match s with
    | c :: s' => if is_space c then Some (skip_spaces s') else None
    | [] => None
    end.
Proof.
  unfold rest, spaceRegex. destruct s as [|c s]; [reflexivity|].
  change (exec_at [Atom is_space Plus] (c :: s))
    with (if is_space c then extend c <$> greedy_star is_space (exec_at []) s
          else None).
  destruct (is_space c); [|reflexivity].
  pose proof (greedy_spaces s) as H.
  destruct (greedy_star is_space (exec_at []) s) as [r|]; [|discriminate].
  cbn [fmap option_fmap option_map] in H |- *. rewrite snd_extend. exact H.
Qed.

Lemma collapse_in_run s :
  collapse_whitespace true s = collapse_whitespace false (skip_spaces s).
Proof.
  induction s as [|c s IH]; [reflexivity|]. cbn [collapse_whitespace skip_spaces].
  destruct (is_space c) eqn:E; [exact IH|]. cbn [collapse_whitespace]. rewrite E. reflexivity.
Qed.

Lemma replace_spaces_is_collapse s :
  replace_all spaceRegex (js " ") s = collapse_whitespace false s.
Proof.
  remember (length s) as n eqn:Hn. revert s Hn.
  induction n as [n IH] using lt_wf_ind. intros s Hn.
  rewrite replace_all_consuming by apply consuming_plus.
  rewrite rest_spaceRegex. destruct s as [|c s]; [reflexivity|].
  cbn [collapse_whitespace]. destruct (is_space c).
  - rewrite collapse_in_run. change (js " ") with [32]. cbn [app]. f_equal.
    apply (IH (length (skip_spaces s))); [|reflexivity].
    pose proof (skip_spaces_length s). subst n. simpl. lia.
  - f_equal. apply (IH (length s)); [subst n; simpl; lia|reflexivity].
Qed.

(** ** Stripping *)

Definition shrinking (at_start : list Z -> option (list Z)) : Prop :=
  forall s behind, at_start s = Some behind -> (length behind < length s)%nat.

Lemma strip_from_enough at_start fuel :
  shrinking at_start ->
  forall s fuel', (length s < fuel)%nat -> (length s < fuel')%nat ->
  strip_from fuel at_start s = strip_from fuel' at_start s.
Proof.
  intros Hs. induction fuel as [|fuel IH]; intros s fuel' H H'; [lia|].
  destruct fuel' as [|fuel']; [lia|]. cbn [strip_from].
  destruct (at_start s) as [behind|] eqn:E.
  - apply Hs in E. apply IH; lia.
  - destruct s as [|c s]; [reflexivity|]. f_equal. apply IH; simpl in *; lia.
Qed.

Lemma strip_unfold at_start s :
  shrinking at_start ->
  strip at_start s
  = match at_start s with
    | Some behind => strip at_start behind
    | None => match s with [] => [] | c :: s' => c :: strip at_start s' end
    end.
Proof.
  intros Hs. unfold strip at 1. cbn [strip_from].
  destruct (at_start s) as [behind|] eqn:E.
  - apply Hs in E. apply strip_from_enough; [exact Hs|lia|lia].
  - destruct s as [|c s]; reflexivity.
Qed.

Lemma rest_shrinking re : consuming re -> shrinking (rest re).
Proof.
  intros Hc s behind H. unfold rest in H.
  destruct (exec_at re s) as [r|] eqn:E; [|discriminate]. injection H as <-.
  apply (exec_at_shorter re s r E). apply (Hc s r E).
Qed.

(** Replacing the matches of a pattern by nothing is stripping what its
    direct reading finds. *)
Lemma replace_is_strip re at_start :
  consuming re -> (forall s, rest re s = at_start s) ->
  forall s, replace_all re [] s = strip at_start s.
Proof.
  intros Hc Hrest s.
  assert (Hs : shrinking at_start).
  { intros s0 behind H. rewrite <- Hrest in H. revert H. apply rest_shrinking, Hc. }
  remember (length s) as n eqn:Hn. revert s Hn.
  induction n as [n IH] using lt_wf_ind. intros s Hn.
  rewrite replace_all_consuming by exact Hc. rewrite strip_unfold by exact Hs.
  rewrite Hrest. destruct (at_start s) as [behind|] eqn:E.
  - cbn [app]. apply (IH (length behind)); [|reflexivity]. apply Hs in E. lia.
  - destruct s as [|c s]; [reflexivity|]. f_equal.
    apply (IH (length s)); [subst n; simpl; lia|reflexivity].
Qed.

(** ** Comments *)

Lemma lazy_comment_end t :
  snd <$> lazy_star dot (exec_at (lits "-->")) t = comment_end t.
Proof.
  induction t as [|c t IH].
  - reflexivity.
  - cbn [lazy_star comment_end].
    pose proof (rest_literal (js "-->") [] (c :: t)) as Hk.
    unfold rest in Hk. rewrite app_nil_r in Hk. fold (lits "-->") in Hk.
    destruct (starts_with (js "-->") (c :: t)) as [behind|] eqn:Es.
    + destruct (exec_at (lits "-->") (c :: t)) as [r|]; [|discriminate].
      cbn in Hk |- *. congruence.
    + destruct (exec_at (lits "-->") (c :: t)) as [r|]; [discriminate|].
      destruct (dot c); [|reflexivity].
      destruct (lazy_star dot (exec_at (lits "-->")) t) as [r|];
        cbn [fmap option_fmap option_map] in IH |- *; [|exact IH].
      rewrite snd_extend. exact IH.
Qed.

Lemma rest_commentRegex s : rest commentRegex s = comment_at s.
Proof.
  unfold commentRegex, comment_at, lits at 1. rewrite rest_literal.
  destruct (starts_with (js "<!--") s) as [t|]; [|reflexivity]. cbn [mbind option_bind].
  unfold rest. cbn [app exec_at quant accepts]. apply lazy_comment_end.
Qed.

Lemma consuming_commentRegex : consuming commentRegex.
Proof. apply consuming_one. Qed.

(** ** Attributes *)

Lemma greedy_quote_end t :
  snd <$> greedy_star not_quote (exec_at [lit dq]) t = quote_end t.
Proof.
  induction t as [|c t IH]; [reflexivity|].
  cbn [greedy_star quote_end]. unfold not_quote at 1.
  destruct (c =? dq) eqn:E; cbn [negb].
  - cbn [exec_at lit quant accepts]. rewrite Z.eqb_sym, E. reflexivity.
  - destruct (greedy_star not_quote (exec_at [lit dq]) t) as [r|];
      cbn [fmap option_fmap option_map] in IH |- *.
    + rewrite snd_extend. exact IH.
    + cbn [exec_at lit quant accepts]. rewrite Z.eqb_sym, E. exact IH.
Qed.

Lemma attrRegex_eq name :
  attrRegex name = map lit (js name ++ [61; dq]) ++ [Atom not_quote Star; lit dq].
Proof. unfold attrRegex, lits. rewrite map_app, <- app_assoc. reflexivity. Qed.

Lemma rest_attrRegex name s : rest (attrRegex name) s = attribute_at name s.
Proof.
  rewrite attrRegex_eq, rest_literal. unfold attribute_at.
  destruct (starts_with _ s) as [t|]; [|reflexivity]. cbn [mbind option_bind].
  unfold rest. cbn [exec_at quant accepts]. apply greedy_quote_end.
Qed.

Lemma consuming_attrRegex name : consuming (attrRegex name).
Proof.
  rewrite attrRegex_eq. destruct (js name) as [|c n]; apply consuming_one.
Qed.

(** The simplification of the source is the normalization of the
    specification. *)
Lemma simplify_is_normalize html : simplify html = normalize html.
Proof.
  unfold simplify, normalize, idRegex, classRegex, styleRegex.
  rewrite replace_spaces_is_collapse.
  rewrite (replace_is_strip commentRegex comment_at consuming_commentRegex rest_commentRegex).
  rewrite (replace_is_strip (attrRegex "style") (attribute_at "style")
             (consuming_attrRegex _) (rest_attrRegex _)).
  rewrite (replace_is_strip (attrRegex "class") (attribute_at "class")
             (consuming_attrRegex _) (rest_attrRegex _)).
  rewrite (replace_is_strip (attrRegex "id") (attribute_at "id")
             (consuming_attrRegex _) (rest_attrRegex _)).
  reflexivity.
Qed.

(** ** The hash step *)

Lemma to_int32_is_wrap32 z : to_int32 z = wrap32 z.
Proof. reflexivity. Qed.

Lemma wrap32_congruent a b :
  (a - b) mod 4294967296 = 0 -> wrap32 a = wrap32 b.
Proof.
  unfold wrap32. intros H.
  assert ((a + 2147483648) mod 4294967296 = (b + 2147483648) mod 4294967296);
    [|lia].
  revert H. Z.div_mod_to_equations. lia.
Qed.

Lemma wrap32_difference z : (wrap32 z - z) mod 4294967296 = 0.
Proof. unfold wrap32. Z.div_mod_to_equations. lia. Qed.

(** Shift-and-subtract is multiplication by 31, whatever the running hash:
    the intermediate value of [(hash << 5) - hash + char] is wrapped by
    [hash & hash]. *)
Lemma hash_step_is_times_31 h c : hash_step h c = wrap32 (h * 31 + c).
Proof.
  unfold hash_step, and32, shl32. cbv zeta. rewrite Z.land_diag.
  rewrite Z.shiftl_mul_pow2 by lia. change to_int32 with wrap32.
  apply wrap32_congruent.
  pose proof (wrap32_difference h) as H1.
  pose proof (wrap32_difference (wrap32 h * 2 ^ 5)) as H2.
  change (2 ^ 5) with 32 in *.
  revert H1 H2. generalize (wrap32 (wrap32 h * 32)). generalize (wrap32 h).
  intros a b H1 H2.
  apply Z.mod_divide in H1; [|lia]. apply Z.mod_divide in H2; [|lia].
  destruct H1 as [k1 H1]. destruct H2 as [k2 H2].
  apply Z.mod_divide; [lia|]. exists (k2 + 32 * k1). lia.
Qed.

Lemma hash_loop_is_rolling_hash s : hash_loop s = rolling_hash s.
Proof.
  unfold hash_loop, rolling_hash. generalize 0.
  induction s as [|c s IH]; intros h; [reflexivity|].
  cbn [fold_left]. rewrite hash_step_is_times_31. apply IH.
Qed.

(** The hash is a signed 32-bit integer after every step. *)
Lemma wrap32_range z : - 2147483648 <= wrap32 z < 2147483648.
Proof. unfold wrap32. Z.div_mod_to_equations. lia. Qed.

(** Before the wrap, the value of [(hash << 5) - hash + char] is an integer
    that a double holds exactly. *)
Lemma hash_step_exact h c :
  - 2147483648 <= h < 2147483648 -> 0 <= c < 65536 ->
  - 2 ^ 53 < shl32 h 5 - h + c < 2 ^ 53.
Proof.
  intros Hh Hc. unfold shl32. change to_int32 with wrap32.
  pose proof (wrap32_range (Z.shiftl (wrap32 h) 5)). lia.
Qed.

(** ** The numeral *)

Definition value36 (ds : list Z) : Z :=
  fold_left (fun v c => v * 36 + digit_value c) ds 0.

Lemma value36_snoc ds d : value36 (ds ++ [d]) = value36 ds * 36 + digit_value d.
Proof. unfold value36. rewrite fold_left_app. reflexivity. Qed.

Lemma digit_value_char d : 0 <= d < 36 -> digit_value (digit_char d) = d.
Proof.
  intros H. unfold digit_value, digit_char.
  destruct (d <? 10) eqn:E.
  - apply Z.ltb_lt in E. replace (48 + d <? 58) with true by (symmetry; apply Z.ltb_lt; lia). lia.
  - apply Z.ltb_ge in E. replace (97 + (d - 10) <? 58) with false by (symmetry; apply Z.ltb_ge; lia). lia.
Qed.

Lemma digit_char_is_digit36 d : 0 <= d < 36 -> is_digit36 (digit_char d) = true.
Proof.
  intros H. unfold is_digit36, digit_char.
  destruct (d <? 10) eqn:E.
  - apply Z.ltb_lt in E. apply orb_true_iff. left. apply andb_true_iff.
    split; [apply Z.leb_le|apply Z.leb_le]; lia.
  - apply Z.ltb_ge in E. apply orb_true_iff. right. apply andb_true_iff.
    split; [apply Z.leb_le|apply Z.leb_le]; lia.
Qed.

Lemma digits_value fuel : forall n,
  0 <= n < 2 ^ (Z.of_nat fuel + 1) ->
  value36 (digits 36 fuel n) = n
  /\ Forall (fun c => is_digit36 c = true) (digits 36 fuel n)
  /\ digits 36 fuel n <> [].
Proof.
  induction fuel as [|fuel IH]; intros n Hn.
  - cbn [digits]. change (2 ^ (Z.of_nat 0 + 1)) with 2 in Hn.
    split; [|split].
    + unfold value36. cbn. rewrite digit_value_char; lia.
    + constructor; [|constructor]. apply digit_char_is_digit36. lia.
    + discriminate.
  - cbn [digits]. destruct (n <? 36) eqn:E.
    + apply Z.ltb_lt in E. split; [|split].
      * unfold value36. cbn. rewrite digit_value_char; lia.
      * constructor; [|constructor]. apply digit_char_is_digit36. lia.
      * discriminate.
    + apply Z.ltb_ge in E.
      assert (Hdiv : 0 <= n / 36 < 2 ^ (Z.of_nat fuel + 1)).
      { replace (Z.of_nat (S fuel) + 1) with (Z.succ (Z.of_nat fuel + 1)) in Hn by lia.
        rewrite Z.pow_succ_r in Hn by lia.
        split; [apply Z.div_pos; lia|].
        apply Z.div_lt_upper_bound; lia. }
      destruct (IH (n / 36) Hdiv) as (Hv & Hd & Hne).
      assert (Hmod : 0 <= n mod 36 < 36) by (apply Z.mod_pos_bound; lia).
      split; [|split].
      * rewrite value36_snoc, Hv, digit_value_char by exact Hmod.
        pose proof (Z.div_mod n 36). lia.
      * apply Forall_app. split; [exact Hd|].
        constructor; [|constructor]. apply digit_char_is_digit36, Hmod.
      * destruct (digits 36 fuel (n / 36)); discriminate.
Qed.

Lemma log2_fuel n : 0 <= n -> 0 <= n < 2 ^ (Z.of_nat (Z.to_nat (Z.log2 n)) + 1).
Proof.
  intros H. rewrite Z2Nat.id by apply Z.log2_nonneg.
  destruct (Z.eq_dec n 0) as [->|Hn0]; [cbn; lia|].
  pose proof (Z.log2_spec n ltac:(lia)) as Hs.
  replace (Z.log2 n + 1) with (Z.succ (Z.log2 n)) by lia. lia.
Qed.

(** [toString(36)] writes a numeral of the value: an optional minus sign
    and digits [0-9a-z]. *)
Lemma toString36_value n : numeral_value (toString 36 n) = n.
Proof.
  unfold toString. destruct (n <? 0) eqn:E.
  - apply Z.ltb_lt in E. cbn [numeral_value].
    destruct (digits_value _ (- n) (log2_fuel (- n) ltac:(lia))) as (Hv & _ & _).
    unfold value36 in Hv. rewrite Hv. lia.
  - apply Z.ltb_ge in E.
    destruct (digits_value _ n (log2_fuel n E)) as (Hv & Hd & Hne).
    destruct (digits 36 _ n) as [|c ds] eqn:Ed; [contradiction|].
    apply Forall_inv in Hd.
    assert (Hc : c <> 45) by (intros ->; discriminate Hd).
    unfold numeral_value.
    destruct c as [|p|p]; try exact Hv.
    do 6 (destruct p as [p|p|]; try exact Hv). contradiction.
Qed.

Lemma toString36_digits n :
  exists ds, ds <> [] /\ Forall (fun c => is_digit36 c = true) ds
             /\ toString 36 n = (if n <? 0 then 45 :: ds else ds).
Proof.
  unfold toString. destruct (n <? 0) eqn:E.
  - apply Z.ltb_lt in E.
    destruct (digits_value _ (- n) (log2_fuel (- n) ltac:(lia))) as (_ & Hd & Hne).
    eexists. split; [exact Hne|]. split; [exact Hd|reflexivity].
  - apply Z.ltb_ge in E.
    destruct (digits_value _ n (log2_fuel n E)) as (_ & Hd & Hne).
    eexists. split; [exact Hne|]. split; [exact Hd|reflexivity].
Qed.

(** C5.  The structural fingerprint of a markup string is the base-36
    numeral of the rolling hash of the normalized string: the normalization
    collapses every run of white space to one space, then strips the
    comments, then the [style], [class] and [id] attributes; the hash starts
    from 0 and at every code unit multiplies by 31 (the shift-and-subtract
    of the source), adds the code unit and wraps to signed 32 bits; the
    result is written as an optional minus sign and digits [0-9a-z] whose
    value in base 36 is the hash. *)
Theorem structural_hash_is_rolling_hash_base36 :
  (forall html,
      generateStructuralHash html = toString 36 (rolling_hash (normalize html)))
  /\ (forall html, simplify html = normalize html)
  /\ (forall h c, hash_step h c = wrap32 (h * 31 + c))
  /\ (forall s, hash_loop s = rolling_hash s
                /\ - 2147483648 <= rolling_hash s < 2147483648)
  /\ (forall n,
        numeral_value (toString 36 n) = n
        /\ exists ds, ds <> [] /\ Forall (fun c => is_digit36 c = true) ds
                      /\ toString 36 n = (if n <? 0 then 45 :: ds else ds)).
Proof.
  split; [|split; [|split; [|split]]].
  - intros html. unfold generateStructuralHash, simpleHash.
    rewrite simplify_is_normalize, hash_loop_is_rolling_hash. reflexivity.
  - apply simplify_is_normalize.
  - apply hash_step_is_times_31.
  - intros s. split; [apply hash_loop_is_rolling_hash|].
    unfold rolling_hash. destruct s as [|c s] using rev_ind; [cbn; lia|].
    rewrite fold_left_app. cbn [fold_left]. apply wrap32_range.
  - intros n. split; [apply toString36_value|apply toString36_digits].
Qed.

End FingerprintFacts.

(* ===================================================================== *)
(** * The tag counts ([extractTagCounts]) *)
(* ===================================================================== *)

Module TagCountFacts.

Import RegexFacts.

(** ** A direct reading of the tag pattern *)

(** The longest prefix of [s] whose code units satisfy [p], and what
    follows it. *)
Fixpoint run (p : Z -> bool) (s : list Z) : list Z :=
  match s with
  | c :: s' => if p c then c :: run p s' else []
  | [] => []
  end.

Fixpoint behind (p : Z -> bool) (s : list Z) : list Z :=
  match s with
  | c :: s' => if p c then behind p s' else s
  | [] => []
  end.

(** The end of a tag: everything up to the first closing angle bracket,
    and the bracket. *)
Definition to_gt (s : list Z) : option match_result :=
  match behind not_gt s with
  | _ :: rest => Some ([run not_gt s; [62]], rest)
  | [] => None
  end.

(** A tag at the start of [s]: an opening angle bracket, the longest run
    of name characters, which is not empty, everything up to the first
    closing angle bracket, and the bracket. *)
Definition tag_at (s : list Z) : option match_result :=
  match s with
  | c :: s1 =>
      if 60 =? c then
        match run is_tag_char s1 with
        | [] => None
        | name =>
            match behind not_gt (behind is_tag_char s1) with
            | _ :: rest =>
                Some ([[c]; name; run not_gt (behind is_tag_char s1); [62]], rest)
            | [] => None
            end
        end
      else None
  | [] => None
  end.

(** The lower-cased name of a match. *)
Definition tag_name (m : list (list Z)) : list Z := toLowerCase (group1 m).

(** The number of matches named [key]. *)
Definition tally (key : list Z) (ms : list (list (list Z))) : nat :=
  length (List.filter (fun m => bool_decide (tag_name m = key)) ms).

(** [[a-z0-9\-]]: the code units of a lower-cased name. *)
Definition is_key_char (c : Z) : bool :=
  ((97 <=? c) && (c <=? 122)) || ((48 <=? c) && (c <=? 57)) || (c =? 45).

(** An opening angle bracket directly followed by a name character. *)
Definition starts_tag (s : list Z) : bool :=
  match s with
  | c :: d :: _ => (60 =? c) && is_tag_char d
  | _ => false
  end.

Fixpoint has_tag_start (s : list Z) : bool :=
  match s with
  | [] => false
  | _ :: s' => starts_tag s || has_tag_start s'
  end.

(** A piece of markup that is empty or ends with a closing angle
    bracket. *)
Fixpoint closed (s : list Z) : bool :=
  match s with
  | [] => true
  | c :: s' =>
      match s' with
      | [] => 62 =? c
      | _ :: _ => closed s'
      end
  end.

(** [(v || 0) + 1] on the value read at [key]: [None] is a key that is
    not an own property. *)
Definition next_count (key : list Z) (v : option count) : count :=
  match v with
  | Some (Num n) => if n =? 0 then Num 1 else Num (n + 1)
  | Some (Text k) => Text (S k)
  | None => if inherited key then Text 1 else Num 1
  end.

Lemma run_behind p s : run p s ++ behind p s = s.
Proof.
  induction s as [|c s IH]; [reflexivity|]. cbn. destruct (p c); [|reflexivity].
  cbn. f_equal. exact IH.
Qed.

Lemma run_all p s : Forall (fun c => p c = true) (run p s).
Proof.
  induction s as [|c s IH]; cbn; [constructor|].
  destruct (p c) eqn:E; constructor; assumption.
Qed.

Lemma greedy_star_ext p k k' :
  (forall s, k s = k' s) -> forall s, greedy_star p k s = greedy_star p k' s.
Proof.
  intros H s. induction s as [|c s IH]; cbn [greedy_star]; rewrite ?IH, H; reflexivity.
Qed.

Lemma not_gt_false c : not_gt c = false -> c = 62.
Proof. unfold not_gt. destruct (c =? 62) eqn:E; [intros _; apply Z.eqb_eq, E|discriminate]. Qed.

Lemma not_gt_true c : not_gt c = true -> (62 =? c) = false.
Proof.
  unfold not_gt. rewrite (Z.eqb_sym 62 c). destruct (c =? 62); [discriminate|reflexivity].
Qed.

Lemma is_tag_char_not_gt c : is_tag_char c = true -> not_gt c = true.
Proof.
  intros H. destruct (not_gt c) eqn:E; [reflexivity|].
  apply not_gt_false in E. subst c. discriminate H.
Qed.

Lemma greedy_not_gt s : greedy_star not_gt (exec_at [lit 62]) s = to_gt s.
Proof.
  induction s as [|c s IH]; [reflexivity|].
  cbn [greedy_star]. unfold to_gt. cbn [behind run].
  destruct (not_gt c) eqn:E.
  - rewrite IH. unfold to_gt. destruct (behind not_gt s) as [|d rest].
    + cbn [exec_at lit quant accepts]. rewrite (not_gt_true c E). reflexivity.
    + reflexivity.
  - apply not_gt_false in E. subst c. reflexivity.
Qed.

Lemma to_gt_cons_None c s : not_gt c = true -> to_gt s = None -> to_gt (c :: s) = None.
Proof.
  unfold to_gt. cbn [behind run]. intros -> H.
  destruct (behind not_gt s); [reflexivity|discriminate].
Qed.

Lemma greedy_name s :
  greedy_star is_tag_char to_gt s
  = with_text (run is_tag_char s) <$> to_gt (behind is_tag_char s)
  /\ (to_gt (behind is_tag_char s) = None -> to_gt s = None).
Proof.
  induction s as [|c s [IH1 IH2]]; [split; [reflexivity|auto]|].
  cbn [greedy_star run behind]. destruct (is_tag_char c) eqn:E.
  - rewrite IH1. destruct (to_gt (behind is_tag_char s)) as [r|] eqn:Er.
    + split; [|discriminate]. cbn. destruct r as [ms rest]. reflexivity.
    + assert (to_gt (c :: s) = None)
        by (apply to_gt_cons_None; [apply is_tag_char_not_gt, E|apply IH2; reflexivity]).
      split; [|intros _; assumption]. cbn. rewrite H. reflexivity.
  - split; [reflexivity|auto].
Qed.

(** The tag pattern, as the matcher runs it, finds exactly the tags that
    [tag_at] reads. *)
Lemma exec_at_tagRegex s : exec_at tagRegex s = tag_at s.
Proof.
  destruct s as [|c s1]; [reflexivity|].
  unfold tagRegex, tag_at. cbn [exec_at lit quant accepts].
  destruct (60 =? c); [|reflexivity].
  destruct s1 as [|d s2]; [reflexivity|].
  cbn [run behind]. destruct (is_tag_char d) eqn:E; [|reflexivity].
  rewrite (greedy_star_ext is_tag_char _ to_gt) by (intros s; apply greedy_not_gt).
  rewrite (proj1 (greedy_name s2)). unfold to_gt.
  destruct (behind not_gt (behind is_tag_char s2)) as [|e rest]; reflexivity.
Qed.

(** ** What the counting loop leaves in the object *)

Lemma incremented_next o key : incremented o key = next_count key (own o key).
Proof. reflexivity. Qed.

Lemma own_assign o k v key :
  own (assign o k v) key = if decide (k = key) then Some v else own o key.
Proof.
  induction o as [|[k' w] o IH]; cbn [assign own].
  - reflexivity.
  - destruct (decide (k' = k)) as [->|Hne]; cbn [own].
    + destruct (decide (k = key)); reflexivity.
    + destruct (decide (k' = key)) as [->|Hne'].
      * destruct (decide (k = key)); [congruence|reflexivity].
      * exact IH.
Qed.

Lemma own_count_tag o m key :
  own (count_tag o m) key
  = if bool_decide (tag_name m = key) then Some (next_count key (own o key))
    else own o key.
Proof.
  unfold count_tag. cbv zeta. fold (tag_name m). rewrite own_assign.
  destruct (decide (tag_name m = key)) as [E|E].
  - rewrite bool_decide_eq_true_2 by exact E. rewrite incremented_next, E. reflexivity.
  - rewrite bool_decide_eq_false_2 by exact E. reflexivity.
Qed.

Lemma own_fold_count_tag ms : forall o key,
  own (fold_left count_tag ms o) key
  = Nat.iter (tally key ms) (fun v => Some (next_count key v)) (own o key).
Proof.
  induction ms as [|m ms IH]; intros o key; [reflexivity|].
  cbn [fold_left]. rewrite IH, own_count_tag. unfold tally. cbn [List.filter].
  destruct (bool_decide (tag_name m = key)); [|reflexivity].
  cbn [length]. rewrite Nat.iter_succ_r. reflexivity.
Qed.

Lemma iter_next_from_none key n :
  Nat.iter n (fun v => Some (next_count key v)) None
  = match n with
    | O => None
    | S _ => Some (if inherited key then Text n else Num (Z.of_nat n))
    end.
Proof.
  induction n as [|n IH]; [reflexivity|].
  rewrite Nat.iter_succ, IH. destruct n as [|n].
  - cbn. destruct (inherited key); reflexivity.
  - cbn [next_count]. destruct (inherited key); [reflexivity|].
    replace (Z.of_nat (S n) =? 0) with false by (symmetry; apply Z.eqb_neq; lia).
    do 2 f_equal. lia.
Qed.

Lemma own_extractTagCounts html key :
  own (extractTagCounts html) key
  = match tally key (exec_all tagRegex html) with
    | O => None
    | S n => Some (if inherited key then Text (S n) else Num (Z.of_nat (S n)))
    end.
Proof.
  unfold extractTagCounts. rewrite own_fold_count_tag. cbn [own].
  rewrite iter_next_from_none. destruct (tally key (exec_all tagRegex html)); reflexivity.
Qed.

(** ** Where the matches come from *)

Lemma exec_all_from_In re fuel : forall s m,
  In m (exec_all_from fuel re s) ->
  exists P t rest, s = P ++ t /\ exec_at re t = Some (m, rest).
Proof.
  induction fuel as [|fuel IH]; intros s m H; [contradiction|].
  cbn [exec_all_from] in H. destruct (exec_at re s) as [r|] eqn:E.
  - destruct (matched r) eqn:Em; [contradiction|]. destruct H as [<-|H].
    + exists [], s, (snd r). split; [reflexivity|]. rewrite E. destruct r; reflexivity.
    + destruct (IH _ _ H) as (P & t & rest & Hs & Ht).
      exists (matched r ++ P), t, rest. split; [|exact Ht].
      rewrite (exec_at_sound re s r E), Hs, <- app_assoc. reflexivity.
  - destruct s as [|c s]; [contradiction|].
    destruct (IH _ _ H) as (P & t & rest & Hs & Ht).
    exists (c :: P), t, rest. split; [|exact Ht]. rewrite Hs. reflexivity.
Qed.

Lemma tally_positive key ms :
  tally key ms <> O -> exists m, In m ms /\ tag_name m = key.
Proof.
  unfold tally. induction ms as [|m ms IH]; cbn [List.filter]; [contradiction|].
  destruct (bool_decide (tag_name m = key)) eqn:E.
  - intros _. exists m. split; [left; reflexivity|].
    apply bool_decide_eq_true in E. exact E.
  - intros H. destruct (IH H) as (m' & Hin & Hm'). exists m'. split; [right|]; assumption.
Qed.

Lemma tag_at_Some t m rest :
  tag_at t = Some (m, rest) ->
  exists name attrs,
    t = 60 :: name ++ attrs ++ 62 :: rest
    /\ m = [[60]; name; attrs; [62]]
    /\ name <> []
    /\ name = run is_tag_char (name ++ attrs ++ 62 :: rest)
    /\ Forall (fun c => is_tag_char c = true) name
    /\ Forall (fun c => not_gt c = true) attrs.
Proof.
  unfold tag_at. destruct t as [|c s1]; [discriminate|].
  destruct (60 =? c) eqn:Ec; [|discriminate]. apply Z.eqb_eq in Ec. subst c.
  destruct (run is_tag_char s1) as [|n name] eqn:En; [discriminate|].
  destruct (behind not_gt (behind is_tag_char s1)) as [|e rest'] eqn:Eb; [discriminate|].
  intros H. injection H as <- <-.
  exists (n :: name), (run not_gt (behind is_tag_char s1)).
  pose proof (run_behind is_tag_char s1) as H1.
  pose proof (run_behind not_gt (behind is_tag_char s1)) as H2.
  assert (He : e = 62).
  { assert (Hh : not_gt e = false).
    { clear -Eb. revert Eb. generalize (behind is_tag_char s1). intros l.
      induction l as [|d l IH]; cbn; [discriminate|].
      destruct (not_gt d) eqn:Ed; [exact IH|]. intros H. injection H as -> _. exact Ed. }
    apply not_gt_false, Hh. }
  subst e. rewrite Eb in H2. rewrite En in H1.
  assert (Hs1 : s1 = (n :: name) ++ run not_gt (behind is_tag_char s1) ++ 62 :: rest').
  { rewrite H2. exact (eq_sym H1). }
  split; [rewrite Hs1 at 1; reflexivity|]. split; [reflexivity|].
  split; [discriminate|]. split; [rewrite <- Hs1; exact (eq_sym En)|].
  split; [rewrite <- En; apply run_all|apply run_all].
Qed.

Lemma lower_key_char c : is_tag_char c = true -> is_key_char (lower c) = true.
Proof.
  unfold lower.
  destruct (Z.leb_spec 65 c), (Z.leb_spec c 90); cbn [andb];
    unfold is_tag_char, is_key_char;
    repeat match goal with
           | |- context [?a <=? ?b] => destruct (Z.leb_spec a b)
           | |- context [?a =? ?b] => destruct (Z.eqb_spec a b)
           end; cbn; try reflexivity; try discriminate; lia.
Qed.

Lemma toLowerCase_key name :
  Forall (fun c => is_tag_char c = true) name ->
  Forall (fun c => is_key_char c = true) (toLowerCase name).
Proof.
  intros H. unfold toLowerCase. induction H as [|c name Hc _ IH]; cbn; constructor.
  - apply lower_key_char, Hc.
  - exact IH.
Qed.

(** ** Markup without a tag start *)

Lemma tag_at_starts s : starts_tag s = false -> tag_at s = None.
Proof.
  unfold starts_tag, tag_at. destruct s as [|c [|d s]]; try reflexivity.
  - destruct (60 =? c); reflexivity.
  - destruct (60 =? c); [|reflexivity]. cbn [andb run]. intros ->. reflexivity.
Qed.

Lemma exec_all_from_no_start fuel : forall s,
  has_tag_start s = false -> exec_all_from fuel tagRegex s = [].
Proof.
  induction fuel as [|fuel IH]; intros s H; [reflexivity|].
  cbn [exec_all_from]. rewrite exec_at_tagRegex.
  destruct s as [|c s]; [reflexivity|].
  cbn [has_tag_start] in H. apply orb_false_iff in H. destruct H as [H1 H2].
  rewrite (tag_at_starts _ H1). apply IH, H2.
Qed.

Lemma exec_all_no_start s : has_tag_start s = false -> exec_all tagRegex s = [].
Proof. apply exec_all_from_no_start. Qed.

(** ** Pieces that end with a closing angle bracket *)

Lemma closed_tail c s : closed (c :: s) = true -> closed s = true.
Proof. destruct s; [reflexivity|]. cbn. auto. Qed.

Section Closed.

Variable p : Z -> bool.
Hypothesis p_gt : p 62 = false.

Lemma closed_run_behind s B :
  s <> [] -> closed s = true ->
  run p (s ++ B) = run p s
  /\ behind p (s ++ B) = behind p s ++ B
  /\ behind p s <> []
  /\ closed (behind p s) = true.
Proof.
  induction s as [|c s IH]; [contradiction|]. intros _ Hc.
  destruct s as [|d s].
  - cbn [closed] in Hc. apply Z.eqb_eq in Hc. subst c. cbn [app run behind].
    rewrite p_gt. repeat split; discriminate.
  - change ((c :: d :: s) ++ B) with (c :: ((d :: s) ++ B)).
    cbn [run behind]. destruct (p c).
    + destruct (IH ltac:(discriminate) (closed_tail _ _ Hc)) as (H1 & H2 & H3 & H4).
      rewrite H1. repeat split; assumption.
    + repeat split; [discriminate|exact Hc].
Qed.

End Closed.

Lemma tag_at_app A B :
  A <> [] -> closed A = true ->
  tag_at (A ++ B)
  = match tag_at A with
    | Some r => Some (fst r, snd r ++ B)
    | None => None
    end
  /\ (forall r, tag_at A = Some r -> closed (snd r) = true).
Proof.
  destruct A as [|c s1]; [contradiction|]. intros _ Hc.
  change ((c :: s1) ++ B) with (c :: (s1 ++ B)). unfold tag_at.
  destruct (60 =? c) eqn:Ec; [|split; [reflexivity|discriminate]].
  apply Z.eqb_eq in Ec. subst c.
  destruct s1 as [|d s2]; [discriminate Hc|].
  destruct (closed_run_behind is_tag_char eq_refl (d :: s2) B ltac:(discriminate)
              (closed_tail _ _ Hc)) as (H1 & H2 & H3 & H4).
  destruct (closed_run_behind not_gt eq_refl (behind is_tag_char (d :: s2)) B H3 H4)
    as (G1 & G2 & G3 & G4).
  rewrite H1, H2, G1, G2.
  destruct (run is_tag_char (d :: s2)) as [|n name]; [split; [reflexivity|discriminate]|].
  destruct (behind not_gt (behind is_tag_char (d :: s2))) as [|e rest]; [contradiction|].
  split; [reflexivity|]. intros r Hr. injection Hr as <-. cbn [snd].
  apply (closed_tail e), G4.
Qed.

Lemma consuming_tagRegex : consuming tagRegex.
Proof. apply consuming_one. Qed.

Lemma exec_all_app_closed B n : forall A,
  (length A <= n)%nat -> closed A = true ->
  exec_all tagRegex (A ++ B) = exec_all tagRegex A ++ exec_all tagRegex B.
Proof.
  induction n as [|n IH]; intros A Hn Hc.
  - destruct A; [reflexivity|simpl in Hn; lia].
  - destruct A as [|c A']; [reflexivity|].
    rewrite (exec_all_unfold tagRegex ((c :: A') ++ B)).
    rewrite (exec_all_unfold tagRegex (c :: A')).
    rewrite !exec_at_tagRegex.
    destruct (tag_at_app (c :: A') B ltac:(discriminate) Hc) as [Happ Hrest].
    rewrite Happ. destruct (tag_at (c :: A')) as [r|] eqn:E.
    + rewrite <- exec_at_tagRegex in E.
      pose proof (consuming_tagRegex _ _ E) as Hne.
      change (matched (fst r, snd r ++ B)) with (matched r).
      destruct (matched r) eqn:Em; [contradiction|].
      cbn [fst snd]. rewrite <- app_comm_cons. f_equal.
      apply IH; [|apply Hrest; reflexivity].
      assert (length (snd r) < length (c :: A'))%nat
        by (apply (exec_at_shorter tagRegex _ r E); rewrite Em; discriminate).
      lia.
    + change ((c :: A') ++ B) with (c :: (A' ++ B)).
      apply IH; [simpl in Hn; lia|apply (closed_tail c), Hc].
Qed.

Lemma tally_app key ms ms' : tally key (ms ++ ms') = (tally key ms + tally key ms')%nat.
Proof. unfold tally. rewrite List.filter_app, length_app. reflexivity. Qed.

Lemma run_behind_all p l x t :
  Forall (fun c => p c = true) l -> p x = false ->
  run p (l ++ x :: t) = l /\ behind p (l ++ x :: t) = x :: t.
Proof.
  intros Hl Hx. induction Hl as [|c l Hc _ [IH1 IH2]]; cbn [app run behind].
  - rewrite Hx. split; reflexivity.
  - rewrite Hc, IH1, IH2. split; reflexivity.
Qed.

Lemma behind_In p s : p 62 = false -> In 62 s -> In 62 (behind p s).
Proof.
  intros Hp. induction s as [|c s IH]; [contradiction|]. cbn [behind].
  intros [->|H]; [rewrite Hp; left; reflexivity|].
  destruct (p c); [apply IH, H|right; exact H].
Qed.

(** The count read at [key]: [tagCounts[key] || 0] for a numeric value. *)
Definition count_of (html key : list Z) : Z :=
  match own (extractTagCounts html) key with
  | Some (Num n) => n
  | _ => 0
  end.

(** What the tag pattern matches at a position: an opening angle bracket,
    the longest run of name characters [[a-zA-Z0-9\-]] behind it, which is
    not empty and is the first group, then everything up to the first
    closing angle bracket.  There is a match exactly when the bracket is
    directly followed by a name character and a closing bracket comes
    somewhere behind. *)
Theorem tag_pattern_finds_whole_tags s :
  (forall m rest,
      exec_at tagRegex s = Some (m, rest)
      <-> exists name attrs,
            s = 60 :: name ++ attrs ++ 62 :: rest
            /\ m = [[60]; name; attrs; [62]]
            /\ name <> []
            /\ run is_tag_char (name ++ attrs ++ 62 :: rest) = name
            /\ Forall (fun c => not_gt c = true) attrs)
  /\ (is_Some (exec_at tagRegex s) <-> starts_tag s = true /\ In 62 s).
Proof.
  assert (Hfwd : forall m rest, exec_at tagRegex s = Some (m, rest) ->
            exists name attrs,
              s = 60 :: name ++ attrs ++ 62 :: rest
              /\ m = [[60]; name; attrs; [62]]
              /\ name <> []
              /\ run is_tag_char (name ++ attrs ++ 62 :: rest) = name
              /\ Forall (fun c => not_gt c = true) attrs).
  { intros m rest H. rewrite exec_at_tagRegex in H.
    destruct (tag_at_Some _ _ _ H) as (name & attrs & H1 & H2 & H3 & H4 & _ & H6).
    exists name, attrs. repeat split; auto. }
  split.
  - intros m rest. split; [apply Hfwd|].
    intros (name & attrs & -> & -> & Hne & Hrun & Hattrs).
    rewrite exec_at_tagRegex. unfold tag_at. cbn [Z.eqb Pos.eqb].
    rewrite Hrun. destruct name as [|n name]; [contradiction|].
    pose proof (run_behind is_tag_char ((n :: name) ++ attrs ++ 62 :: rest)) as Hb.
    rewrite Hrun in Hb. apply app_inv_head in Hb. rewrite Hb.
    destruct (run_behind_all not_gt attrs 62 rest Hattrs eq_refl) as [-> ->].
    reflexivity.
  - split.
    + intros [[m rest] H]. destruct (Hfwd m rest H) as (name & attrs & -> & _ & Hne & Hrun & _).
      destruct name as [|n name]; [contradiction|]. split.
      * pose proof (run_all is_tag_char ((n :: name) ++ attrs ++ 62 :: rest)) as Hall.
        rewrite Hrun in Hall. apply Forall_inv in Hall. cbn. exact Hall.
      * right. apply in_or_app. right. apply in_or_app. right. left. reflexivity.
    + intros [Hstart Hin]. rewrite exec_at_tagRegex. unfold starts_tag in Hstart.
      destruct s as [|c [|d s2]]; try discriminate.
      apply andb_true_iff in Hstart. destruct Hstart as [Hc Hd].
      unfold tag_at. rewrite Hc. cbn [run behind]. rewrite Hd.
      apply Z.eqb_eq in Hc. subst c.
      destruct Hin as [Hin|Hin]; [discriminate|].
      assert (Hin' : In 62 (behind is_tag_char (d :: s2)))
        by (apply behind_In; [reflexivity|exact Hin]).
      cbn [behind] in Hin'. rewrite Hd in Hin'.
      apply (behind_In not_gt _ eq_refl) in Hin'.
      destruct (behind not_gt (behind is_tag_char s2)); [contradiction|]. eexists. reflexivity.
Qed.

(** Every key of the tag-count object is a lower-cased tag name: it is
    not empty, it is spelled in [[a-z0-9\-]], and the markup holds an
    opening angle bracket directly followed by a name that lower-cases to
    the key, ends there, and has a closing bracket behind it. *)
Theorem tag_count_keys_are_lowercase_names html key v :
  own (extractTagCounts html) key = Some v ->
  key <> []
  /\ Forall (fun c => is_key_char c = true) key
  /\ exists P name rest,
       html = P ++ 60 :: name ++ rest
       /\ key = toLowerCase name
       /\ run is_tag_char (name ++ rest) = name
       /\ In 62 rest.
Proof.
  intros H. rewrite own_extractTagCounts in H.
  destruct (tally_positive key (exec_all tagRegex html)) as (m & Hin & Hm).
  { destruct (tally key (exec_all tagRegex html)); [discriminate|auto]. }
  destruct (exec_all_from_In _ _ _ _ Hin) as (P & t & rest & Hs & Ht).
  rewrite exec_at_tagRegex in Ht.
  destruct (tag_at_Some _ _ _ Ht) as (name & attrs & -> & -> & Hne & Hrun & Hname & _).
  unfold tag_name, group1 in Hm. cbn [nth] in Hm. subst key.
  split; [|split].
  - destruct name; [contradiction|discriminate].
  - apply toLowerCase_key, Hname.
  - exists P, name, (attrs ++ 62 :: rest). split; [exact Hs|]. split; [reflexivity|].
    split; [symmetry; exact Hrun|]. apply in_or_app. right. left. reflexivity.
Qed.

Lemma tag_count_keys_are_lowercase_names_witness :
  own (extractTagCounts (js "<DIV id=x>")) (js "div") = Some (Num 1)
  /\ js "div" <> []
  /\ Forall (fun c => is_key_char c = true) (js "div")
  /\ exists P name rest,
       js "<DIV id=x>" = P ++ 60 :: name ++ rest
       /\ js "div" = toLowerCase name
       /\ run is_tag_char (name ++ rest) = name
       /\ In 62 rest.
Proof.
  split; [reflexivity|].
  apply (tag_count_keys_are_lowercase_names (js "<DIV id=x>") (js "div") (Num 1)).
  reflexivity.
Defined.

Lemma own_extractTagCounts_number html key :
  key <> js "constructor" ->
  own (extractTagCounts html) key
  = match tally key (exec_all tagRegex html) with
    | O => None
    | S n => Some (Num (Z.of_nat (S n)))
    end.
Proof.
  intros Hkey. rewrite own_extractTagCounts. unfold inherited.
  rewrite bool_decide_eq_false_2 by exact Hkey. reflexivity.
Qed.

(** For every key but [constructor] the value of the tag-count object is
    the number of tags whose lower-cased name is the key, so names that
    differ in letter case only are counted together; the key is missing
    when there is no such tag, and a value that is there is a number of at
    least 1. *)
Theorem tag_count_is_number_of_tags html key :
  key <> js "constructor" ->
  own (extractTagCounts html) key
  = match tally key (exec_all tagRegex html) with
    | O => None
    | S n => Some (Num (Z.of_nat (S n)))
    end
  /\ (forall v, own (extractTagCounts html) key = Some v ->
               exists n, v = Num n /\ 1 <= n).
Proof.
  intros Hkey. rewrite (own_extractTagCounts_number html key Hkey).
  split; [reflexivity|]. intros v Hv.
  destruct (tally key (exec_all tagRegex html)); [discriminate|].
  injection Hv as <-. eexists. split; [reflexivity|lia].
Qed.

Lemma tag_count_is_number_of_tags_witness :
  js "div" <> js "constructor"
  /\ own (extractTagCounts (js "<DIV><div></div><Div>")) (js "div") = Some (Num 3).
Proof.
  split; [discriminate|].
  exact (proj1 (tag_count_is_number_of_tags (js "<DIV><div></div><Div>") (js "div")
                  ltac:(discriminate))).
Defined.

(** A tag named [constructor], in any letter case, is never counted by a
    number: the key is read through to the member of [Object.prototype],
    and what is stored is that member's text followed by one character 1
    for every such tag.  [positive_count], the test [tagCounts[type] > 0],
    is false on it. *)
Theorem constructor_count_is_text html :
  own (extractTagCounts html) (js "constructor")
  = match tally (js "constructor") (exec_all tagRegex html) with
    | O => None
    | S n => Some (Text (S n))
    end
  /\ positive_count (extractTagCounts html) (js "constructor") = false.
Proof.
  assert (H : own (extractTagCounts html) (js "constructor")
              = match tally (js "constructor") (exec_all tagRegex html) with
                | O => None
                | S n => Some (Text (S n))
                end).
  { rewrite own_extractTagCounts. reflexivity. }
  split; [exact H|]. unfold positive_count. rewrite H.
  destruct (tally _ _); reflexivity.
Qed.

(** Markup in which no opening angle bracket is directly followed by a
    name character has no tags to count: closing tags, comments and
    doctype declarations on their own give the empty object. *)
Theorem markup_without_tag_start_has_no_counts html :
  has_tag_start html = false -> extractTagCounts html = [].
Proof.
  intros H. unfold extractTagCounts. rewrite (exec_all_no_start html H). reflexivity.
Qed.

Lemma markup_without_tag_start_has_no_counts_witness :
  has_tag_start (js "<!DOCTYPE html></p><!-- 1 < 2 --> a < b") = false
  /\ extractTagCounts (js "<!DOCTYPE html></p><!-- 1 < 2 --> a < b") = [].
Proof.
  split; [reflexivity|].
  apply (markup_without_tag_start_has_no_counts (js "<!DOCTYPE html></p><!-- 1 < 2 --> a < b")).
  reflexivity.
Defined.

(** A piece of markup that ends with a closing angle bracket and holds no
    opening bracket directly followed by a name character (a closing tag,
    a doctype declaration, a comment without tag text) changes nothing in
    the counts when it stands at the start or behind a closing bracket. *)
Theorem closed_piece_without_tag_start_adds_nothing A X B :
  closed A = true -> closed X = true -> has_tag_start X = false ->
  extractTagCounts (A ++ X ++ B) = extractTagCounts (A ++ B).
Proof.
  intros HA HX Hno. unfold extractTagCounts.
  rewrite (exec_all_app_closed (X ++ B) (length A) A (le_n _) HA).
  rewrite (exec_all_app_closed B (length X) X (le_n _) HX).
  rewrite (exec_all_no_start X Hno).
  rewrite (exec_all_app_closed B (length A) A (le_n _) HA). reflexivity.
Qed.

Lemma closed_piece_without_tag_start_adds_nothing_witness :
  closed (js "<ul><li>") = true
  /\ closed (js "</li><!-- end -->") = true
  /\ has_tag_start (js "</li><!-- end -->") = false
  /\ extractTagCounts (js "<ul><li>" ++ js "</li><!-- end -->" ++ js "<li>x</ul>")
     = extractTagCounts (js "<ul><li>" ++ js "<li>x</ul>").
Proof.
  split; [reflexivity|]. split; [reflexivity|]. split; [reflexivity|].
  apply (closed_piece_without_tag_start_adds_nothing
           (js "<ul><li>") (js "</li><!-- end -->") (js "<li>x</ul>")); reflexivity.
Defined.

(** The counts of a markup made of two pieces, the first ending with a
    closing angle bracket, are the sums of the counts of the pieces. *)
Theorem tag_counts_of_closed_pieces_add_up A B key :
  closed A = true -> key <> js "constructor" ->
  count_of (A ++ B) key = count_of A key + count_of B key.
Proof.
  intros HA Hkey. unfold count_of.
  rewrite !(own_extractTagCounts_number _ key Hkey).
  rewrite (exec_all_app_closed B (length A) A (le_n _) HA), tally_app.
  destruct (tally key (exec_all tagRegex A)), (tally key (exec_all tagRegex B));
    cbn [Nat.add]; lia.
Qed.

Lemma tag_counts_of_closed_pieces_add_up_witness :
  closed (js "<p><b>") = true
  /\ js "p" <> js "constructor"
  /\ count_of (js "<p><b>" ++ js "</b><P>") (js "p")
     = count_of (js "<p><b>") (js "p") + count_of (js "</b><P>") (js "p").
Proof.
  split; [reflexivity|]. split; [discriminate|].
  apply (tag_counts_of_closed_pieces_add_up (js "<p><b>") (js "</b><P>") (js "p"));
    [reflexivity|discriminate].
Defined.

End TagCountFacts.

(* ===================================================================== *)
(** * What the structural fingerprint ignores and what it keeps *)
(* ===================================================================== *)

Module FingerprintInvariance.

Import RegexFacts FingerprintSpec FingerprintFacts.

(** ** White space *)

(** Whether the code unit before the next one is white space, after
    reading [s] from a state [b]. *)
Fixpoint after_space (b : bool) (s : list Z) : bool :=
  match s with
  | [] => b
  | c :: s' => after_space (is_space c) s'
  end.

Lemma collapse_app b P t :
  collapse_whitespace b (P ++ t)
  = collapse_whitespace b P ++ collapse_whitespace (after_space b P) t.
Proof.
  revert b. induction P as [|c P IH]; intros b; [reflexivity|].
  cbn [app collapse_whitespace after_space].
  destruct (is_space c); [destruct b|]; rewrite IH; reflexivity.
Qed.

Lemma collapse_spaces_in_run w t :
  Forall (fun c => is_space c = true) w ->
  collapse_whitespace true (w ++ t) = collapse_whitespace true t.
Proof.
  intros Hw. induction Hw as [|c w Hc Hw IH]; [reflexivity|].
  cbn [app collapse_whitespace]. rewrite Hc. exact IH.
Qed.

Lemma collapse_spaces b w t :
  w <> [] -> Forall (fun c => is_space c = true) w ->
  collapse_whitespace b (w ++ t)
  = (if b then [] else [32]) ++ collapse_whitespace true t.
Proof.
  intros Hne Hw. destruct Hw as [|c w Hc Hw]; [contradiction|].
  cbn [app collapse_whitespace]. rewrite Hc, (collapse_spaces_in_run w t Hw).
  destruct b; reflexivity.
Qed.

(** White space that is already collapsed: every white-space code unit
    is a plain space and no two of them are adjacent.  [prev] tells that
    the previous code unit was white space. *)
Fixpoint single_spaced (prev : bool) (s : list Z) : bool :=
  match s with
  | [] => true
  | c :: s' =>
      if is_space c then (c =? 32) && negb prev && single_spaced true s'
      else single_spaced false s'
  end.

Lemma collapse_single_spaced s : forall b,
  single_spaced b s = true -> collapse_whitespace b s = s.
Proof.
  induction s as [|c s IH]; intros b H; [reflexivity|].
  cbn [single_spaced collapse_whitespace] in *. destruct (is_space c).
  - apply andb_true_iff in H. destruct H as [H H3].
    apply andb_true_iff in H. destruct H as [H1 H2].
    apply Z.eqb_eq in H1. subst c. destruct b; [discriminate|].
    f_equal. apply IH, H3.
  - f_equal. apply IH, H.
Qed.

(** ** Occurrences of a pattern text *)

Fixpoint occurs (pat s : list Z) : bool :=
  match starts_with pat s with
  | Some _ => true
  | None =>
      match s with
      | [] => false
      | _ :: s' => occurs pat s'
      end
  end.

Lemma occurs_cons pat c s :
  occurs pat (c :: s) = false ->
  starts_with pat (c :: s) = None /\ occurs pat s = false.
Proof.
  cbn [occurs]. destruct (starts_with pat (c :: s)); [discriminate|auto].
Qed.

Lemma shrinking_comment_at : shrinking comment_at.
Proof.
  intros s behind H. rewrite <- rest_commentRegex in H.
  revert H. apply rest_shrinking, consuming_commentRegex.
Qed.

Lemma shrinking_attribute_at name : shrinking (attribute_at name).
Proof.
  intros s behind H. rewrite <- rest_attrRegex in H.
  revert H. apply rest_shrinking, consuming_attrRegex.
Qed.

Lemma strip_no_occurrence pat at_start s :
  shrinking at_start ->
  (forall t, starts_with pat t = None -> at_start t = None) ->
  occurs pat s = false -> strip at_start s = s.
Proof.
  intros Hs Hat. induction s as [|c s IH]; intros H.
  - rewrite strip_unfold by exact Hs. rewrite Hat; [reflexivity|].
    cbn [occurs] in H. destruct (starts_with pat []); [discriminate|reflexivity].
  - apply occurs_cons in H. destruct H as [H1 H2].
    rewrite strip_unfold by exact Hs. rewrite (Hat _ H1). f_equal. apply IH, H2.
Qed.

Lemma comment_at_needs_opener t :
  starts_with (js "<!--") t = None -> comment_at t = None.
Proof. unfold comment_at. intros ->. reflexivity. Qed.

Lemma attribute_at_needs_opener name t :
  starts_with (js name ++ [61; dq]) t = None -> attribute_at name t = None.
Proof. unfold attribute_at. intros ->. reflexivity. Qed.

(** Two markups that differ only in how much white space stands at one
    place, and of which kind, have the same fingerprint. *)
Theorem fingerprint_ignores_amount_of_white_space P w w' S :
  w <> [] -> w' <> [] ->
  Forall (fun c => is_space c = true) w ->
  Forall (fun c => is_space c = true) w' ->
  generateStructuralHash (P ++ w ++ S) = generateStructuralHash (P ++ w' ++ S).
Proof.
  intros Hw Hw' Hs Hs'. unfold generateStructuralHash, simplify.
  rewrite !replace_spaces_is_collapse.
  rewrite (collapse_app false P (w ++ S)), (collapse_app false P (w' ++ S)).
  rewrite (collapse_spaces _ w S Hw Hs), (collapse_spaces _ w' S Hw' Hs').
  reflexivity.
Qed.

Lemma fingerprint_ignores_amount_of_white_space_witness :
  js " " <> [] /\ [10; 9; 32; 32] <> []
  /\ Forall (fun c => is_space c = true) (js " ")
  /\ Forall (fun c => is_space c = true) [10; 9; 32; 32]
  /\ generateStructuralHash (js "<p>a" ++ js " " ++ js "b</p>")
     = generateStructuralHash (js "<p>a" ++ [10; 9; 32; 32] ++ js "b</p>").
Proof.
  assert (H1 : Forall (fun c => is_space c = true) (js " "))
    by (repeat constructor).
  assert (H2 : Forall (fun c => is_space c = true) [10; 9; 32; 32])
    by (repeat constructor).
  split; [discriminate|]. split; [discriminate|]. split; [exact H1|]. split; [exact H2|].
  apply (fingerprint_ignores_amount_of_white_space (js "<p>a") (js " ") [10; 9; 32; 32]
           (js "b</p>")); [discriminate|discriminate|exact H1|exact H2].
Defined.

(** Nothing but white-space runs, comments and the three double-quoted
    attributes is ever taken out: markup whose white space is single plain
    spaces and that holds no comment opener and none of the texts
    [style=], [class=], [id=] followed by a double quote is hashed as it
    stands.  Attribute values in single quotes or without quotes, names in
    upper case and an equals sign with spaces around it thus all enter the
    fingerprint. *)
Theorem fingerprint_keeps_everything_else s :
  single_spaced false s = true ->
  occurs (js "<!--") s = false ->
  occurs (js "style" ++ [61; dq]) s = false ->
  occurs (js "class" ++ [61; dq]) s = false ->
  occurs (js "id" ++ [61; dq]) s = false ->
  simplify s = s /\ generateStructuralHash s = simpleHash s.
Proof.
  intros Hw Hc Hstyle Hclass Hid.
  assert (H : simplify s = s).
  { rewrite simplify_is_normalize. unfold normalize.
    rewrite (collapse_single_spaced s false Hw).
    rewrite (strip_no_occurrence (js "<!--") comment_at s shrinking_comment_at
               comment_at_needs_opener Hc).
    rewrite (strip_no_occurrence _ (attribute_at "style") s (shrinking_attribute_at _)
               (attribute_at_needs_opener "style") Hstyle).
    rewrite (strip_no_occurrence _ (attribute_at "class") s (shrinking_attribute_at _)
               (attribute_at_needs_opener "class") Hclass).
    apply (strip_no_occurrence _ (attribute_at "id") s (shrinking_attribute_at _)
             (attribute_at_needs_opener "id") Hid). }
  split; [exact H|]. unfold generateStructuralHash. rewrite H. reflexivity.
Qed.

Lemma fingerprint_keeps_everything_else_witness :
  single_spaced false (js "<p class='a' ID=x style = 'c'>1 < 2</p>") = true
  /\ simplify (js "<p class='a' ID=x style = 'c'>1 < 2</p>")
     = js "<p class='a' ID=x style = 'c'>1 < 2</p>".
Proof.
  split; [reflexivity|].
  apply (fingerprint_keeps_everything_else (js "<p class='a' ID=x style = 'c'>1 < 2</p>"));
    reflexivity.
Defined.

(** ** The text of a comment *)

(** A text that can stand in a comment: it holds no end-of-comment mark
    and does not start with a closing angle bracket, alone or behind a
    hyphen. *)
Definition comment_text (c : list Z) : bool :=
  negb (occurs (js "-->") c)
  && match c with
     | [] => true
     | x :: c' =>
         negb (x =? 62)
         && negb ((x =? 45) && match c' with y :: _ => y =? 62 | [] => false end)
     end.

(** A comment with the text [c], followed by [S]. *)
Definition commented (c S : list Z) : list Z := js "<!--" ++ c ++ js "-->" ++ S.

Lemma starts_with_app_Some pat P X Q :
  starts_with pat P = Some Q -> starts_with pat (P ++ X) = Some (Q ++ X).
Proof.
  revert P. induction pat as [|a pat IH]; intros P H; cbn in *.
  - injection H as <-. reflexivity.
  - destruct P as [|p P]; [discriminate|]. cbn. destruct (a =? p); [apply IH, H|discriminate].
Qed.

(** A pattern that does not start [P] does not start [P ++ X] either,
    when the first code unit of [X] is none of the pattern's but its
    first. *)
Lemma starts_with_app_None pat : forall P x X,
  P <> [] -> starts_with pat P = None -> ~ In x (tl pat) ->
  starts_with pat (P ++ x :: X) = None.
Proof.
  induction pat as [|a pat IH]; intros P x X Hne H Hx; [discriminate|].
  destruct P as [|p P]; [contradiction|]. cbn in H |- *.
  destruct (a =? p); [|reflexivity].
  destruct P as [|q P].
  - destruct pat as [|a' pat]; [discriminate|]. cbn.
    destruct (a' =? x) eqn:E; [|reflexivity].
    apply Z.eqb_eq in E. subst a'. exfalso. apply Hx. left. reflexivity.
  - apply IH; [discriminate|exact H|].
    intros Hin. apply Hx. cbn. destruct pat; [contradiction|right; exact Hin].
Qed.

Lemma collapse_dot s : forall b, Forall (fun c => dot c = true) (collapse_whitespace b s).
Proof.
  induction s as [|c s IH]; intros b; cbn [collapse_whitespace]; [constructor|].
  destruct (is_space c) eqn:E.
  - destruct b; [apply IH|]. constructor; [reflexivity|apply IH].
  - constructor; [|apply IH]. unfold dot, is_line_terminator.
    unfold is_space in E. repeat (apply orb_false_iff in E; destruct E as [E ?]).
    repeat match goal with H : (c =? _) = false |- _ => rewrite H; clear H end.
    reflexivity.
Qed.

Lemma comment_end_suffix Q : forall Q2,
  comment_end Q = Some Q2 -> exists pre, Q = pre ++ Q2.
Proof.
  induction Q as [|q Q IH]; intros Q2 H; cbn [comment_end] in H.
  - destruct (starts_with (js "-->") []) eqn:E; [discriminate E|discriminate].
  - destruct (starts_with (js "-->") (q :: Q)) as [b|] eqn:E.
    + injection H as <-. apply starts_with_Some in E. exists (js "-->"). exact E.
    + destruct (dot q); [|discriminate]. destruct (IH _ H) as [pre ->].
      exists (q :: pre). reflexivity.
Qed.

(** Behind the text of a comment, the first end-of-comment mark is the
    one that closes it. *)
Lemma comment_end_body c S :
  occurs (js "-->") c = false -> Forall (fun x => dot x = true) c ->
  comment_end (c ++ js "-->" ++ S) = Some S.
Proof.
  intros Ho Hd. induction Hd as [|x c Hx Hd IH].
  - cbn [app]. destruct S; reflexivity.
  - apply occurs_cons in Ho. destruct Ho as [H1 H2].
    cbn [app comment_end].
    assert (Hn : starts_with (js "-->") (x :: c ++ js "-->" ++ S) = None).
    { change (js "-->") with [45; 45; 62] in *.
      destruct c as [|y [|z c]]; cbn [app starts_with] in H1 |- *.
      - destruct (45 =? x); reflexivity.
      - destruct (45 =? x); [|reflexivity]. destruct (45 =? y); reflexivity.
      - destruct (45 =? x); [|reflexivity].
        destruct (45 =? y); [|reflexivity]. destruct (62 =? z); [discriminate|reflexivity]. }
    rewrite Hn, Hx. apply IH, H2.
Qed.

Lemma comment_end_commented c S :
  comment_text c = true -> Forall (fun x => dot x = true) c ->
  comment_end (commented c S) = Some S.
Proof.
  intros Hc Hd. unfold comment_text in Hc. apply andb_true_iff in Hc.
  destruct Hc as [Ho Hh]. apply negb_true_iff in Ho.
  pose proof (comment_end_body c S Ho Hd) as Hb.
  unfold commented. change (js "<!--") with [60; 33; 45; 45]. cbn [app].
  change (comment_end (60 :: 33 :: 45 :: 45 :: c ++ js "-->" ++ S))
    with (match starts_with (js "-->") (45 :: 45 :: c ++ js "-->" ++ S) with
          | Some behind => Some behind
          | None =>
              match starts_with (js "-->") (45 :: c ++ js "-->" ++ S) with
              | Some behind => Some behind
              | None => comment_end (c ++ js "-->" ++ S)
              end
          end).
  destruct c as [|x c].
  - exact Hb.
  - apply andb_true_iff in Hh. destruct Hh as [Hx Hxy].
    apply negb_true_iff in Hx, Hxy. change (js "-->") with [45; 45; 62] in *.
    cbn [app starts_with]. change (45 =? 45) with true. cbv iota.
    rewrite (Z.eqb_sym 62 x), Hx.
    destruct (45 =? x) eqn:E45; [|exact Hb].
    rewrite (Z.eqb_sym x 45), E45 in Hxy. cbn [andb] in Hxy.
    destruct c as [|y c]; [exact Hb|]. cbn [app]. rewrite (Z.eqb_sym 62 y), Hxy. exact Hb.
Qed.

Lemma comment_end_app Q c S :
  comment_text c = true -> Forall (fun x => dot x = true) c ->
  Forall (fun x => dot x = true) Q ->
  comment_end (Q ++ commented c S)
  = match comment_end Q with
    | Some Q2 => Some (Q2 ++ commented c S)
    | None => Some S
    end.
Proof.
  intros Hc Hd HQ. induction HQ as [|q Q Hq HQ IH].
  - cbn [app]. rewrite (comment_end_commented c S Hc Hd). reflexivity.
  - cbn [app comment_end].
    destruct (starts_with (js "-->") (q :: Q)) as [b|] eqn:E.
    + change (q :: Q ++ commented c S) with ((q :: Q) ++ commented c S).
      rewrite (starts_with_app_Some _ _ _ _ E). reflexivity.
    + assert (Hn : starts_with (js "-->") ((q :: Q) ++ commented c S) = None).
      { apply (starts_with_app_None (js "-->") (q :: Q) 60 (tl (commented c S)));
          [discriminate|exact E|].
        cbn. intros [H|[H|[]]]; discriminate. }
      cbn [app] in Hn. rewrite Hn, Hq. exact IH.
Qed.

Lemma comment_at_app P c S :
  comment_text c = true -> Forall (fun x => dot x = true) c ->
  P <> [] -> Forall (fun x => dot x = true) P ->
  comment_at (P ++ commented c S)
  = match starts_with (js "<!--") P with
    | None => None
    | Some Q =>
        match comment_end Q with
        | Some Q2 => Some (Q2 ++ commented c S)
        | None => Some S
        end
    end.
Proof.
  intros Hc Hd Hne HP. unfold comment_at.
  destruct (starts_with (js "<!--") P) as [Q|] eqn:E.
  - rewrite (starts_with_app_Some _ _ _ _ E). cbn [mbind option_bind].
    apply comment_end_app; [exact Hc|exact Hd|].
    apply starts_with_Some in E. rewrite E in HP. apply Forall_app in HP. apply HP.
  - assert (Hn : starts_with (js "<!--") (P ++ commented c S) = None).
    { apply (starts_with_app_None (js "<!--") P 60 (tl (commented c S)));
        [exact Hne|exact E|].
      cbn. intros [H|[H|[H|[]]]]; discriminate. }
    rewrite Hn. reflexivity.
Qed.

Lemma comment_at_commented c S :
  comment_text c = true -> Forall (fun x => dot x = true) c ->
  comment_at (commented c S) = Some S.
Proof.
  intros Hc Hd. unfold comment_at, commented.
  rewrite starts_with_app. cbn [mbind option_bind].
  apply comment_end_body; [|exact Hd].
  unfold comment_text in Hc. apply andb_true_iff in Hc. destruct Hc as [Ho _].
  apply negb_true_iff in Ho. exact Ho.
Qed.

(** Stripping the comments of a text that ends in a comment and [S]
    does not depend on the text of that comment. *)
Lemma strip_comment_text S c c' n :
  comment_text c = true -> Forall (fun x => dot x = true) c ->
  comment_text c' = true -> Forall (fun x => dot x = true) c' ->
  forall P, (length P <= n)%nat -> Forall (fun x => dot x = true) P ->
  strip comment_at (P ++ commented c S) = strip comment_at (P ++ commented c' S).
Proof.
  intros Hc Hd Hc' Hd'. induction n as [|n IH]; intros P Hn HP.
  - destruct P; [|simpl in Hn; lia]. cbn [app].
    rewrite !(strip_unfold comment_at _ shrinking_comment_at).
    rewrite (comment_at_commented c S Hc Hd), (comment_at_commented c' S Hc' Hd').
    reflexivity.
  - destruct P as [|p P].
    + apply (IH []); [simpl; lia|constructor].
    + rewrite !(strip_unfold comment_at _ shrinking_comment_at).
      rewrite (comment_at_app (p :: P) c S Hc Hd ltac:(discriminate) HP).
      rewrite (comment_at_app (p :: P) c' S Hc' Hd' ltac:(discriminate) HP).
      destruct (starts_with (js "<!--") (p :: P)) as [Q|] eqn:E.
      * apply starts_with_Some in E.
        destruct (comment_end Q) as [Q2|] eqn:E2; [|reflexivity].
        destruct (comment_end_suffix _ _ E2) as [pre HQ].
        apply IH.
        -- apply (f_equal (@length Z)) in E. rewrite HQ in E.
           rewrite !length_app in E. simpl in E, Hn. lia.
        -- rewrite E, HQ in HP. apply Forall_app in HP. destruct HP as [_ HP].
           apply Forall_app in HP. apply HP.
      * cbn [app]. f_equal. apply IH; [simpl in Hn; lia|].
        apply Forall_inv_tail in HP. exact HP.
Qed.

Lemma collapse_commented b c S :
  collapse_whitespace b (commented c S)
  = commented (collapse_whitespace false c)
      (collapse_whitespace false S).
Proof.
  unfold commented.
  rewrite (collapse_app b (js "<!--")).
  rewrite (collapse_app _ c), (collapse_app _ (js "-->")).
  reflexivity.
Qed.

Lemma starts_with_collapse pat s :
  Forall (fun a => is_space a = false) pat -> pat <> [] ->
  forall t, starts_with pat (collapse_whitespace false s) = Some t ->
  exists t', starts_with pat s = Some t'.
Proof.
  intros Hpat. revert s. induction Hpat as [|a pat Ha Hpat IH]; [contradiction|].
  intros s _ t H. destruct s as [|x s]; [discriminate H|].
  cbn [collapse_whitespace] in H. destruct (is_space x) eqn:Ex.
  - cbn [starts_with] in H. destruct (a =? 32) eqn:E; [|discriminate].
    apply Z.eqb_eq in E. subst a. discriminate Ha.
  - cbn [starts_with] in H |- *. destruct (a =? x); [|discriminate].
    destruct pat as [|a' pat]; [eexists; reflexivity|].
    apply (IH s ltac:(discriminate) t H).
Qed.

Lemma occurs_collapse pat s :
  Forall (fun a => is_space a = false) pat -> pat <> [] ->
  occurs pat s = false -> forall b, occurs pat (collapse_whitespace b s) = false.
Proof.
  intros Hpat Hne. induction s as [|x s IH]; intros H b.
  - exact H.
  - apply occurs_cons in H. destruct H as [H1 H2].
    assert (Hsp : forall u, starts_with pat (32 :: u) = None).
    { intros u. destruct Hpat as [|a pat Ha _]; [contradiction|]. cbn.
      destruct (a =? 32) eqn:E; [|reflexivity].
      apply Z.eqb_eq in E. subst a. discriminate Ha. }
    cbn [collapse_whitespace]. destruct (is_space x) eqn:Ex.
    + destruct b; [apply IH, H2|]. cbn [occurs]. rewrite Hsp. apply IH, H2.
    + cbn [occurs].
      destruct (starts_with pat (x :: collapse_whitespace false s)) as [t|] eqn:E;
        [|apply IH, H2].
      assert (E' : starts_with pat (collapse_whitespace false (x :: s)) = Some t)
        by (cbn [collapse_whitespace]; rewrite Ex; exact E).
      destruct (starts_with_collapse pat (x :: s) Hpat Hne t E') as [t' Ht'].
      congruence.
Qed.

Lemma comment_text_collapse c :
  comment_text c = true -> comment_text (collapse_whitespace false c) = true.
Proof.
  unfold comment_text. intros H. apply andb_true_iff in H. destruct H as [Ho Hh].
  apply negb_true_iff in Ho. apply andb_true_iff. split.
  - apply negb_true_iff. apply occurs_collapse; [|discriminate|exact Ho].
    repeat constructor.
  - destruct c as [|x c]; [reflexivity|]. cbn [collapse_whitespace].
    destruct (is_space x) eqn:Ex; [reflexivity|].
    apply andb_true_iff in Hh. destruct Hh as [Hx Hxy]. rewrite Hx. cbn [andb].
    destruct (x =? 45); [|reflexivity]. cbn [andb] in Hxy |- *.
    destruct c as [|y c]; [reflexivity|]. cbn [collapse_whitespace].
    destruct (is_space y) eqn:Ey; [reflexivity|exact Hxy].
Qed.

(** The fingerprint does not depend on the text of a comment: two
    markups that differ only in the text between a comment opener and the
    end-of-comment mark that follows have the same fingerprint, whatever
    stands before and behind.  The texts hold no end-of-comment mark and
    start neither with a closing angle bracket nor with a hyphen and
    one. *)
Theorem fingerprint_ignores_comment_text P c c' S :
  comment_text c = true -> comment_text c' = true ->
  generateStructuralHash (P ++ js "<!--" ++ c ++ js "-->" ++ S)
  = generateStructuralHash (P ++ js "<!--" ++ c' ++ js "-->" ++ S).
Proof.
  intros Hc Hc'. unfold generateStructuralHash. rewrite !simplify_is_normalize.
  unfold normalize. fold (commented c S) (commented c' S).
  rewrite !collapse_app, !collapse_commented.
  rewrite (strip_comment_text (collapse_whitespace false S)
             (collapse_whitespace false c) (collapse_whitespace false c')
             (length (collapse_whitespace false P))
             (comment_text_collapse c Hc) (collapse_dot c false)
             (comment_text_collapse c' Hc') (collapse_dot c' false)
             _ (le_n _) (collapse_dot P false)).
  reflexivity.
Qed.

Lemma fingerprint_ignores_comment_text_witness :
  comment_text (js " menu ") = true
  /\ comment_text (js "<b class='x'> -- navigation" ++ [10] ++ js "starts here") = true
  /\ generateStructuralHash
       (js "<ul>" ++ js "<!--" ++ js " menu " ++ js "-->" ++ js "<li>a</li></ul>")
     = generateStructuralHash
         (js "<ul>" ++ js "<!--"
          ++ (js "<b class='x'> -- navigation" ++ [10] ++ js "starts here")
          ++ js "-->" ++ js "<li>a</li></ul>").
Proof.
  split; [reflexivity|]. split; [reflexivity|].
  apply (fingerprint_ignores_comment_text (js "<ul>") (js " menu ")
           (js "<b class='x'> -- navigation" ++ [10] ++ js "starts here")
           (js "<li>a</li></ul>")); reflexivity.
Defined.

(** ** The value of a stripped attribute *)

(** The text of an attribute [name] with the value [v] in double quotes. *)
Definition attribute (name : string) (v : list Z) : list Z :=
  js name ++ [61; dq] ++ v ++ [dq].

(** A value without double quote, equals sign and opening angle bracket. *)
Definition value_text (v : list Z) : bool :=
  forallb (fun x => negb (x =? dq) && negb (x =? 61) && negb (x =? 60)) v.

(** Every opener in [s] is closed inside [s]: behind each occurrence of
    [opener], [closer] finds its mark. *)
Fixpoint all_closed (opener : list Z) (closer : list Z -> option (list Z))
    (s : list Z) : bool :=
  match s with
  | [] => true
  | _ :: s' =>
      match starts_with opener s with
      | Some t =>
          match closer t with
          | Some _ => all_closed opener closer s'
          | None => false
          end
      | None => all_closed opener closer s'
      end
  end.

(** The prefix of a stripped attribute is settled when, at every pass up
    to the one that strips the attribute, what the earlier passes have
    left of the prefix holds no comment and no attribute of that pass
    that is still open at its end. *)
Definition settled (name : string) (P : list Z) : bool :=
  let P1 := collapse_whitespace false P in
  let P2 := strip comment_at P1 in
  let P3 := strip (attribute_at "style") P2 in
  let P4 := strip (attribute_at "class") P3 in
  all_closed (js "<!--") comment_end P1
  && all_closed (js "style" ++ [61; dq]) quote_end P2
  && (String.eqb name "style"
      || (all_closed (js "class" ++ [61; dq]) quote_end P3
          && (String.eqb name "class"
              || all_closed (js "id" ++ [61; dq]) quote_end P4))).

Section Pass.

(** One pass: [opener] starts an occurrence, [closer] finds its end. *)
Variable opener : list Z.
Variable closer : list Z -> option (list Z).

Definition at_pass (s : list Z) : option (list Z) := starts_with opener s ≫= closer.

Hypothesis opener_nonempty : opener <> [].
Hypothesis pass_shrinking : shrinking at_pass.
Hypothesis closer_suffix : forall t b, closer t = Some b -> exists pre, t = pre ++ b.
Hypothesis closer_local : forall t b X, closer t = Some b -> closer (t ++ X) = Some (b ++ X).

Lemma all_closed_tail c s :
  all_closed opener closer (c :: s) = true -> all_closed opener closer s = true.
Proof.
  cbn [all_closed]. destruct (starts_with opener (c :: s)); [|auto].
  destruct (closer l); [auto|discriminate].
Qed.

Lemma all_closed_suffix pre s :
  all_closed opener closer (pre ++ s) = true -> all_closed opener closer s = true.
Proof.
  induction pre as [|c pre IH]; [auto|]. intros H. apply IH.
  apply (all_closed_tail c). exact H.
Qed.

Lemma at_pass_suffix s b : at_pass s = Some b -> exists pre, s = pre ++ b.
Proof.
  unfold at_pass. destruct (starts_with opener s) as [t|] eqn:E; [|discriminate].
  cbn [mbind option_bind]. intros H. apply starts_with_Some in E.
  destruct (closer_suffix _ _ H) as [pre ->]. exists (opener ++ pre).
  rewrite E, <- app_assoc. reflexivity.
Qed.

(** Behind a text in which every opener is closed, the pass starts
    afresh: stripping the whole is stripping the two parts. *)
Lemma strip_app_all_closed x X n : forall P,
  (length P <= n)%nat ->
  ~ In x (tl opener) ->
  all_closed opener closer P = true ->
  strip at_pass (P ++ x :: X) = strip at_pass P ++ strip at_pass (x :: X).
Proof.
  induction n as [|n IH]; intros P Hn Hx Hc.
  - destruct P; [|simpl in Hn; lia].
    rewrite (strip_unfold at_pass [] pass_shrinking). unfold at_pass at 2.
    destruct opener; [contradiction|]. reflexivity.
  - destruct P as [|p P]; [apply (IH []); [simpl; lia|exact Hx|reflexivity]|].
    rewrite (strip_unfold at_pass ((p :: P) ++ x :: X) pass_shrinking).
    rewrite (strip_unfold at_pass (p :: P) pass_shrinking).
    destruct (starts_with opener (p :: P)) as [t|] eqn:E.
    + pose proof Hc as Hc'. cbn [all_closed] in Hc'. rewrite E in Hc'.
      destruct (closer t) as [b|] eqn:Eb; [|discriminate].
      assert (H1 : at_pass (p :: P) = Some b)
        by (unfold at_pass; rewrite E; exact Eb).
      assert (H2 : at_pass ((p :: P) ++ x :: X) = Some (b ++ x :: X)).
      { unfold at_pass. rewrite (starts_with_app_Some _ _ _ _ E).
        cbn [mbind option_bind]. apply closer_local, Eb. }
      rewrite H1, H2.
      destruct (closer_suffix _ _ Eb) as [pre Hpre].
      apply starts_with_Some in E.
      apply IH; [|exact Hx|].
      * apply (f_equal (@length Z)) in E. rewrite Hpre in E.
        rewrite !length_app in E. destruct opener; [contradiction|].
        simpl in E, Hn. lia.
      * rewrite E, Hpre in Hc. apply all_closed_suffix in Hc.
        apply all_closed_suffix in Hc. exact Hc.
    + assert (H1 : at_pass (p :: P) = None) by (unfold at_pass; rewrite E; reflexivity).
      assert (H2 : at_pass ((p :: P) ++ x :: X) = None).
      { unfold at_pass.
        rewrite (starts_with_app_None opener (p :: P) x X ltac:(discriminate) E Hx).
        reflexivity. }
      rewrite H1, H2. cbn [app]. f_equal.
      apply IH; [simpl in Hn; lia|exact Hx|apply (all_closed_tail p), Hc].
Qed.

End Pass.

Lemma comment_at_pass s : at_pass (js "<!--") comment_end s = comment_at s.
Proof. reflexivity. Qed.

Lemma attribute_at_pass name s :
  at_pass (js name ++ [61; dq]) quote_end s = attribute_at name s.
Proof. reflexivity. Qed.

Lemma starts_with_long pat : forall T X,
  (length pat <= length T)%nat ->
  starts_with pat (T ++ X) = (fun b => b ++ X) <$> starts_with pat T.
Proof.
  induction pat as [|a pat IH]; intros T X H; [reflexivity|].
  destruct T as [|c T]; [simpl in H; lia|]. cbn [app starts_with].
  destruct (a =? c); [|reflexivity]. apply IH. simpl in H. lia.
Qed.

Lemma comment_end_long t : forall b,
  comment_end t = Some b -> exists pre, t = pre ++ b /\ (3 <= length pre)%nat.
Proof.
  induction t as [|q t IH]; intros b H; cbn [comment_end] in H.
  - destruct (starts_with (js "-->") []) eqn:E; [discriminate E|discriminate].
  - destruct (starts_with (js "-->") (q :: t)) as [b'|] eqn:E.
    + injection H as <-. apply starts_with_Some in E. exists (js "-->").
      split; [exact E|simpl; lia].
    + destruct (dot q); [|discriminate]. destruct (IH _ H) as (pre & -> & Hl).
      exists (q :: pre). split; [reflexivity|simpl; lia].
Qed.

Lemma comment_end_local t : forall b X,
  comment_end t = Some b -> comment_end (t ++ X) = Some (b ++ X).
Proof.
  induction t as [|q t IH]; intros b X H.
  - cbn [comment_end] in H.
    destruct (starts_with (js "-->") []) eqn:E; [discriminate E|discriminate].
  - destruct (comment_end_long _ _ H) as (pre & Hpre & Hl).
    cbn [comment_end app] in H |- *.
    change (q :: t ++ X) with ((q :: t) ++ X).
    rewrite (starts_with_long (js "-->") (q :: t) X)
      by (rewrite Hpre, length_app; simpl; lia).
    destruct (starts_with (js "-->") (q :: t)) as [b'|] eqn:E.
    + injection H as <-. reflexivity.
    + cbn [fmap option_fmap option_map]. destruct (dot q); [|discriminate].
      apply IH, H.
Qed.

Lemma quote_end_suffix t : forall b, quote_end t = Some b -> exists pre, t = pre ++ b.
Proof.
  induction t as [|c t IH]; intros b H; [discriminate|]. cbn [quote_end] in H.
  destruct (c =? dq).
  - injection H as <-. exists [c]. reflexivity.
  - destruct (IH _ H) as [pre ->]. exists (c :: pre). reflexivity.
Qed.

Lemma quote_end_local t : forall b X,
  quote_end t = Some b -> quote_end (t ++ X) = Some (b ++ X).
Proof.
  induction t as [|c t IH]; intros b X H; [discriminate|]. cbn [quote_end app] in H |- *.
  destruct (c =? dq); [injection H as <-; reflexivity|apply IH, H].
Qed.

(** The two instances of the lemma on the prefix. *)
Lemma strip_comment_app P x X :
  ~ In x (tl (js "<!--")) ->
  all_closed (js "<!--") comment_end P = true ->
  strip comment_at (P ++ x :: X) = strip comment_at P ++ strip comment_at (x :: X).
Proof.
  intros Hx Hc.
  apply (strip_app_all_closed (js "<!--") comment_end ltac:(discriminate)
           shrinking_comment_at comment_end_suffix comment_end_local
           x X (length P) P (le_n _) Hx Hc).
Qed.

Lemma strip_attribute_app name P x X :
  ~ In x (tl (js name ++ [61; dq])) ->
  all_closed (js name ++ [61; dq]) quote_end P = true ->
  strip (attribute_at name) (P ++ x :: X)
  = strip (attribute_at name) P ++ strip (attribute_at name) (x :: X).
Proof.
  intros Hx Hc.
  assert (Hne : js name ++ [61; dq] <> []) by (destruct (js name); discriminate).
  apply (strip_app_all_closed (js name ++ [61; dq]) quote_end Hne
           (shrinking_attribute_at name) quote_end_suffix quote_end_local
           x X (length P) P (le_n _) Hx Hc).
Qed.

Lemma strip_cons_None at_start c T :
  shrinking at_start -> at_start (c :: T) = None ->
  strip at_start (c :: T) = c :: strip at_start T.
Proof. intros Hs H. rewrite (strip_unfold at_start _ Hs), H. reflexivity. Qed.

Lemma value_text_cons x v :
  value_text (x :: v) = true ->
  (x =? dq) = false /\ (x =? 61) = false /\ (x =? 60) = false /\ value_text v = true.
Proof.
  unfold value_text. cbn [forallb]. intros H.
  apply andb_true_iff in H. destruct H as [H Hv].
  apply andb_true_iff in H. destruct H as [H H3].
  apply andb_true_iff in H. destruct H as [H1 H2].
  apply negb_true_iff in H1, H2, H3. auto.
Qed.

Lemma value_text_collapse v : forall b,
  value_text v = true -> value_text (collapse_whitespace b v) = true.
Proof.
  induction v as [|x v IH]; intros b H; [reflexivity|].
  pose proof H as H'. apply value_text_cons in H'. destruct H' as (H1 & H2 & H3 & Hv).
  cbn [collapse_whitespace]. destruct (is_space x).
  - destruct b; [apply IH, Hv|]. unfold value_text. cbn [forallb].
    apply andb_true_iff. split; [reflexivity|apply (IH true), Hv].
  - unfold value_text. cbn [forallb]. rewrite H1, H2, H3. apply (IH false), Hv.
Qed.

(** A pass that finds nothing to strip in a value and at the quote that
    closes it goes through both. *)
Lemma strip_through_value at_start v S :
  shrinking at_start ->
  (forall u, value_text u = true -> at_start (u ++ dq :: S) = None) ->
  value_text v = true ->
  strip at_start (v ++ dq :: S) = v ++ dq :: strip at_start S.
Proof.
  intros Hs Hat. induction v as [|x v IH]; intros Hv.
  - cbn [app]. apply strip_cons_None; [exact Hs|]. apply (Hat []). reflexivity.
  - cbn [app]. rewrite strip_cons_None; [|exact Hs|apply (Hat (x :: v)), Hv].
    f_equal. apply IH. apply value_text_cons in Hv. apply Hv.
Qed.

Lemma comment_not_in_value u S :
  value_text u = true -> comment_at (u ++ dq :: S) = None.
Proof.
  intros Hu. unfold comment_at. destruct u as [|x u]; [reflexivity|].
  apply value_text_cons in Hu. destruct Hu as (_ & _ & H & _).
  change (js "<!--") with [60; 33; 45; 45]. cbn [app starts_with].
  rewrite (Z.eqb_sym 60 x), H. reflexivity.
Qed.

Lemma opener_not_in_value letters S :
  Forall (fun a => a <> dq) letters ->
  forall u, value_text u = true ->
  starts_with (letters ++ [61; dq]) (u ++ dq :: S) = None.
Proof.
  intros Hl. induction Hl as [|a letters Ha Hl IH]; intros u Hu.
  - destruct u as [|x u]; [reflexivity|].
    apply value_text_cons in Hu. destruct Hu as (_ & H & _).
    cbn [app starts_with]. rewrite (Z.eqb_sym 61 x), H. reflexivity.
  - destruct u as [|x u]; cbn [app starts_with].
    + destruct (Z.eqb_spec a dq); [contradiction|reflexivity].
    + destruct (a =? x); [|reflexivity].
      apply IH. apply value_text_cons in Hu. apply Hu.
Qed.

Lemma attribute_not_in_value name u S :
  Forall (fun a => a <> dq) (js name) ->
  value_text u = true -> attribute_at name (u ++ dq :: S) = None.
Proof.
  intros Hn Hu. unfold attribute_at.
  rewrite (opener_not_in_value (js name) S Hn u Hu). reflexivity.
Qed.

Lemma attribute_app name v S :
  attribute name v ++ S = (js name ++ [61; dq]) ++ v ++ dq :: S.
Proof. unfold attribute. rewrite <- !app_assoc. reflexivity. Qed.

Lemma quote_end_value v S : value_text v = true -> quote_end (v ++ dq :: S) = Some S.
Proof.
  induction v as [|x v IH]; intros Hv; [reflexivity|].
  apply value_text_cons in Hv. destruct Hv as (H & _ & _ & Hv).
  cbn [app quote_end]. rewrite H. apply IH, Hv.
Qed.

(** The pass of an attribute takes the attribute out, whatever its
    value. *)
Lemma strip_own_attribute name v S :
  value_text v = true ->
  strip (attribute_at name) (attribute name v ++ S) = strip (attribute_at name) S.
Proof.
  intros Hv. rewrite (strip_unfold _ _ (shrinking_attribute_at name)).
  unfold attribute_at at 1. rewrite attribute_app, starts_with_app.
  cbn [mbind option_bind]. rewrite (quote_end_value v S Hv). reflexivity.
Qed.

Tactic Notation "units" integer(n) constr(Hs) :=
  do n (rewrite strip_cons_None; [|exact Hs|reflexivity]).

Ltac through_value Hs Hat Hv :=
  rewrite (strip_through_value _ _ _ Hs Hat Hv); reflexivity.

(** The other passes leave the attribute where it is. *)
Lemma strip_comment_skips_attribute name v S :
  In name ["style"; "class"; "id"]%string -> value_text v = true ->
  strip comment_at (attribute name v ++ S) = attribute name v ++ strip comment_at S.
Proof.
  intros Hname Hv. rewrite !attribute_app.
  assert (Hat : forall u, value_text u = true -> comment_at (u ++ dq :: S) = None)
    by (intros u; apply comment_not_in_value).
  destruct Hname as [<-|[<-|[<-|[]]]].
  - change ((js "style" ++ [61; dq]) ++ v ++ dq :: S)
      with (115 :: 116 :: 121 :: 108 :: 101 :: 61 :: 34 :: v ++ dq :: S).
    units 7 shrinking_comment_at. through_value shrinking_comment_at Hat Hv.
  - change ((js "class" ++ [61; dq]) ++ v ++ dq :: S)
      with (99 :: 108 :: 97 :: 115 :: 115 :: 61 :: 34 :: v ++ dq :: S).
    units 7 shrinking_comment_at. through_value shrinking_comment_at Hat Hv.
  - change ((js "id" ++ [61; dq]) ++ v ++ dq :: S)
      with (105 :: 100 :: 61 :: 34 :: v ++ dq :: S).
    units 4 shrinking_comment_at. through_value shrinking_comment_at Hat Hv.
Qed.

Lemma strip_style_skips_attribute name v S :
  In name ["class"; "id"]%string -> value_text v = true ->
  strip (attribute_at "style") (attribute name v ++ S)
  = attribute name v ++ strip (attribute_at "style") S.
Proof.
  intros Hname Hv. rewrite !attribute_app.
  assert (Hat : forall u, value_text u = true ->
                          attribute_at "style" (u ++ dq :: S) = None).
  { intros u. apply attribute_not_in_value. repeat constructor; discriminate. }
  pose proof (shrinking_attribute_at "style") as Hs.
  destruct Hname as [<-|[<-|[]]].
  - change ((js "class" ++ [61; dq]) ++ v ++ dq :: S)
      with (99 :: 108 :: 97 :: 115 :: 115 :: 61 :: 34 :: v ++ dq :: S).
    units 7 Hs. through_value Hs Hat Hv.
  - change ((js "id" ++ [61; dq]) ++ v ++ dq :: S)
      with (105 :: 100 :: 61 :: 34 :: v ++ dq :: S).
    units 4 Hs. through_value Hs Hat Hv.
Qed.

Lemma strip_class_skips_attribute v S :
  value_text v = true ->
  strip (attribute_at "class") (attribute "id" v ++ S)
  = attribute "id" v ++ strip (attribute_at "class") S.
Proof.
  intros Hv. rewrite !attribute_app.
  assert (Hat : forall u, value_text u = true ->
                          attribute_at "class" (u ++ dq :: S) = None).
  { intros u. apply attribute_not_in_value. repeat constructor; discriminate. }
  pose proof (shrinking_attribute_at "class") as Hs.
  change ((js "id" ++ [61; dq]) ++ v ++ dq :: S)
    with (105 :: 100 :: 61 :: 34 :: v ++ dq :: S).
  units 4 Hs. through_value Hs Hat Hv.
Qed.

Lemma collapse_attribute name b v S :
  In name ["style"; "class"; "id"]%string ->
  collapse_whitespace b (attribute name v ++ S)
  = attribute name (collapse_whitespace false v) ++ collapse_whitespace false S.
Proof.
  intros Hname. rewrite !attribute_app.
  rewrite (collapse_app b (js name ++ [61; dq])).
  assert (H : collapse_whitespace b (js name ++ [61; dq]) = js name ++ [61; dq]
              /\ after_space b (js name ++ [61; dq]) = false)
    by (destruct Hname as [<-|[<-|[<-|[]]]]; split; reflexivity).
  destruct H as [-> ->]. f_equal.
  rewrite (collapse_app false v). f_equal.
Qed.

Lemma strip_comment_before P X x :
  head X = Some x -> ~ In x (tl (js "<!--")) ->
  all_closed (js "<!--") comment_end P = true ->
  strip comment_at (P ++ X) = strip comment_at P ++ strip comment_at X.
Proof.
  destruct X as [|x' X]; [discriminate|]. intros H. injection H as ->.
  apply strip_comment_app.
Qed.

Lemma strip_attribute_before name P X x :
  head X = Some x -> ~ In x (tl (js name ++ [61; dq])) ->
  all_closed (js name ++ [61; dq]) quote_end P = true ->
  strip (attribute_at name) (P ++ X)
  = strip (attribute_at name) P ++ strip (attribute_at name) X.
Proof.
  destruct X as [|x' X]; [discriminate|]. intros H. injection H as ->.
  apply strip_attribute_app.
Qed.

Ltac not_in_tail := cbn; intuition discriminate.

(** What is left of a markup with a [style] attribute behind a settled
    prefix: the value is gone. *)
Lemma normalize_style_attribute P v S :
  settled "style" P = true -> value_text v = true ->
  normalize (P ++ attribute "style" v ++ S)
  = let P2 := strip comment_at (collapse_whitespace false P) in
    let S2 := strip comment_at (collapse_whitespace false S) in
    strip (attribute_at "id")
      (strip (attribute_at "class")
         (strip (attribute_at "style") P2 ++ strip (attribute_at "style") S2)).
Proof.
  intros Hp Hv. unfold settled in Hp. cbv zeta in Hp.
  apply andb_true_iff in Hp. destruct Hp as [Hp _].
  apply andb_true_iff in Hp. destruct Hp as [H1 H2].
  pose proof (value_text_collapse v false Hv) as Hv2.
  cbv zeta. unfold normalize.
  rewrite collapse_app, (collapse_attribute "style") by (cbn; auto).
  set (v2 := collapse_whitespace false v) in *.
  set (S1 := collapse_whitespace false S).
  rewrite (strip_comment_before _ (attribute "style" v2 ++ S1) 115 eq_refl
             ltac:(not_in_tail) H1).
  rewrite (strip_comment_skips_attribute "style") by (cbn; auto).
  rewrite (strip_attribute_before "style" _
             (attribute "style" v2 ++ strip comment_at S1) 115 eq_refl
             ltac:(not_in_tail) H2).
  rewrite (strip_own_attribute "style") by exact Hv2.
  reflexivity.
Qed.

Lemma normalize_class_attribute P v S :
  settled "class" P = true -> value_text v = true ->
  normalize (P ++ attribute "class" v ++ S)
  = let P3 := strip (attribute_at "style") (strip comment_at (collapse_whitespace false P)) in
    let S3 := strip (attribute_at "style") (strip comment_at (collapse_whitespace false S)) in
    strip (attribute_at "id")
      (strip (attribute_at "class") P3 ++ strip (attribute_at "class") S3).
Proof.
  intros Hp Hv. unfold settled in Hp. cbv zeta in Hp.
  apply andb_true_iff in Hp. destruct Hp as [Hp H3].
  apply andb_true_iff in Hp. destruct Hp as [H1 H2].
  cbn [String.eqb Ascii.eqb Bool.eqb orb] in H3.
  apply andb_true_iff in H3. destruct H3 as [H3 _].
  pose proof (value_text_collapse v false Hv) as Hv2.
  cbv zeta. unfold normalize.
  rewrite collapse_app, (collapse_attribute "class") by (cbn; auto).
  set (v2 := collapse_whitespace false v) in *.
  set (S1 := collapse_whitespace false S).
  rewrite (strip_comment_before _ (attribute "class" v2 ++ S1) 99 eq_refl
             ltac:(not_in_tail) H1).
  rewrite (strip_comment_skips_attribute "class") by (cbn; auto).
  rewrite (strip_attribute_before "style" _
             (attribute "class" v2 ++ strip comment_at S1) 99 eq_refl
             ltac:(not_in_tail) H2).
  rewrite (strip_style_skips_attribute "class") by (cbn; auto).
  rewrite (strip_attribute_before "class" _
             (attribute "class" v2 ++ strip (attribute_at "style") (strip comment_at S1))
             99 eq_refl ltac:(not_in_tail) H3).
  rewrite (strip_own_attribute "class") by exact Hv2.
  reflexivity.
Qed.

Lemma normalize_id_attribute P v S :
  settled "id" P = true -> value_text v = true ->
  normalize (P ++ attribute "id" v ++ S)
  = let P4 :=
      strip (attribute_at "class")
        (strip (attribute_at "style") (strip comment_at (collapse_whitespace false P))) in
    let S4 :=
      strip (attribute_at "class")
        (strip (attribute_at "style") (strip comment_at (collapse_whitespace false S))) in
    strip (attribute_at "id") P4 ++ strip (attribute_at "id") S4.
Proof.
  intros Hp Hv. unfold settled in Hp. cbv zeta in Hp.
  apply andb_true_iff in Hp. destruct Hp as [Hp H3].
  apply andb_true_iff in Hp. destruct Hp as [H1 H2].
  cbn [String.eqb Ascii.eqb Bool.eqb orb] in H3.
  apply andb_true_iff in H3. destruct H3 as [H3 H4].
  pose proof (value_text_collapse v false Hv) as Hv2.
  cbv zeta. unfold normalize.
  rewrite collapse_app, (collapse_attribute "id") by (cbn; auto).
  set (v2 := collapse_whitespace false v) in *.
  set (S1 := collapse_whitespace false S).
  rewrite (strip_comment_before _ (attribute "id" v2 ++ S1) 105 eq_refl
             ltac:(not_in_tail) H1).
  rewrite (strip_comment_skips_attribute "id") by (cbn; auto).
  rewrite (strip_attribute_before "style" _
             (attribute "id" v2 ++ strip comment_at S1) 105 eq_refl
             ltac:(not_in_tail) H2).
  rewrite (strip_style_skips_attribute "id") by (cbn; auto).
  rewrite (strip_attribute_before "class" _
             (attribute "id" v2 ++ strip (attribute_at "style") (strip comment_at S1))
             105 eq_refl ltac:(not_in_tail) H3).
  rewrite strip_class_skips_attribute by exact Hv2.
  rewrite (strip_attribute_before "id" _
             (attribute "id" v2
              ++ strip (attribute_at "class")
                   (strip (attribute_at "style") (strip comment_at S1)))
             105 eq_refl ltac:(not_in_tail) H4).
  rewrite (strip_own_attribute "id") by exact Hv2.
  reflexivity.
Qed.

(** The fingerprint does not depend on the value of a [style], [class]
    or [id] attribute written with double quotes: two markups that differ
    only in such a value have the same fingerprint.  The values hold no
    double quote, no equals sign and no opening angle bracket; the prefix
    is settled, that is, no comment and no attribute of a pass up to the
    one of the attribute is open at its end. *)
Theorem fingerprint_ignores_attribute_value name P v v' S :
  In name ["style"; "class"; "id"]%string ->
  settled name P = true -> value_text v = true -> value_text v' = true ->
  generateStructuralHash (P ++ attribute name v ++ S)
  = generateStructuralHash (P ++ attribute name v' ++ S).
Proof.
  intros Hname Hp Hv Hv'. unfold generateStructuralHash.
  rewrite !simplify_is_normalize.
  destruct Hname as [<-|[<-|[<-|[]]]].
  - rewrite (normalize_style_attribute P v S Hp Hv),
      (normalize_style_attribute P v' S Hp Hv'). reflexivity.
  - rewrite (normalize_class_attribute P v S Hp Hv),
      (normalize_class_attribute P v' S Hp Hv'). reflexivity.
  - rewrite (normalize_id_attribute P v S Hp Hv),
      (normalize_id_attribute P v' S Hp Hv'). reflexivity.
Qed.

Lemma fingerprint_ignores_attribute_value_witness :
  settled "class" (js "<a href=" ++ [dq] ++ js "x.html" ++ [dq] ++ js " ") = true
  /\ value_text (js "a") = true
  /\ value_text (js "b  wide") = true
  /\ generateStructuralHash
       ((js "<a href=" ++ [dq] ++ js "x.html" ++ [dq] ++ js " ")
        ++ attribute "class" (js "a") ++ js ">x</a>")
     = generateStructuralHash
         ((js "<a href=" ++ [dq] ++ js "x.html" ++ [dq] ++ js " ")
          ++ attribute "class" (js "b  wide") ++ js ">x</a>").
Proof.
  split; [reflexivity|]. split; [reflexivity|]. split; [reflexivity|].
  apply (fingerprint_ignores_attribute_value "class"
           (js "<a href=" ++ [dq] ++ js "x.html" ++ [dq] ++ js " ")
           (js "a") (js "b  wide") (js ">x</a>"));
    [right; left; reflexivity|reflexivity|reflexivity|reflexivity].
Defined.

End FingerprintInvariance.

(* ===================================================================== *)
(** * The measures read from the document tree *)
(* ===================================================================== *)

Module AnalysisFacts.

(** Induction on a node, with the property known for the children. *)
Section NodeInduction.

Variable P : node -> Prop.
Hypothesis P_elem : forall tag kids, Forall P kids -> P (Elem tag kids).
Hypothesis P_text : forall len, P (TextNode len).

Fixpoint node_induction (n : node) : P n :=
  match n with
  | Elem tag kids =>
      P_elem tag kids
        ((fix all (l : list node) : Forall P l :=
            match l with
            | [] => @List.Forall_nil _ P
            | k :: l' => @List.Forall_cons _ P k l' (node_induction k) (all l')
            end) kids)
  | TextNode len => P_text len
  end.

End NodeInduction.

(** The largest depth in a list of elements, from [m] on: the loop
    [maxNesting = Math.max(maxNesting, depth)]. *)
Definition deepest (l : list (list Z * Z)) (m : Z) : Z :=
  fold_left (fun m e => Z.max m (snd e)) l m.

(** One turn of the loop of [calculateMaxNestingDepth]. *)
Definition deeper (maxDepth : Z) (k : node) : Z :=
  match k with
  | Elem _ _ => Z.max maxDepth (calculateMaxNestingDepth k)
  | TextNode _ => maxDepth
  end.

Lemma calculateMaxNestingDepth_elem tag kids :
  calculateMaxNestingDepth (Elem tag kids) = fold_left deeper kids 0 + 1.
Proof. reflexivity. Qed.

Lemma deepest_app l l' m : deepest (l ++ l') m = deepest l' (deepest l m).
Proof. apply fold_left_app. Qed.

Lemma deepest_ge l : forall m, m <= deepest l m.
Proof.
  induction l as [|e l IH]; intros m; [reflexivity|].
  cbn. specialize (IH (Z.max m (snd e))). unfold deepest in IH. lia.
Qed.

Lemma deeper_ge kids : forall acc, acc <= fold_left deeper kids acc.
Proof.
  induction kids as [|k kids IH]; intros acc; [reflexivity|].
  cbn [fold_left]. specialize (IH (deeper acc k)).
  destruct k; cbn [deeper] in *; lia.
Qed.

Lemma calculateMaxNestingDepth_nonneg n : 0 <= calculateMaxNestingDepth n.
Proof.
  destruct n as [tag kids|len]; [|reflexivity].
  rewrite calculateMaxNestingDepth_elem. pose proof (deeper_ge kids 0). lia.
Qed.

Lemma deepest_elements n : forall d m,
  deepest (elements_at d n) m
  = match n with
    | Elem _ _ => Z.max m (d + calculateMaxNestingDepth n - 1)
    | TextNode _ => m
    end.
Proof.
  induction n as [tag kids IH|len] using node_induction; intros d m; [|reflexivity].
  rewrite calculateMaxNestingDepth_elem. cbn [elements_at].
  change (deepest ((tag, d) :: flat_map (elements_at (d + 1)) kids) m)
    with (deepest (flat_map (elements_at (d + 1)) kids) (Z.max m d)).
  assert (H : forall acc m',
             Z.max (deepest (flat_map (elements_at (d + 1)) kids) m') (d + acc)
             = Z.max m' (d + fold_left deeper kids acc)).
  { induction IH as [|k kids Hk _ IHkids]; intros acc m'; [reflexivity|].
    cbn [flat_map fold_left]. rewrite deepest_app.
    specialize (IHkids (deeper acc k) (deepest (elements_at (d + 1) k) m')).
    pose proof (deepest_ge (flat_map (elements_at (d + 1)) kids)
                  (deepest (elements_at (d + 1) k) m')) as Hge.
    pose proof (deeper_ge kids (deeper acc k)) as Hacc.
    rewrite (Hk (d + 1) m') in *.
    destruct k as [t ks|len]; cbn [deeper] in *; lia. }
  specialize (H 0 (Z.max m d)).
  pose proof (deepest_ge (flat_map (elements_at (d + 1)) kids) (Z.max m d)).
  pose proof (deeper_ge kids 0). lia.
Qed.

(** ** First occurrences *)

Lemma length_filter_le {A} (P : A -> Prop) `{forall x, Decision (P x)} (l : list A) :
  (length (filter P l) <= length l)%nat.
Proof.
  induction l as [|a l IH]; [reflexivity|].
  rewrite filter_cons. destruct (decide (P a)); simpl; lia.
Qed.

Lemma unique_length xs : (length (unique xs) <= length xs)%nat.
Proof.
  induction xs as [|x xs IH]; [reflexivity|]. cbn [unique length].
  pose proof (length_filter_le (fun y => y <> x) (unique xs)). lia.
Qed.

Lemma elem_of_unique xs : forall x, x ∈ unique xs <-> x ∈ xs.
Proof.
  induction xs as [|a xs IH]; intros x; [reflexivity|]. cbn [unique].
  rewrite !elem_of_cons, list_elem_of_filter, IH.
  destruct (decide (x = a)); intuition.
Qed.

Lemma NoDup_unique xs : NoDup (unique xs).
Proof.
  induction xs as [|a xs IH]; [constructor|]. cbn [unique]. constructor.
  - rewrite list_elem_of_filter. intros [H _]. apply H. reflexivity.
  - apply NoDup_filter, IH.
Qed.

(** ** Depths *)

Lemma elements_at_depth n : forall d e, e ∈ elements_at d n -> d <= snd e.
Proof.
  induction n as [tag kids IH|len] using node_induction; intros d e H.
  - cbn [elements_at] in H. apply elem_of_cons in H. destruct H as [->|H]; [reflexivity|].
    apply list_elem_of_In, in_flat_map in H. destruct H as (k & Hk & He).
    rewrite List.Forall_forall in IH. specialize (IH k Hk (d + 1) e).
    apply list_elem_of_In in He. specialize (IH He). lia.
  - cbn in H. apply elem_of_nil in H. contradiction.
Qed.

Lemma total_le_deepest l :
  (forall e, e ∈ l -> 0 <= snd e) ->
  forall acc m, 0 <= m ->
  acc <= fold_left (fun acc e => acc + snd e) l acc
  /\ fold_left (fun acc e => acc + snd e) l acc
     <= acc + deepest l m * Z.of_nat (length l).
Proof.
  induction l as [|e l IH]; intros Hl acc m Hm; [cbn; lia|].
  cbn [fold_left length deepest].
  assert (He : 0 <= snd e) by (apply Hl; left).
  destruct (IH (fun e' H => Hl e' (list_elem_of_further _ _ _ H))
              (acc + snd e) (Z.max m (snd e)) ltac:(lia)) as [H1 H2].
  pose proof (deepest_ge l (Z.max m (snd e))) as Hge.
  unfold deepest in *. split; [lia|]. nia.
Qed.

(** ** Exclusive selectors *)

Lemma count_exclusive {A} (P Q R : A -> Prop)
    `{forall x, Decision (P x)} `{forall x, Decision (Q x)} `{forall x, Decision (R x)}
    (l : list A) :
  (forall x, P x -> Q x -> False) -> (forall x, P x -> R x -> False) ->
  (forall x, Q x -> R x -> False) ->
  (length (filter P l) + length (filter Q l) + length (filter R l) <= length l)%nat.
Proof.
  intros HPQ HPR HQR. induction l as [|a l IH]; [reflexivity|].
  rewrite !filter_cons.
  destruct (decide (P a)), (decide (Q a)), (decide (R a)); simpl;
    try lia; exfalso; eauto.
Qed.

Lemma includes_true names t : includes names t = true <-> t ∈ names.
Proof. unfold includes. apply bool_decide_eq_true. Qed.

Section Analysis.

Variable parseFromString : list Z -> document.
Variable extractClassCounts extractIdCounts extractAttributeCounts : list Z -> counts.
Variable extractColorPalette : list Z -> list (list Z).

(** The features of a markup. *)
Definition features_of (html : list Z) : HTMLFeatures :=
  analyze parseFromString extractClassCounts extractIdCounts extractAttributeCounts
    extractColorPalette html.

(** [doc.body] is a child of [doc.documentElement], or is missing. *)
Definition body_is_child (doc : document) : Prop :=
  match body doc with
  | Some b => exists tag kids, documentElement doc = Elem tag kids /\ In b kids
  | None => True
  end.

Lemma tags_among_spec doc names :
  NoDup (tags_among doc names)
  /\ forall t, t ∈ tags_among doc names
               <-> t ∈ names /\ t ∈ map fst (allElements doc).
Proof.
  unfold tags_among. split; [apply NoDup_unique|]. intros t.
  rewrite elem_of_unique, list_elem_of_filter, includes_true. reflexivity.
Qed.

(** [calculateMaxNestingDepth] of an element is one more than the largest
    depth among the elements below and including it, counted from it: it
    agrees with the depths that [getElementDepth] measures. *)
Theorem nesting_depth_is_one_more_than_deepest_element tag kids d :
  deepest (elements_at d (Elem tag kids)) d + 1
  = d + calculateMaxNestingDepth (Elem tag kids).
Proof.
  rewrite deepest_elements.
  pose proof (deeper_ge kids 0). rewrite calculateMaxNestingDepth_elem. lia.
Qed.

(** The lists of semantic, interactive and media tags of the features
    hold every tag name of the respective fixed list that some element of
    the document bears, each once, and nothing else. *)
Theorem tag_lists_hold_the_listed_tags_once html :
  let f := features_of html in
  let present := map fst (allElements (parseFromString html)) in
  (NoDup (semanticTags f)
   /\ forall t, t ∈ semanticTags f <-> t ∈ semanticTagNames /\ t ∈ present)
  /\ (NoDup (interactiveTags f)
      /\ forall t, t ∈ interactiveTags f <-> t ∈ interactiveTagNames /\ t ∈ present)
  /\ (NoDup (mediaTags f)
      /\ forall t, t ∈ mediaTags f <-> t ∈ mediaTagNames /\ t ∈ present).
Proof.
  cbv zeta. split; [|split]; apply tags_among_spec.
Qed.

(** The numbers of the features are consistent: there are no more
    distinct tags than elements, the links, images and form elements are
    different elements, the average nesting level lies between 0 and the
    maximum, and so does every depth. *)
Theorem analysis_counts_are_consistent html :
  let f := features_of html in
  0 <= uniqueTags f <= totalElements f
  /\ 0 <= linkCount f /\ 0 <= imageCount f /\ 0 <= formElements f
  /\ linkCount f + imageCount f + formElements f <= totalElements f
  /\ 0 <= maxNestingLevel f
  /\ (0 <= avgNestingLevel f)%Q
  /\ (avgNestingLevel f <= inject_Z (maxNestingLevel f))%Q
  /\ 0 <= nestingDepth f.
Proof.
  cbv zeta. unfold features_of, analyze. cbv zeta.
  cbn [uniqueTags totalElements linkCount imageCount formElements maxNestingLevel
       avgNestingLevel nestingDepth].
  set (doc := parseFromString html). set (all := allElements doc).
  split; [split; [lia|]|].
  { pose proof (unique_length (map fst all)) as H. rewrite length_map in H. lia. }
  unfold count_tags. fold all.
  split; [lia|]. split; [lia|]. split; [lia|]. split.
  { pose proof (count_exclusive
                  (fun e : list Z * Z => includes [js "a"] (fst e) = true)
                  (fun e => includes [js "img"] (fst e) = true)
                  (fun e => includes (map js ["input"; "select"; "textarea"; "button"]%string)
                              (fst e) = true) all) as H.
    assert (forall t (l l' : list (list Z)),
               (forall x, x ∈ l -> x ∈ l' -> False) ->
               includes l t = true -> includes l' t = true -> False) as Hex.
    { intros t l l' Hd H1 H2. apply includes_true in H1, H2. eauto. }
    assert (Hlt : (length (filter (fun e : list Z * Z => includes [js "a"] (fst e) = true) all)
                   + length (filter (fun e : list Z * Z => includes [js "img"] (fst e) = true) all)
                   + length (filter (fun e : list Z * Z =>
                                       includes (map js ["input"; "select"; "textarea"; "button"]%string)
                                         (fst e) = true) all)
                   <= length all)%nat).
    { apply H; intros e; apply Hex; intros x Hx Hx';
        repeat (apply elem_of_cons in Hx; destruct Hx as [->|Hx]);
        try (apply elem_of_nil in Hx; contradiction);
        repeat (apply elem_of_cons in Hx'; destruct Hx' as [Hx'|Hx']; [discriminate Hx'|]);
        apply elem_of_nil in Hx'; contradiction. }
    lia. }
  assert (Hdepth : forall e, e ∈ all -> 0 <= snd e)
    by (intros e He; apply (elements_at_depth _ 0 e He)).
  pose proof (deepest_ge all 0) as Hmax. fold (deepest all 0).
  destruct (total_le_deepest all Hdepth 0 0 ltac:(lia)) as [Hlo Hhi].
  split; [exact Hmax|].
  set (total := fold_left (fun acc e => acc + snd e) all 0) in *.
  set (n := Z.of_nat (length all)) in *.
  assert (Havg : (0 <= (if (0 <? n)%Z then inject_Z total / inject_Z n else 0)
                  /\ (if (0 <? n)%Z then inject_Z total / inject_Z n else 0)
                     <= inject_Z (deepest all 0))%Q).
  { destruct (0 <? n) eqn:E.
    - apply Z.ltb_lt in E.
      assert (Hn : (0 < inject_Z n)%Q) by (rewrite <- (Zlt_Qlt 0); exact E).
      split.
      + apply Qle_shift_div_l; [exact Hn|]. rewrite Qmult_0_l.
        rewrite <- (Zle_Qle 0). exact Hlo.
      + apply Qle_shift_div_r; [exact Hn|]. rewrite <- inject_Z_mult, <- Zle_Qle. lia.
    - split; [apply Qle_refl|]. rewrite <- (Zle_Qle 0). exact Hmax. }
  split; [apply Havg|]. split; [apply Havg|].
  destruct (body doc); [apply calculateMaxNestingDepth_nonneg|reflexivity].
Qed.

(** When the body is a child of the root element, as in every parsed
    document, the nesting depth of the body is at most the maximum nesting
    level of the document. *)
Theorem nesting_depth_at_most_max_level html :
  body_is_child (parseFromString html) ->
  nestingDepth (features_of html) <= maxNestingLevel (features_of html).
Proof.
  unfold body_is_child, features_of, analyze. cbv zeta.
  cbn [nestingDepth maxNestingLevel]. set (doc := parseFromString html).
  fold (deepest (allElements doc) 0). pose proof (deepest_ge (allElements doc) 0) as H0.
  destruct (body doc) as [b|]; [|intros _; exact H0].
  intros (tag & kids & Hroot & Hin). unfold allElements. rewrite Hroot, deepest_elements.
  rewrite calculateMaxNestingDepth_elem.
  assert (Hb : forall l acc, 0 <= acc -> In b l -> deeper 0 b <= fold_left deeper l acc).
  { induction l as [|k l IH]; intros acc Hacc Hl; [contradiction|]. cbn [fold_left].
    destruct Hl as [->|Hl].
    - pose proof (deeper_ge l (deeper acc b)).
      pose proof (calculateMaxNestingDepth_nonneg b).
      destruct b; cbn [deeper] in *; lia.
    - apply IH; [|exact Hl].
      pose proof (calculateMaxNestingDepth_nonneg k).
      destruct k; cbn [deeper]; lia. }
  specialize (Hb kids 0 ltac:(lia) Hin).
  pose proof (calculateMaxNestingDepth_nonneg b).
  destruct b; cbn [deeper calculateMaxNestingDepth] in *; lia.
Qed.

End Analysis.

(** A small document: a head, and a body with a paragraph in a
    division. *)
Definition sample_body : node :=
  Elem (js "body") [Elem (js "div") [Elem (js "p") [TextNode 3]]].

Definition sample_document : document :=
  {| documentElement := Elem (js "html") [Elem (js "head") []; sample_body];
     body := Some sample_body |}.

Lemma nesting_depth_at_most_max_level_witness :
  body_is_child sample_document
  /\ nestingDepth (features_of (fun _ => sample_document) (fun _ => []) (fun _ => [])
                     (fun _ => []) (fun _ => []) (js "<p>abc</p>"))
     <= maxNestingLevel (features_of (fun _ => sample_document) (fun _ => [])
                           (fun _ => []) (fun _ => []) (fun _ => []) (js "<p>abc</p>")).
Proof.
  assert (H : body_is_child sample_document).
  { eexists. eexists. split; [reflexivity|]. right. left. reflexivity. }
  split; [exact H|].
  apply (nesting_depth_at_most_max_level (fun _ => sample_document)). exact H.
Defined.

End AnalysisFacts.

(* ===================================================================== *)
(** * The choice of algorithm, iterations and colours *)
(* ===================================================================== *)

Module SelectionFacts.

Import FractalAlgorithms DynamicFractalAlgorithms FingerprintSpec FingerprintFacts.

Module EFG := EnhancedFractalGenerator.

Local Open Scope Z_scope.

(** The rolling hash stays in the signed 32-bit range, so its absolute
    value is at most [2 ^ 31]. *)
Lemma hash_loop_range s : - 2147483648 <= hash_loop s < 2147483648.
Proof.
  rewrite hash_loop_is_rolling_hash. unfold rolling_hash.
  destruct s as [|c s] using rev_ind; [cbn; lia|].
  rewrite fold_left_app. cbn [fold_left]. apply wrap32_range.
Qed.

Lemma simpleHash_range s : 0 <= EFG.simpleHash s <= 2147483648.
Proof. unfold EFG.simpleHash. pose proof (hash_loop_range s). lia. Qed.

Lemma hashCode_range s : 0 <= hashCode s <= 2147483648.
Proof. unfold hashCode. pose proof (hash_loop_range s). lia. Qed.

(** The algorithms a section type chooses among. *)
Definition choices (sectionType : list Z) : list (list Z) :=
  if decide (sectionType = js "header") then map js ["mandelbrot"; "julia"; "spirograph"]%string
  else if decide (sectionType = js "footer") then map js ["lorenz"; "dragon"]%string
  else if decide (sectionType = js "body" \/ sectionType = js "main") then
    map js ["sierpinski"; "tree"; "spirograph"]%string
  else if decide (sectionType = js "nav") then [js "dragon"]
  else if decide (sectionType = js "section" \/ sectionType = js "article") then
    map js ["tree"; "julia"; "mandelbrot"; "spirograph"]%string
  else EFG.algorithmMap.

Lemma nth_elem_of {A} (l : list A) (d : A) (i : nat) :
  (i < length l)%nat -> nth i l d ∈ l.
Proof. intros H. apply list_elem_of_In, nth_In, H. Qed.

Lemma pick_elem_of (l : list string) (i : Z) :
  0 <= i < Z.of_nat (length l) -> EFG.pick l i ∈ map js l.
Proof.
  intros H. unfold EFG.pick.
  replace (i <? 0) with false by (symmetry; apply Z.ltb_ge; lia).
  apply nth_elem_of. rewrite length_map. lia.
Qed.

Lemma rem_range a b : 0 <= a -> 0 < b -> 0 <= Z.rem a b < b.
Proof. intros Ha Hb. apply Z.rem_bound_pos; lia. Qed.

Lemma choices_known sectionType a :
  a ∈ choices sectionType -> a ∈ EFG.algorithmMap.
Proof.
  unfold choices, EFG.algorithmMap.
  repeat destruct (decide _); intros H;
    repeat (apply elem_of_cons in H; destruct H as [->|H];
            [repeat ((left; reflexivity) || right)|]);
    try (apply elem_of_nil in H; contradiction); exact H.
Qed.

Section Selection.

Context {host : Host}.

(** The algorithm chosen for a section is one of the algorithms of its
    section type, and so always one of the seven known algorithms: the
    index computed from the hash stays inside the array. *)
Theorem selected_algorithm_is_a_choice_of_the_type f sectionType index :
  0 <= totalElements f -> 0 <= index ->
  EFG.selectAlgorithmForSection f sectionType index ∈ choices sectionType
  /\ EFG.selectAlgorithmForSection f sectionType index ∈ EFG.algorithmMap.
Proof.
  intros Hf Hi.
  assert (H : EFG.selectAlgorithmForSection f sectionType index ∈ choices sectionType).
  { unfold EFG.selectAlgorithmForSection, choices. cbv zeta.
    pose proof (simpleHash_range (sectionType ++ structuralHash f)) as Hh.
    repeat destruct (decide _);
      try (apply pick_elem_of; apply rem_range; cbn; lia).
    - left.
    - apply nth_elem_of.
      pose proof (rem_range index (Z.of_nat (length EFG.algorithmMap)) Hi ltac:(cbn; lia)).
      lia. }
  split; [exact H|]. apply (choices_known sectionType), H.
Qed.

Lemma baseIterations_known algorithm :
  algorithm ∈ EFG.algorithmMap -> 20 <= EFG.baseIterations algorithm <= 60.
Proof.
  unfold EFG.algorithmMap. intros H. cbn [map] in H.
  repeat (apply elem_of_cons in H; destruct H as [->|H];
          [match goal with
           | |- context [EFG.baseIterations ?a] =>
               let v := eval vm_compute in (EFG.baseIterations a) in
               change (EFG.baseIterations a) with v
           end; lia|]).
  apply elem_of_nil in H. contradiction.
Qed.

(** For each of the seven algorithms the number of iterations lies
    between the base number of the algorithm and twice that number, so
    between 20 and 120, whatever the size of the document. *)
Theorem iterations_between_base_and_twice_base features algorithm :
  algorithm ∈ EFG.algorithmMap ->
  match features with Some f => 0 <= totalElements f | None => True end ->
  EFG.baseIterations algorithm <= EFG.calculateIterations features algorithm
    <= 2 * EFG.baseIterations algorithm
  /\ 20 <= EFG.calculateIterations features algorithm <= 120.
Proof.
  intros Ha Hf. pose proof (baseIterations_known algorithm Ha) as Hb.
  unfold EFG.calculateIterations. cbv zeta.
  set (complexity := match features with
                     | Some f => if totalElements f =? 0 then 100 else totalElements f
                     | None => 100
                     end).
  assert (Hc : 0 <= complexity).
  { subst complexity. destruct features as [f|]; [|lia].
    destruct (totalElements f =? 0); lia. }
  set (b := EFG.baseIterations algorithm) in *.
  set (m := Qmin (1 + inject_Z complexity / 1000) 2).
  assert (Hm : (1 <= m /\ m <= 2)%Q).
  { subst m. split; [|apply Q.le_min_r]. apply Q.min_glb; [|lra].
    assert (0 <= inject_Z complexity / 1000)%Q; [|lra].
    apply Qle_shift_div_l; [lra|]. rewrite Qmult_0_l, <- (Zle_Qle 0). exact Hc. }
  assert (Hq : (0 <= inject_Z b)%Q) by (rewrite <- (Zle_Qle 0); lia).
  assert (Hlo : b <= Qfloor (inject_Z b * m)).
  { rewrite <- (Qfloor_Z b) at 1. apply Qfloor_resp_le. nra. }
  assert (Hhi : Qfloor (inject_Z b * m) <= 2 * b).
  { rewrite <- (Qfloor_Z (2 * b)). apply Qfloor_resp_le.
    rewrite inject_Z_mult. change (inject_Z 2) with 2%Q. nra. }
  lia.
Qed.

End Selection.

Lemma selected_algorithm_is_a_choice_of_the_type_witness :
  0 <= totalElements FractalViewer.fallback_features
  /\ 0 <= 0
  /\ @EFG.selectAlgorithmForSection FractalViewer.fallback_features (js "footer") 0
     ∈ choices (js "footer").
Proof.
  split; [cbn; lia|]. split; [lia|].
  apply (selected_algorithm_is_a_choice_of_the_type FractalViewer.fallback_features
           (js "footer") 0); cbn; lia.
Defined.

Lemma iterations_between_base_and_twice_base_witness :
  js "julia" ∈ EFG.algorithmMap
  /\ 35 <= EFG.calculateIterations (Some FractalViewer.fallback_features) (js "julia") <= 70.
Proof.
  assert (H : js "julia" ∈ EFG.algorithmMap) by (right; left).
  split; [exact H|].
  apply (iterations_between_base_and_twice_base (Some FractalViewer.fallback_features)
           (js "julia") H). cbn. lia.
Defined.

(** The colour of a tag is one of the five colours of the palette chosen
    for the tag: the index computed from the hash stays inside the
    palette. *)
Theorem tag_colour_is_in_its_palette tag seed :
  exists css,
    getColorForTag tag seed = ColorStyle css /\ css ∈ getColorSchemeForTag tag.
Proof.
  unfold getColorForTag. cbv zeta. eexists. split; [reflexivity|].
  apply nth_elem_of.
  pose proof (hashCode_range (concat_number tag seed)) as Hh.
  assert (Hlen : Z.of_nat (length (getColorSchemeForTag tag)) = 5).
  { unfold getColorSchemeForTag. repeat destruct (includes _ _); reflexivity. }
  rewrite Hlen.
  pose proof (rem_range (Z.abs (hashCode (concat_number tag seed))) 5 ltac:(lia) ltac:(lia)).
  lia.
Qed.

End SelectionFacts.

(* ===================================================================== *)
(** * The size of what the generators build *)
(* ===================================================================== *)

Module GeneratorSizeFacts.

Import FractalAlgorithms DynamicFractalAlgorithms FractalTreeFacts.

Local Open Scope Z_scope.

(** A loop whose body adds [c] to a measure of the state adds [c] per
    turn. *)
Lemma for_loop_grows {S : Type} (measure : S -> Z) (n c : Z)
    (body : Z -> S -> S) (init : S) :
  (forall i s, measure (body i s) = measure s + c) ->
  measure (for_loop n body init) = measure init + c * Z.max 0 n.
Proof.
  intros H. unfold for_loop.
  assert (G : forall l s, measure (fold_left (fun s i => body i s) l s)
                          = measure s + c * Z.of_nat (length l)).
  { induction l as [|i l IH]; intros s; cbn [fold_left length]; [lia|].
    rewrite IH, H. lia. }
  rewrite G, length_seqZ. lia.
Qed.

Lemma entries_app (l l' : list Q) : entries (l ++ l') = entries l + entries l'.
Proof. unfold entries. rewrite length_app. lia. Qed.

Section Sizes.

Context {host : Host}.

(** ** The Lorenz attractor and the spirograph *)

Lemma lorenz_step_entries params sigma rho beta i st :
  entries (fst (trace (lorenz_step params sigma rho beta i st)))
  = entries (fst (trace st)) + 3
  /\ entries (snd (trace (lorenz_step params sigma rho beta i st)))
     = entries (snd (trace st)) + 3.
Proof.
  unfold lorenz_step. cbv zeta. destruct (color_rgb _) as [[r g] b].
  cbn [trace push fst snd]. rewrite !entries_app. split; reflexivity.
Qed.

Lemma spirograph_point_entries params layer layerR layerr layerd zOffset i out :
  entries (fst (spirograph_point params layer layerR layerr layerd zOffset i out))
  = entries (fst out) + 3
  /\ entries (snd (spirograph_point params layer layerR layerr layerd zOffset i out))
     = entries (snd out) + 3.
Proof.
  unfold spirograph_point. cbv zeta. destruct (color_rgb _) as [[r g] b].
  cbn [push fst snd]. rewrite !entries_app. split; reflexivity.
Qed.

(** The Lorenz attractor is a point cloud and a line over one and the
    same geometry of [20 × iterations] points; the spirograph is one line
    of [5 × iterations] points for each of its layers, of which there are
    between 2 and 8.  A point is three coordinates and three colour
    components. *)
Theorem lorenz_and_spirograph_point_counts features params :
  (exists vertices colors,
      generateLorenzAttractor features params
      = Group [Points (BufferGeometry vertices colors) (PointsMaterial 0.3%Q);
               Line (BufferGeometry vertices colors) (LineBasicMaterial None None)]
      /\ entries vertices = 3 * Z.max 0 (iterations params * 20)
      /\ entries colors = 3 * Z.max 0 (iterations params * 20))
  /\ (exists vertices colors,
        let layers := Z.min (semanticTagCount features + 2) 8 in
        generateSpirograph features params
        = Line (BufferGeometry vertices colors) (LineBasicMaterial None None)
        /\ 2 <= layers <= 8
        /\ entries vertices = 3 * Z.max 0 (iterations params * 5) * layers
        /\ entries colors = 3 * Z.max 0 (iterations params * 5) * layers).
Proof.
  split.
  - eexists. eexists. split; [reflexivity|]. unfold lorenz_arrays. cbv zeta.
    split.
    + rewrite (for_loop_grows (fun st => entries (fst (trace st))) _ 3);
        [cbn [trace fst snd]; unfold entries; cbn [length]; lia|]. intros i s. apply lorenz_step_entries.
    + rewrite (for_loop_grows (fun st => entries (snd (trace st))) _ 3);
        [cbn [trace fst snd]; unfold entries; cbn [length]; lia|]. intros i s. apply lorenz_step_entries.
  - eexists. eexists. cbv zeta. split; [reflexivity|].
    assert (Hl : 2 <= Z.min (semanticTagCount features + 2) 8 <= 8)
      by (unfold semanticTagCount; lia).
    split; [exact Hl|]. unfold spirograph_arrays. cbv zeta.
    set (N := Z.max 0 (iterations params * 5)).
    split.
    + rewrite (for_loop_grows (fun out : arrays => entries (fst out)) _ (3 * N));
        [cbn [trace fst snd]; unfold entries; cbn [length]; lia|].
      intros layer out.
      rewrite (for_loop_grows (fun out : arrays => entries (fst out)) _ 3); [lia|].
      intros i s. apply spirograph_point_entries.
    + rewrite (for_loop_grows (fun out : arrays => entries (snd out)) _ (3 * N));
        [cbn [trace fst snd]; unfold entries; cbn [length]; lia|].
      intros layer out.
      rewrite (for_loop_grows (fun out : arrays => entries (snd out)) _ 3); [lia|].
      intros i s. apply spirograph_point_entries.
Qed.

(** ** The Sierpinski tetrahedron *)

(** A leaf of the recursion: a small tetrahedron. *)
Definition is_leaf (o : object3d) : Prop :=
  exists hue center,
    o = Mesh (TetrahedronGeometry 0.2%Q) (MeshBasicMaterial (ColorHSL hue 80%Q 60%Q) None)
          center (0, 0, 0)%Q [] [].

Lemma recursiveSierpinski_leaves fuel :
  forall v0 v1 v2 v3 depth group params level,
    (Z.to_nat depth < fuel)%nat -> level + Z.max 0 depth <= 15 ->
    exists added,
      recursiveSierpinski fuel v0 v1 v2 v3 depth group params level
      = Some (group ++ added)
      /\ Z.of_nat (length added) = 4 ^ Z.max 0 depth
      /\ Forall is_leaf added.
Proof.
  induction fuel as [|fuel IH]; intros v0 v1 v2 v3 depth group params level Hfuel Hlevel;
    [lia|].
  cbn [recursiveSierpinski].
  destruct (depth <=? 0) eqn:Hd; cbn [orb].
  - apply Z.leb_le in Hd. eexists. split; [reflexivity|].
    split.
    + replace (Z.max 0 depth) with 0 by lia. reflexivity.
    + constructor; [|constructor]. eexists. eexists. reflexivity.
  - apply Z.leb_gt in Hd.
    replace (15 <? level) with false by (symmetry; apply Z.ltb_ge; lia).
    cbv zeta.
    match goal with
    | |- context [recursiveSierpinski fuel ?a ?b ?c ?d ?e group ?p ?l] =>
        destruct (IH a b c d e group p l ltac:(lia) ltac:(lia)) as (a1 & E1 & L1 & F1)
    end.
    rewrite E1. cbn [mbind option_bind].
    match goal with
    | |- context [recursiveSierpinski fuel ?a ?b ?c ?d ?e (group ++ a1) ?p ?l] =>
        destruct (IH a b c d e (group ++ a1) p l ltac:(lia) ltac:(lia))
          as (a2 & E2 & L2 & F2)
    end.
    rewrite E2. cbn [mbind option_bind].
    match goal with
    | |- context [recursiveSierpinski fuel ?a ?b ?c ?d ?e ((group ++ a1) ++ a2) ?p ?l] =>
        destruct (IH a b c d e ((group ++ a1) ++ a2) p l ltac:(lia) ltac:(lia))
          as (a3 & E3 & L3 & F3)
    end.
    rewrite E3. cbn [mbind option_bind].
    match goal with
    | |- context [recursiveSierpinski fuel ?a ?b ?c ?d ?e
                    (((group ++ a1) ++ a2) ++ a3) ?p ?l] =>
        destruct (IH a b c d e (((group ++ a1) ++ a2) ++ a3) p l ltac:(lia) ltac:(lia))
          as (a4 & E4 & L4 & F4)
    end.
    rewrite E4. exists (a1 ++ a2 ++ a3 ++ a4). split; [|split].
    + rewrite <- !app_assoc. reflexivity.
    + rewrite !length_app, !Nat2Z.inj_add, L1, L2, L3, L4.
      replace (Z.max 0 depth) with (Z.succ (Z.max 0 (depth - 1))) by lia.
      rewrite Z.pow_succ_r by lia. lia.
    + repeat (apply Forall_app; split); assumption.
Qed.

(** The Sierpinski tetrahedron is built for every input, from recursion
    depth [min(nestingDepth + 3, 8)], and consists of exactly [4 ^ depth]
    small tetrahedra, at most 65536: the recursion always ends by its
    depth, never by its level guard. *)
Theorem sierpinski_has_four_to_the_depth_leaves (extra : nat) features params :
  let depth := Z.max 0 (Z.min (nestingDepth features + 3) 8) in
  exists leaves,
    generateSierpinskiTetrahedron (9 + extra) features params = Some (Group leaves)
    /\ Z.of_nat (length leaves) = 4 ^ depth
    /\ Z.of_nat (length leaves) <= 65536
    /\ Forall is_leaf leaves.
Proof.
  cbv zeta. unfold generateSierpinskiTetrahedron. cbv zeta.
  set (depth := Z.min (nestingDepth features + 3) 8).
  match goal with
  | |- context [recursiveSierpinski ?n ?a ?b ?c ?d depth [] ?p ?l] =>
      destruct (recursiveSierpinski_leaves n a b c d depth [] p l ltac:(lia) ltac:(lia))
        as (leaves & E & L & F)
  end.
  rewrite E. exists leaves. split; [reflexivity|]. split; [exact L|]. split; [|exact F].
  rewrite L. change 65536 with (4 ^ 8). apply Z.pow_le_mono_r; lia.
Qed.

(** ** The mandala *)

Lemma mandala_layer_length features params layer group :
  0 <= layer ->
  Z.of_nat (length (mandala_layer features params layer group))
  = Z.of_nat (length group) + 7 + 2 * layer.
Proof.
  intros H. unfold mandala_layer. cbv zeta.
  rewrite !length_app, length_map, length_seqZ. cbn [length]. lia.
Qed.

Lemma mandala_layers_length features params (n : nat) :
  Z.of_nat (length (for_loop (Z.of_nat n) (mandala_layer features params) []))
  = Z.of_nat n * Z.of_nat n + 6 * Z.of_nat n.
Proof.
  unfold for_loop. induction n as [|n IH]; [reflexivity|].
  rewrite seqZ_S, fold_left_app. cbn [fold_left].
  rewrite mandala_layer_length by lia. rewrite IH. lia.
Qed.

(** The mandala has [min(semanticTags.length + 3, 8)] layers, between 3
    and 8; layer [l] holds [6 + 2 l] shapes and one ring, so that [L]
    layers hold [L² + 6 L] meshes, between 27 and 112. *)
Theorem mandala_has_a_ring_and_shapes_per_layer features params :
  let layers := Z.min (semanticTagCount features + 3) 8 in
  exists children,
    generateGeometricMandala features params = Group children
    /\ 3 <= layers <= 8
    /\ Z.of_nat (length children) = layers * layers + 6 * layers
    /\ 27 <= Z.of_nat (length children) <= 112.
Proof.
  cbv zeta. unfold generateGeometricMandala. cbv zeta.
  set (layers := Z.min (semanticTagCount features + 3) 8).
  assert (Hl : 3 <= layers <= 8) by (subst layers; unfold semanticTagCount; lia).
  eexists. split; [reflexivity|]. split; [exact Hl|].
  pose proof (mandala_layers_length features params (Z.to_nat layers)) as H.
  rewrite Z2Nat.id in H by lia. rewrite H. split; [reflexivity|]. nia.
Qed.

(** ** The dragon curve *)

Lemma for_loop_iter {S : Type} (n : Z) (f : S -> S) (x : S) :
  for_loop n (fun _ s => f s) x = Nat.iter (Z.to_nat n) f x.
Proof.
  unfold for_loop. rewrite <- (length_seqZ 0 n). generalize (seqZ 0 n). intros l.
  revert x. induction l as [|i l IH]; intros x; [reflexivity|].
  cbn [fold_left length]. rewrite IH, Nat.iter_succ_r. reflexivity.
Qed.

Lemma length_rewrite_sequence s :
  Z.of_nat (length (rewrite_sequence s)) = 3 * Z.of_nat (length s).
Proof.
  unfold rewrite_sequence. induction s as [|c s IH]; [reflexivity|].
  cbn [flat_map]. rewrite length_app, Nat2Z.inj_add, IH.
  destruct (c =? 49);
    [change (js "1R2") with [49; 82; 50]|change (js "1L2") with [49; 76; 50]];
    cbn [length]; lia.
Qed.

Lemma length_dragon_sequence depth :
  Z.of_nat (length (dragon_sequence depth)) = 3 ^ Z.max 0 depth.
Proof.
  unfold dragon_sequence. rewrite for_loop_iter.
  replace (Z.max 0 depth) with (Z.of_nat (Z.to_nat depth)) by lia.
  induction (Z.to_nat depth) as [|n IH]; [reflexivity|].
  rewrite Nat.iter_succ, length_rewrite_sequence, IH, Nat2Z.inj_succ, Z.pow_succ_r by lia.
  reflexivity.
Qed.

(** In a rewritten sequence the steps come in threes: draw, turn, draw. *)
Lemma rewrite_sequence_lookup s : forall (i : nat) c,
  rewrite_sequence s !! i = Some c ->
  (c =? 49) || (c =? 50) = negb (Z.of_nat i mod 3 =? 1).
Proof.
  unfold rewrite_sequence. induction s as [|x s IH]; intros i c H; [discriminate|].
  cbn [flat_map] in H.
  destruct i as [|[|[|i]]].
  - destruct (x =? 49); injection H as <-; reflexivity.
  - destruct (x =? 49); injection H as <-; reflexivity.
  - destruct (x =? 49); injection H as <-; reflexivity.
  - assert (H' : flat_map (fun c => if c =? 49 then js "1R2" else js "1L2") s !! i = Some c)
      by (destruct (x =? 49); exact H).
    rewrite (IH i c H').
    replace (Z.of_nat (S (S (S i)))) with (Z.of_nat i + 1 * 3) by lia.
    rewrite Z.mod_add by lia. reflexivity.
Qed.

Lemma dragon_step_entries features params sequence scale i t c :
  sequence !! Z.to_nat i = Some c ->
  let drawn := if (c =? 49) || (c =? 50) then 6 else 0 in
  entries (fst (drawn_lines (dragon_step features params sequence scale i t)))
  = entries (fst (drawn_lines t)) + drawn
  /\ entries (snd (drawn_lines (dragon_step features params sequence scale i t)))
     = entries (snd (drawn_lines t)) + drawn.
Proof.
  intros H. cbv zeta. unfold dragon_step. rewrite H.
  destruct ((c =? 49) || (c =? 50)).
  - cbv zeta. destruct (color_rgb _) as [[r g] b].
    cbn [drawn_lines push fst snd]. rewrite !entries_app. split; reflexivity.
  - destruct (c =? 82); [cbn [drawn_lines]; split; lia|].
    destruct (c =? 76); [cbn [drawn_lines]; split; lia|]. split; lia.
Qed.

Lemma dragon_steps_entries features params prev scale t0 (n : nat) :
  let sequence := rewrite_sequence prev in
  Z.of_nat n <= Z.of_nat (length sequence) ->
  let t := fold_left (fun t i => dragon_step features params sequence scale i t)
             (seqZ 0 (Z.of_nat n)) t0 in
  entries (fst (drawn_lines t))
  = entries (fst (drawn_lines t0)) + 6 * (Z.of_nat n - (Z.of_nat n + 1) / 3)
  /\ entries (snd (drawn_lines t))
     = entries (snd (drawn_lines t0)) + 6 * (Z.of_nat n - (Z.of_nat n + 1) / 3).
Proof.
  cbv zeta. induction n as [|n IH]; intros Hn.
  - cbn [fold_left seqZ]. change (Z.of_nat 0) with 0.
    change ((0 + 1) / 3) with 0. rewrite seqZ_nil by lia. cbn [fold_left]. split; lia.
  - rewrite seqZ_S, fold_left_app. cbn [fold_left].
    destruct (IH ltac:(lia)) as [IH1 IH2].
    destruct (lookup_lt_is_Some_2 (rewrite_sequence prev) n ltac:(lia)) as [c Hc].
    pose proof (rewrite_sequence_lookup prev n c Hc) as Hdraw.
    match goal with
    | |- context [dragon_step features params ?s scale ?i ?t] =>
        destruct (dragon_step_entries features params s scale i t c) as [H1 H2];
          [replace (Z.to_nat i) with n by lia; exact Hc|]
    end.
    cbv zeta in H1, H2. rewrite H1, H2, IH1, IH2, Hdraw.
    rewrite Nat2Z.inj_succ.
    destruct (Z.eqb_spec (Z.of_nat n mod 3) 1) as [E|E]; cbn [negb];
      split; Z.div_mod_to_equations; lia.
Qed.

Lemma seqZ_to_nat n : seqZ 0 n = seqZ 0 (Z.of_nat (Z.to_nat n)).
Proof.
  destruct (Z.le_gt_cases 0 n) as [H|H]; [rewrite Z2Nat.id by lia; reflexivity|].
  rewrite !seqZ_nil by lia. reflexivity.
Qed.

(** The dragon curve takes [min(3 ^ depth, 10 × iterations)] steps of a
    sequence of [3 ^ depth] characters, [depth = min(nestingDepth + 8,
    16)]; of every three steps the first and the third draw a segment and
    the second turns, so [steps − ⌊(steps + 1) / 3⌋] segments are drawn,
    each two vertices and two colours. *)
Theorem dragon_curve_draws_two_of_three_steps features params :
  0 <= nestingDepth features ->
  let depth := Z.min (nestingDepth features + 8) 16 in
  let steps := Z.max 0 (Z.min (3 ^ depth) (iterations params * 10)) in
  let segments := steps - (steps + 1) / 3 in
  exists vertices colors,
    generateDragonCurve features params
    = LineSegments (BufferGeometry vertices colors) (LineBasicMaterial None None)
    /\ entries vertices = 6 * segments
    /\ entries colors = 6 * segments
    /\ 0 <= segments <= steps
    /\ steps <= Z.max 0 (iterations params * 10).
Proof.
  intros Hnd. cbv zeta. unfold generateDragonCurve. cbv zeta.
  set (depth := Z.min (nestingDepth features + 8) 16).
  eexists. eexists. split; [reflexivity|].
  pose proof (length_dragon_sequence depth) as Hlen.
  replace (Z.max 0 depth) with depth in Hlen by lia.
  rewrite Hlen.
  assert (Hseq : exists prev, dragon_sequence depth = rewrite_sequence prev).
  { unfold dragon_sequence. rewrite for_loop_iter.
    destruct (Z.to_nat depth) as [|k] eqn:Ek; [lia|].
    rewrite Nat.iter_succ. eexists. reflexivity. }
  destruct Hseq as [prev Hprev]. rewrite Hprev in *.
  set (limit := Z.min (3 ^ depth) (iterations params * 10)).
  unfold for_loop. rewrite (seqZ_to_nat limit).
  match goal with
  | |- context [fold_left _ _ ?t0] =>
      destruct (dragon_steps_entries features params prev
                  (0.5 + avgNestingLevel features * 0.1)%Q t0 (Z.to_nat limit))
        as [H1 H2]
  end.
  { subst limit. lia. }
  cbv zeta in H1, H2.
  replace (Z.of_nat (Z.to_nat limit)) with (Z.max 0 limit) in * by lia.
  split; [|split].
  - etransitivity; [exact H1|]. cbn [drawn_lines fst]. unfold entries. cbn [length]. lia.
  - etransitivity; [exact H2|]. cbn [drawn_lines snd]. unfold entries. cbn [length]. lia.
  - subst limit. split; [|lia]. split; [|Z.div_mod_to_equations; lia].
    Z.div_mod_to_equations. lia.
Qed.

End Sizes.

Lemma dragon_curve_draws_two_of_three_steps_witness :
  0 <= nestingDepth FractalViewer.fallback_features
  /\ exists vertices colors,
       @generateDragonCurve DeterminismFacts.plain_host FractalViewer.fallback_features
         DeterminismFacts.small_params
       = LineSegments (BufferGeometry vertices colors) (LineBasicMaterial None None)
       /\ entries vertices
          = 6 * (Z.max 0 (Z.min (3 ^ 11) (iterations DeterminismFacts.small_params * 10))
                 - (Z.max 0 (Z.min (3 ^ 11) (iterations DeterminismFacts.small_params * 10)) + 1)
                   / 3).
Proof.
  split; [cbn; lia|].
  destruct (@dragon_curve_draws_two_of_three_steps DeterminismFacts.plain_host
              FractalViewer.fallback_features DeterminismFacts.small_params
              ltac:(cbn; lia)) as (vertices & colors & H1 & H2 & _).
  exists vertices, colors. split; [exact H1|exact H2].
Defined.

End GeneratorSizeFacts.

(* ===================================================================== *)
(** * The objects mounted for the sections *)
(* ===================================================================== *)

Module SectionFacts.

Import FractalAlgorithms EnhancedFractalGenerator.

Local Open Scope Z_scope.

Section Sections.

Context {host : Host}.

Lemma generateFractalTree_returns (extra : nat) f params r :
  exists o r', generateFractalTree (13 + extra) f params r = Some (o, r').
Proof.
  unfold generateFractalTree. cbv zeta.
  set (maxDepth := Z.min (nestingDepth f + 6) 12).
  destruct (FractalTreeFacts.generateBranch_returns (13 + extra) 0 0 0 0 8 0 maxDepth
              (Z.min (uniqueTags f + 2) 6) params ([], []) r)
    as (out & r' & E & _).
  { pose proof (FractalTreeFacts.levels_le_12 maxDepth ltac:(subst maxDepth; lia)). lia. }
  unfold mbind, M_bind. rewrite E. eexists. eexists. reflexivity.
Qed.

(** With features at hand, every algorithm name yields an object. *)
Lemma createFractalObject_returns (extra : nat) f algorithm params r :
  exists o r',
    createFractalObject (13 + extra) (Some f) algorithm params r = Some (Some o, r').
Proof.
  unfold createFractalObject.
  repeat (destruct (decide _); [eexists; eexists; reflexivity|]).
  destruct (decide (algorithm = js "sierpinski")).
  { destruct (DeterminismFacts.generateSierpinskiTetrahedron_returns (4 + extra) f params)
      as [o E].
    replace (9 + (4 + extra))%nat with (13 + extra)%nat in E by lia.
    rewrite E. eexists. eexists. reflexivity. }
  destruct (decide _); [eexists; eexists; reflexivity|].
  destruct (decide (algorithm = js "tree")).
  { destruct (generateFractalTree_returns extra f params r) as (o & r' & E).
    unfold mbind, M_bind. rewrite E. eexists. eexists. reflexivity. }
  eexists. eexists. reflexivity.
Qed.

Lemma generateFractalSection_mounts (extra : nat) index section g r f :
  features g = Some f ->
  exists g' r',
    generateFractalSection (13 + extra) index section g r = Some (g', r')
    /\ features g' = Some f
    /\ map mounted_position (currentMeshes g')
       = map mounted_position (currentMeshes g)
         ++ (if enabled section then [position section] else [])
    /\ map mounted_scale (currentMeshes g')
       = map mounted_scale (currentMeshes g)
         ++ (if enabled section then [section_scale section] else []).
Proof.
  intros Hf. unfold generateFractalSection. rewrite Hf.
  destruct (enabled section).
  - cbv zeta.
    match goal with
    | |- context [createFractalObject _ _ ?a ?p] =>
        destruct (createFractalObject_returns extra f a p r) as (o & r' & E)
    end.
    unfold mbind, M_bind. rewrite E. eexists. eexists. split; [reflexivity|].
    cbn [features currentMeshes]. rewrite !map_app. cbn [map mounted_position mounted_scale].
    auto.
  - exists g, r. rewrite !app_nil_r. auto.
Qed.

Lemma generateFractalSections_from_mounts (extra : nat) sections :
  forall index g r f,
    features g = Some f ->
    exists g' r',
      generateFractalSections_from (13 + extra) index sections g r = Some (g', r')
      /\ features g' = Some f
      /\ map mounted_position (currentMeshes g')
         = map mounted_position (currentMeshes g)
           ++ map position (List.filter enabled sections)
      /\ map mounted_scale (currentMeshes g')
         = map mounted_scale (currentMeshes g)
           ++ map section_scale (List.filter enabled sections).
Proof.
  induction sections as [|section rest IH]; intros index g r f Hf.
  - exists g, r. cbn. rewrite !app_nil_r. auto.
  - cbn [generateFractalSections_from].
    destruct (generateFractalSection_mounts extra index section g r f Hf)
      as (g1 & r1 & E1 & Hf1 & Hp1 & Hs1).
    destruct (IH (index + 1) g1 r1 f Hf1) as (g2 & r2 & E2 & Hf2 & Hp2 & Hs2).
    exists g2, r2. unfold mbind, M_bind. rewrite E1. split; [exact E2|].
    split; [exact Hf2|]. rewrite Hp2, Hs2, Hp1, Hs1. cbn [List.filter].
    destruct (enabled section); cbn [map]; rewrite <- !app_assoc; auto.
Qed.

(** With features at hand, the sections of a request are all generated:
    every enabled section mounts exactly one object, at the position and
    with the scale of the section and in the order of the sections, also
    when its algorithm name is unknown; a disabled section mounts
    nothing.  Without features nothing is mounted. *)
Theorem every_enabled_section_mounts_one_object (extra : nat) sections g r :
  (features g = None ->
   generateFractalSections (13 + extra) sections g r = Some (g, r))
  /\ (forall f,
        features g = Some f ->
        exists g' r',
          generateFractalSections (13 + extra) sections g r = Some (g', r')
          /\ features g' = Some f
          /\ map mounted_position (currentMeshes g')
             = map mounted_position (currentMeshes g)
               ++ map position (List.filter enabled sections)
          /\ map mounted_scale (currentMeshes g')
             = map mounted_scale (currentMeshes g)
               ++ map section_scale (List.filter enabled sections)
          /\ length (currentMeshes g')
             = (length (currentMeshes g) + length (List.filter enabled sections))%nat).
Proof.
  split.
  - intros Hf. unfold generateFractalSections. generalize 0.
    induction sections as [|section rest IH]; intros index; [reflexivity|].
    cbn [generateFractalSections_from]. unfold generateFractalSection at 1.
    rewrite Hf. unfold mbind, M_bind. cbn. apply IH.
  - intros f Hf.
    destruct (generateFractalSections_from_mounts extra sections 0 g r f Hf)
      as (g' & r' & E & Hf' & Hp & Hs).
    exists g', r'. split; [exact E|]. split; [exact Hf'|]. split; [exact Hp|].
    split; [exact Hs|].
    apply (f_equal (@length _)) in Hp. rewrite length_app, !length_map in Hp. exact Hp.
Qed.

End Sections.

End SectionFacts.

(* ===================================================================== *)
(** * The rotation of a frame *)
(* ===================================================================== *)

Module AnimationFacts.

Import OptimizedFractalGenerator.

Local Open Scope Q_scope.

Lemma lookup_map {A B} (f : A -> B) (l : list A) (i : nat) :
  map f l !! i = f <$> l !! i.
Proof.
  revert i. induction l as [|a l IH]; intros [|i]; cbn; auto.
Qed.

Lemma lookup_indexed {A} (l : list A) : forall (start : Z) (i : nat) (a : A),
  l !! i = Some a ->
  zip (seqZ start (Z.of_nat (length l))) l !! i = Some ((start + Z.of_nat i)%Z, a).
Proof.
  induction l as [|x l IH]; intros start i a H; [discriminate|].
  cbn [length]. rewrite seqZ_cons by lia.
  replace (Z.pred (Z.of_nat (S (length l)))) with (Z.of_nat (length l)) by lia.
  destruct i as [|i].
  - injection H as <-. cbn. rewrite Z.add_0_r. reflexivity.
  - change (zip (start :: seqZ (Z.succ start) (Z.of_nat (length l))) (x :: l) !! S i)
      with (zip (seqZ (Z.succ start) (Z.of_nat (length l))) l !! i).
    change ((x :: l) !! S i) with (l !! i) in H.
    rewrite (IH (Z.succ start) i a H). do 2 f_equal. lia.
Qed.

(** The rotation speed is capped. *)
Lemma rotationSpeed_capped f : rotationSpeed f <= 0.005.
Proof.
  unfold rotationSpeed. destruct f as [n|]; [|apply Q.le_min_l].
  destruct (n =? 0)%Z; [apply Qle_refl|apply Q.le_min_l].
Qed.

(** What a frame leaves of the meshes: those of the state the quality
    check produces, each rotated. *)
Lemma animate_meshes t g last count :
  animation_state g = Some (last, count) ->
  exists speed,
    speed <= 0.005
    /\ animation_state (animate t g) = Some (t, (count + 1)%Z)
    /\ currentMeshes (animate t g)
       = map (fun im => rotate speed (fst im) (snd im))
           (zip (seqZ 0 (Z.of_nat (length (currentMeshes g)))) (currentMeshes g)).
Proof.
  intros H. unfold animate. rewrite H. cbv zeta.
  destruct (Z.rem (count + 1) 30 =? 0)%Z.
  - destruct (Qeq_bool (t - last) 0).
    + eexists. split; [apply rotationSpeed_capped|]. split; reflexivity.
    + destruct (round (1000 / (t - last)) <? 30)%Z;
        (eexists; split; [apply rotationSpeed_capped|]; split; reflexivity).
  - eexists. split; [apply rotationSpeed_capped|]. split; reflexivity.
Qed.

(** A frame of the animation keeps the meshes and their order, leaves
    every mesh marked as not animated exactly as it is, and turns every
    other mesh by one and the same speed of at most 0.005, weighted by the
    index of the mesh: [speed × (1 + 0.1 index)] about the y axis and
    [0.6 speed × (1 + 0.05 index)] about the x axis.  The frame counter
    goes up by one.  Without a running animation nothing changes. *)
Theorem frame_rotates_animated_meshes_only t g :
  (animation_state g = None -> animate t g = g)
  /\ (forall last count,
        animation_state g = Some (last, count) ->
        animation_state (animate t g) = Some (t, (count + 1)%Z)
        /\ map kind (currentMeshes (animate t g)) = map kind (currentMeshes g)
        /\ map frozen (currentMeshes (animate t g)) = map frozen (currentMeshes g)
        /\ exists speed,
             speed <= 0.005
             /\ forall (i : nat) m,
                  currentMeshes g !! i = Some m ->
                  if frozen m then currentMeshes (animate t g) !! i = Some m
                  else exists m',
                         currentMeshes (animate t g) !! i = Some m'
                         /\ rotation_y m'
                            == rotation_y m + speed * (1 + inject_Z (Z.of_nat i) * 0.1)
                         /\ rotation_x m'
                            == rotation_x m
                               + speed * 0.6 * (1 + inject_Z (Z.of_nat i) * 0.05)).
Proof.
  split.
  - intros H. unfold animate. rewrite H. reflexivity.
  - intros last count H.
    destruct (animate_meshes t g last count H) as (speed & Hcap & Hstate & Hm).
    split; [exact Hstate|]. rewrite Hm.
    assert (Hkeep : forall (f : mesh -> bool) l start,
               (forall s i m, f (rotate s i m) = f m) ->
               map f (map (fun im => rotate speed (fst im) (snd im))
                        (zip (seqZ start (Z.of_nat (length l))) l)) = map f l).
    { intros f l. induction l as [|x l IH]; intros start Hf; [reflexivity|].
      cbn [length]. rewrite seqZ_cons by lia.
      replace (Z.pred (Z.of_nat (S (length l)))) with (Z.of_nat (length l)) by lia.
      cbn [zip zip_with map fst snd]. rewrite Hf. f_equal. apply IH, Hf. }
    assert (Hkind : forall l start,
               map kind (map (fun im => rotate speed (fst im) (snd im))
                           (zip (seqZ start (Z.of_nat (length l))) l)) = map kind l).
    { intros l. induction l as [|x l IH]; intros start; [reflexivity|].
      cbn [length]. rewrite seqZ_cons by lia.
      replace (Z.pred (Z.of_nat (S (length l)))) with (Z.of_nat (length l)) by lia.
      cbn [zip zip_with map fst snd]. f_equal; [|apply IH].
      unfold rotate. destruct (frozen x); reflexivity. }
    split; [apply Hkind|]. split.
    { apply Hkeep. intros s i m. unfold rotate.
      destruct (frozen m) eqn:E; [exact E|reflexivity]. }
    exists speed. split; [exact Hcap|]. intros i m Hi.
    rewrite lookup_map, (lookup_indexed _ 0%Z i m Hi). cbn [fmap option_fmap option_map fst snd].
    unfold rotate. destruct (frozen m); [reflexivity|].
    eexists. split; [reflexivity|]. cbn [rotation_y rotation_x].
    rewrite Z.add_0_l. split; reflexivity.
Qed.

End AnimationFacts.

(* ===================================================================== *)
(** * What the viewer leaves in the page *)
(* ===================================================================== *)

Module PageFacts.

Import FractalAlgorithms EnhancedFractalGenerator FractalViewer.

(** The page with nothing of the viewer in it. *)
Definition clean_page : page :=
  {| container := None; stale_containers := []; controls := 0 |}.

Section Page.

Context {host : Host}.
Variable analyze : list Z -> completion HTMLFeatures.
Variable outerHTML : page -> list Z.

(** The generator instance always returns: with the canvas or with the
    error of the analysis. *)
Lemma instance_returns (extra : nat) html sections s g r :
  exists outcome r',
    EnhancedFractalGenerator.generateFractal analyze (13 + extra) html sections s g r
    = Some (outcome, r').
Proof.
  unfold EnhancedFractalGenerator.generateFractal. cbv zeta.
  destruct (analyze html) as [f|message]; [|eexists; eexists; reflexivity].
  unfold generateFractalSections, mbind, M_bind.
  match goal with
  | |- context [generateFractalSections_from _ _ ?ss ?g0 r] =>
      destruct (SectionFacts.generateFractalSections_from_mounts extra ss 0 g0 r f eq_refl)
        as (g' & r' & E & _)
  end.
  rewrite E. eexists. eexists. reflexivity.
Qed.

(** Closing takes everything of the viewer out of the page — the
    container, containers left behind and the control panels — and keeps
    the cache of modes, the current mode and the features.  Closing again
    changes nothing.  Since no container is left, switching to a cached
    mode after closing puts nothing into the page. *)
Theorem closing_cleans_the_page_and_keeps_the_cache v :
  the_page (closeFractal v) = clean_page
  /\ generator (closeFractal v) = None
  /\ cachedModes (closeFractal v) = cachedModes v
  /\ currentMode (closeFractal v) = currentMode v
  /\ currentFeatures (closeFractal v) = currentFeatures v
  /\ closeFractal (closeFractal v) = closeFractal v
  /\ forall mode, the_page (switchToMode mode (closeFractal v)) = clean_page.
Proof.
  repeat (split; [reflexivity|]). intros mode. unfold switchToMode.
  destruct (cachedModes (closeFractal v) !! mode) as [[canvas g]|]; reflexivity.
Qed.

(** A request to generate always comes back, and the page never holds
    more than one control panel: if there is at most one before a request
    to generate, a switch of mode or a closing, there is at most one
    behind it.  After a generation that did not fail, the current
    container holds the new canvas and nothing else. *)
Theorem never_more_than_one_control_panel (extra : nat) sections s mode v r :
  (controls (the_page v) <= 1)%nat ->
  (exists v' r',
      FractalViewer.generateFractal analyze outerHTML (13 + extra) sections s mode v r
      = Some (v', r')
      /\ (controls (the_page v') <= 1)%nat
      /\ (alerts v' = alerts v ->
          container (the_page v')
          = Some [fresh (dom (instances v))]
          /\ controls (the_page v') = 1%nat))
  /\ (forall m, (controls (the_page (switchToMode m v)) <= 1)%nat)
  /\ controls (the_page (closeFractal v)) = 0%nat.
Proof.
  intros Hc. split; [|split].
  - unfold FractalViewer.generateFractal. cbv zeta.
    set (v1 := ensure_features analyze outerHTML (make_room v)).
    assert (Hinst : instances v1 = instances v).
    { subst v1. unfold ensure_features, make_room.
      destruct (container (the_page v)); cbn;
        repeat match goal with |- context [match ?x with _ => _ end] => destruct x end;
        reflexivity. }
    assert (Halerts : alerts v1 = alerts v).
    { subst v1. unfold ensure_features, make_room.
      destruct (container (the_page v)); cbn;
        repeat match goal with |- context [match ?x with _ => _ end] => destruct x end;
        reflexivity. }
    assert (Hctl : controls (the_page v1) = 0%nat).
    { subst v1. rewrite (ViewerFacts.ensure_features_page analyze outerHTML).
      unfold make_room. destruct (container (the_page v)); cbn; lia. }
    destruct (instance_returns extra (outerHTML (the_page v1)) sections s fresh_generator r)
      as (outcome & r' & E).
    unfold mbind, M_bind. rewrite E.
    destruct outcome as [instance|message].
    + eexists. eexists. split; [reflexivity|]. rewrite <- Hinst.
      destruct mode as [[|c m]|];
        cbn [the_page with_page showControls displayFractal controls container].
      * rewrite Hctl. split; [lia|intros _; split; reflexivity].
      * rewrite Hctl. split; [lia|intros _; split; reflexivity].
      * rewrite Hctl. split; [lia|intros _; split; reflexivity].
    + eexists. eexists. split; [reflexivity|].
      split; [unfold report; cbn [the_page]; rewrite Hctl; lia|].
      unfold report. cbn [alerts]. rewrite Halerts. intros Habs.
      apply (f_equal (@length _)) in Habs. rewrite length_app in Habs. simpl in Habs. lia.
  - intros m. unfold switchToMode. destruct (cachedModes v !! m) as [[canvas g]|]; [|exact Hc].
    cbn [the_page]. destruct (container (the_page v)); cbn; lia.
  - reflexivity.
Qed.

End Page.

Lemma never_more_than_one_control_panel_witness :
  (controls (the_page ViewerFacts.idle_viewer) <= 1)%nat
  /\ exists v' r',
       @FractalViewer.generateFractal DeterminismFacts.plain_host
         (fun _ => Throw (js "no parser")) (fun _ => []) 13 []
         {| background := js "dark"; lighting := true; postProcessing := false;
            animation := true; quality := js "medium" |}
         None ViewerFacts.idle_viewer DeterminismFacts.uneven_source
       = Some (v', r')
       /\ (controls (the_page v') <= 1)%nat.
Proof.
  split; [cbn; lia|].
  destruct (@never_more_than_one_control_panel DeterminismFacts.plain_host
              (fun _ => Throw (js "no parser")) (fun _ => []) 0 []
              {| background := js "dark"; lighting := true; postProcessing := false;
                 animation := true; quality := js "medium" |}
              None ViewerFacts.idle_viewer DeterminismFacts.uneven_source
              ltac:(cbn; lia)) as [(v' & r' & E & Hle & _) _].
  exists v', r'. split; [exact E|exact Hle].
Defined.

End PageFacts.

(* ===================================================================== *)
(** * The class, id and attribute counts *)
(* ===================================================================== *)

Module CountExtractorFacts.

Import RegexFacts CountExtractors.

(** ** What the text of an atom looks like *)

(** The text matched by an atom consists of code units of its set; there
    is one for a plain atom and at least one under [+]. *)
Definition fits (a : atom) (m : list Z) : Prop :=
  Forall (fun c => accepts a c = true) m
  /\ match quant a with
     | One => length m = 1%nat
     | Plus => m <> []
     | Star | LazyStar => True
     end.

Definition shaped (re : regex) (k : list Z -> option match_result) : Prop :=
  forall s r, k s = Some r -> Forall2 fits re (fst r).

Lemma greedy_star_shaped p re k :
  shaped re k ->
  forall s r, greedy_star p k s = Some r ->
    exists m ms, fst r = m :: ms
                 /\ Forall (fun c => p c = true) m /\ Forall2 fits re ms.
Proof.
  intros Hk s. induction s as [|c s IH]; intros r H; cbn [greedy_star] in H.
  - destruct (k []) as [r0|] eqn:E; [|discriminate]. injection H as <-.
    exists [], (fst r0). split; [reflexivity|]. split; [constructor|]. apply (Hk _ _ E).
  - destruct (p c) eqn:Hp.
    + destruct (greedy_star p k s) as [r0|] eqn:E0.
      * injection H as <-. destruct (IH _ eq_refl) as (m & ms & Hf & Hm & Hms).
        exists (c :: m), ms. unfold extend. rewrite Hf. cbn [fst].
        split; [reflexivity|]. split; [constructor; assumption|exact Hms].
      * destruct (k (c :: s)) as [r1|] eqn:E1; [|discriminate]. injection H as <-.
        exists [], (fst r1). split; [reflexivity|]. split; [constructor|].
        apply (Hk _ _ E1).
    + destruct (k (c :: s)) as [r1|] eqn:E1; [|discriminate]. injection H as <-.
      exists [], (fst r1). split; [reflexivity|]. split; [constructor|].
      apply (Hk _ _ E1).
Qed.

Lemma lazy_star_shaped p re k :
  shaped re k ->
  forall s r, lazy_star p k s = Some r ->
    exists m ms, fst r = m :: ms
                 /\ Forall (fun c => p c = true) m /\ Forall2 fits re ms.
Proof.
  intros Hk s. induction s as [|c s IH]; intros r H; cbn [lazy_star] in H.
  - destruct (k []) as [r0|] eqn:E; [|discriminate]. injection H as <-.
    exists [], (fst r0). split; [reflexivity|]. split; [constructor|]. apply (Hk _ _ E).
  - destruct (k (c :: s)) as [r0|] eqn:E.
    + injection H as <-. exists [], (fst r0). split; [reflexivity|].
      split; [constructor|]. apply (Hk _ _ E).
    + destruct (p c) eqn:Hp; [|discriminate].
      destruct (lazy_star p k s) as [r1|] eqn:E1; [|discriminate]. injection H as <-.
      destruct (IH _ eq_refl) as (m & ms & Hf & Hm & Hms).
      exists (c :: m), ms. unfold extend. rewrite Hf. cbn [fst].
      split; [reflexivity|]. split; [constructor; assumption|exact Hms].
Qed.

Lemma exec_at_fits re : shaped re (exec_at re).
Proof.
  induction re as [|a re IH]; intros s r H; cbn [exec_at] in H.
  - injection H as <-. constructor.
  - destruct (quant a) eqn:Hq.
    + destruct s as [|c s]; [discriminate|].
      destruct (accepts a c) eqn:Ha; [|discriminate].
      destruct (exec_at re s) as [r0|] eqn:E; [|discriminate]. injection H as <-.
      cbn [with_text fst]. constructor; [|apply (IH _ _ E)].
      split; [repeat constructor; exact Ha|]. rewrite Hq. reflexivity.
    + destruct (greedy_star_shaped _ _ _ IH _ _ H) as (m & ms & -> & Hm & Hms).
      constructor; [|exact Hms]. split; [exact Hm|]. rewrite Hq. exact I.
    + destruct s as [|c s]; [discriminate|].
      destruct (accepts a c) eqn:Ha; [|discriminate].
      destruct (greedy_star (accepts a) (exec_at re) s) as [r0|] eqn:E; [|discriminate].
      injection H as <-.
      destruct (greedy_star_shaped _ _ _ IH _ _ E) as (m & ms & Hf & Hm & Hms).
      unfold extend. rewrite Hf. cbn [fst]. constructor; [|exact Hms].
      split; [constructor; assumption|]. rewrite Hq. discriminate.
    + destruct (lazy_star_shaped _ _ _ IH _ _ H) as (m & ms & -> & Hm & Hms).
      constructor; [|exact Hms]. split; [exact Hm|]. rewrite Hq. exact I.
Qed.

(** The text of atom [i] of a match found by the scan loop. *)
Lemma exec_all_fits re html m i a :
  In m (exec_all re html) -> re !! i = Some a -> fits a (nth i m []).
Proof.
  intros Hin Ha. unfold exec_all in Hin.
  destruct (TagCountFacts.exec_all_from_In _ _ _ _ Hin) as (P & t & rest & _ & Ht).
  pose proof (exec_at_fits re _ _ Ht) as Hf. cbn [fst] in Hf.
  clear Hin Ht. revert i Ha. induction Hf as [|a' m' re' ms Hhd Htl IH]; intros i Ha.
  - destruct i; discriminate.
  - destruct i as [|i]; cbn [nth].
    + cbn in Ha. injection Ha as <-. exact Hhd.
    + apply IH. exact Ha.
Qed.

(** ** [trim] *)

Lemma Forall_trimStart (P : Z -> Prop) s : Forall P s -> Forall P (trimStart s).
Proof.
  induction 1 as [|c s Hc Hs IH]; cbn [trimStart]; [constructor|].
  destruct (is_space c); [exact IH|constructor; assumption].
Qed.

Lemma Forall_trim (P : Z -> Prop) s : Forall P s -> Forall P (trim s).
Proof.
  intros H. unfold trim, trimEnd.
  apply Forall_reverse, Forall_trimStart, Forall_reverse, Forall_trimStart, H.
Qed.

Lemma head_trimStart s c : head (trimStart s) = Some c -> is_space c = false.
Proof.
  induction s as [|d s IH]; cbn [trimStart]; [discriminate|].
  destruct (is_space d) eqn:E; [exact IH|]. cbn. intros [= <-]. exact E.
Qed.

Lemma trimStart_suffix s : exists p, s = p ++ trimStart s.
Proof.
  induction s as [|d s [p IH]]; cbn [trimStart]; [exists []; reflexivity|].
  destruct (is_space d).
  - exists (d :: p). cbn. f_equal. exact IH.
  - exists []. reflexivity.
Qed.

Lemma last_trimStart s c : last (trimStart s) = Some c -> last s = Some c.
Proof.
  destruct (trimStart_suffix s) as [p Hp]. intros H. rewrite Hp.
  destruct (trimStart s) as [|d t] eqn:E; [discriminate|].
  rewrite last_app, H. reflexivity.
Qed.

(** A trimmed string neither starts nor ends with white space. *)
Definition trimmed (s : list Z) : Prop :=
  (forall c, head s = Some c -> is_space c = false)
  /\ (forall c, last s = Some c -> is_space c = false).

Lemma trimmed_trim s : trimmed (trim s).
Proof.
  unfold trim, trimEnd. split; intros c H.
  - rewrite head_reverse in H. apply last_trimStart in H.
    rewrite last_reverse in H. revert H. apply head_trimStart.
  - rewrite last_reverse in H. revert H. apply head_trimStart.
Qed.

(** ** [split(/\s+/)] *)

Lemma spaceRegex_consumes s r : exec_at spaceRegex s = Some r -> matched r <> [].
Proof.
  intros H. pose proof (exec_at_fits _ _ _ H) as Hf.
  unfold matched. inversion Hf as [|a m re ms [_ Hm] Hnil]; subst.
  inversion Hnil; subst. cbn in Hm |- *. rewrite app_nil_r. exact Hm.
Qed.

Lemma spaceRegex_misses c s :
  exec_at spaceRegex (c :: s) = None -> is_space c = false.
Proof.
  intros H. destruct (is_space c) eqn:E; [|reflexivity]. exfalso.
  pose proof (FingerprintFacts.rest_spaceRegex (c :: s)) as Hr.
  unfold rest in Hr. rewrite H, E in Hr. discriminate.
Qed.

Definition spaceless (s : list Z) : Prop := Forall (fun c => is_space c = false) s.

Lemma split_from_spaceless fuel : forall s piece,
  (length s < fuel)%nat -> spaceless piece ->
  Forall spaceless (split_from fuel spaceRegex piece s).
Proof.
  induction fuel as [|fuel IH]; intros s piece Hlen Hp; [lia|].
  cbn [split_from]. destruct s as [|c s]; [repeat constructor; exact Hp|].
  destruct (exec_at spaceRegex (c :: s)) as [r|] eqn:E.
  - pose proof (spaceRegex_consumes _ _ E) as Hne.
    pose proof (exec_at_shorter _ _ _ E Hne) as Hsh.
    assert (Forall spaceless (piece :: split_from fuel spaceRegex [] (snd r))) as H.
    { constructor; [exact Hp|]. apply IH; [simpl in *; lia|constructor]. }
    destruct (matched r); [contradiction|]. destruct piece; exact H.
  - apply IH; [simpl in *; lia|].
    apply Forall_app. split; [exact Hp|]. repeat constructor.
    apply (spaceRegex_misses _ _ E).
Qed.

Lemma split_spaceless s : Forall spaceless (split spaceRegex s).
Proof.
  unfold split. destruct s as [|c s]; [repeat constructor|].
  apply split_from_spaceless; [simpl; lia|constructor].
Qed.

(** The pieces are pieces of the subject: a property of all code units of
    the subject holds of all code units of each piece. *)
Lemma split_from_Forall (P : Z -> Prop) sep fuel : forall s piece,
  Forall P s -> Forall P piece -> Forall (Forall P) (split_from fuel sep piece s).
Proof.
  induction fuel as [|fuel IH]; intros s piece Hs Hp; cbn [split_from].
  - repeat constructor. apply Forall_app. split; assumption.
  - destruct s as [|c s]; [repeat constructor; exact Hp|].
    pose proof (Forall_inv Hs) as Hc. pose proof (Forall_inv_tail Hs) as Hs'.
    assert (Forall P (piece ++ [c])) as Hpc.
    { apply Forall_app. split; [exact Hp|]. repeat constructor. exact Hc. }
    destruct (exec_at sep (c :: s)) as [r|] eqn:E; [|apply IH; assumption].
    assert (Forall P (snd r)) as Hr.
    { pose proof (exec_at_sound _ _ _ E) as Hsplit. rewrite Hsplit in Hs.
      apply Forall_app in Hs. apply Hs. }
    assert (Forall (Forall P) (piece :: split_from fuel sep [] (snd r))) as H.
    { constructor; [exact Hp|]. apply IH; [exact Hr|constructor]. }
    destruct (matched r); [|exact H]. destruct piece; [|exact H].
    apply IH; [exact Hs'|]. repeat constructor. exact Hc.
Qed.

Lemma split_Forall (P : Z -> Prop) sep s :
  Forall P s -> Forall (Forall P) (split sep s).
Proof.
  intros Hs. unfold split. destruct s as [|c s].
  - destruct (exec_at sep []); repeat constructor.
  - apply split_from_Forall; [exact Hs|constructor].
Qed.

(** ** The keys that the three extractors count *)

Definition class_keys (html : list Z) : list (list Z) :=
  flat_map class_names (exec_all classRegex html).

Definition id_keys (html : list Z) : list (list Z) :=
  filter (fun id => id <> [])
    (map (fun m => trim (nth 6 m [])) (exec_all idRegex html)).

Definition attribute_keys (html : list Z) : list (list Z) :=
  map (fun m => toLowerCase (nth 0 m [])) (exec_all attrRegex html).

Lemma extractClassCounts_keys html :
  extractClassCounts html = fold_left count_key (class_keys html) [].
Proof.
  unfold extractClassCounts, class_keys. generalize (@nil (list Z * count)).
  induction (exec_all classRegex html) as [|m ms IH]; intros o; [reflexivity|].
  cbn [fold_left flat_map]. rewrite fold_left_app. apply IH.
Qed.

Lemma extractIdCounts_keys html :
  extractIdCounts html = fold_left count_key (id_keys html) [].
Proof.
  unfold extractIdCounts, id_keys. generalize (@nil (list Z * count)).
  induction (exec_all idRegex html) as [|m ms IH]; intros o; [reflexivity|].
  cbn [fold_left map]. rewrite filter_cons.
  destruct (decide (trim (nth 6 m []) = [])) as [E|E].
  - rewrite decide_False by (intros H; apply H, E). apply IH.
  - rewrite decide_True by exact E. cbn [fold_left]. apply IH.
Qed.

Lemma extractAttributeCounts_keys html :
  extractAttributeCounts html = fold_left count_key (attribute_keys html) [].
Proof.
  unfold extractAttributeCounts, attribute_keys. generalize (@nil (list Z * count)).
  induction (exec_all attrRegex html) as [|m ms IH]; intros o; [reflexivity|].
  cbn [fold_left map]. apply IH.
Qed.

(** ** The counting object *)

(** How often [key] is among [keys]. *)
Definition occurrences (key : list Z) (keys : list (list Z)) : nat :=
  length (filter (fun k => k = key) keys).

(** The value after one more count. *)
Definition counted (key : list Z) (v : option count) : count :=
  match v with
  | Some (Num n) => if n =? 0 then Num 1 else Num (n + 1)
  | Some (Text k) => Text (S k)
  | None => if bool_decide (key ∈ prototype_functions) then Text 1 else Num 1
  end.

Lemma own_count_key o k key :
  own (count_key o k) key
  = if decide (k = key /\ key <> proto) then Some (counted key (own o key))
    else own o key.
Proof.
  unfold count_key. destruct (decide (k = proto)) as [Hp|Hp].
  - rewrite decide_False; [reflexivity|]. intros [-> H]. contradiction.
  - rewrite TagCountFacts.own_assign. destruct (decide (k = key)) as [->|Hne].
    + rewrite decide_True by (split; [reflexivity|exact Hp]). reflexivity.
    + rewrite decide_False; [reflexivity|]. intros [H _]. contradiction.
Qed.

Lemma own_fold_count_key keys : forall o key,
  key <> proto ->
  own (fold_left count_key keys o) key
  = Nat.iter (occurrences key keys) (fun v => Some (counted key v)) (own o key).
Proof.
  induction keys as [|k keys IH]; intros o key Hp; [reflexivity|].
  cbn [fold_left]. rewrite (IH _ _ Hp), own_count_key. unfold occurrences.
  rewrite filter_cons. destruct (decide (k = key)) as [->|Hne].
  - rewrite decide_True by (split; [reflexivity|exact Hp]).
    cbn [length]. rewrite Nat.iter_succ_r. reflexivity.
  - rewrite decide_False; [reflexivity|]. intros [H _]. contradiction.
Qed.

Lemma own_fold_count_key_proto keys : forall o,
  own (fold_left count_key keys o) proto = own o proto.
Proof.
  induction keys as [|k keys IH]; intros o; [reflexivity|].
  cbn [fold_left]. rewrite IH, own_count_key.
  rewrite decide_False; [reflexivity|]. intros [_ H]. apply H. reflexivity.
Qed.

Lemma iter_counted key n :
  Nat.iter (S n) (fun v => Some (counted key v)) None
  = Some (if bool_decide (key ∈ prototype_functions) then Text (S n)
          else Num (Z.of_nat (S n))).
Proof.
  induction n as [|n IH].
  - rewrite Nat.iter_succ.
    change (Nat.iter 0 (fun v => Some (counted key v)) None) with (@None count).
    cbn [counted]. destruct (bool_decide _); reflexivity.
  - rewrite Nat.iter_succ, IH. cbn [counted].
    destruct (bool_decide (key ∈ prototype_functions)); [reflexivity|].
    replace (Z.of_nat (S n) =? 0) with false by (symmetry; apply Z.eqb_neq; lia).
    do 2 f_equal. lia.
Qed.

(** The value that a counting object holds for [key] after counting
    [keys]. *)
Definition held (key : list Z) (keys : list (list Z)) : option count :=
  if decide (key = proto) then None
  else
    match occurrences key keys with
    | O => None
    | S n =>
        Some (if bool_decide (key ∈ prototype_functions) then Text (S n)
              else Num (Z.of_nat (S n)))
    end.

Lemma own_counted keys key : own (fold_left count_key keys []) key = held key keys.
Proof.
  unfold held. destruct (decide (key = proto)) as [->|Hp].
  - apply own_fold_count_key_proto.
  - rewrite (own_fold_count_key _ _ _ Hp). cbn [own].
    destruct (occurrences key keys) as [|n]; [reflexivity|]. apply iter_counted.
Qed.

Lemma held_key key keys v : held key keys = Some v -> key ∈ keys.
Proof.
  unfold held. destruct (decide _) as [|Hp]; [discriminate|].
  destruct (occurrences key keys) as [|k0] eqn:E; [discriminate|]. intros _.
  unfold occurrences in E.
  destruct (filter (fun k => k = key) keys) as [|k l] eqn:Ef; [discriminate|].
  assert (k ∈ filter (fun k => k = key) keys) as Hin by (rewrite Ef; left).
  apply list_elem_of_filter in Hin. destruct Hin as [-> Hin]. exact Hin.
Qed.

(** Each of the three counting objects maps a key to the number of times
    the extractor found it.  A key that names a function of
    [Object.prototype] holds a text instead, the source text of the
    function followed by one character 1 for each time; the key
    [__proto__] is never set. *)
Theorem counting_objects_hold_numbers_of_occurrences html key :
  own (extractClassCounts html) key = held key (class_keys html)
  /\ own (extractIdCounts html) key = held key (id_keys html)
  /\ own (extractAttributeCounts html) key = held key (attribute_keys html).
Proof.
  rewrite extractClassCounts_keys, extractIdCounts_keys, extractAttributeCounts_keys.
  repeat split; apply own_counted.
Qed.

(** ** The shape of the keys *)

Lemma id_key_shape html key :
  key ∈ id_keys html ->
  key <> [] /\ trimmed key /\ Forall (fun c => is_quote c = false) key.
Proof.
  unfold id_keys. intros H. apply list_elem_of_filter in H. destruct H as [Hne H].
  apply list_elem_of_In, in_map_iff in H. destruct H as (m & <- & Hm).
  split; [exact Hne|]. split; [apply trimmed_trim|]. apply Forall_trim.
  destruct (exec_all_fits idRegex html m 6 (Atom no_quote Star) Hm eq_refl) as [Hf _].
  eapply Forall_impl; [exact Hf|]. intros c Hc. cbn in Hc. unfold no_quote in Hc.
  apply negb_true_iff in Hc. exact Hc.
Qed.

(** The code units of a lower-cased word: [a-z], [0-9] and the
    underscore. *)
Definition is_lower_word_char (c : Z) : bool :=
  ((97 <=? c) && (c <=? 122)) || ((48 <=? c) && (c <=? 57)) || (c =? 95).

Lemma lower_word_char c : is_word_char c = true -> is_lower_word_char (lower c) = true.
Proof.
  unfold is_word_char, is_lower_word_char, lower.
  destruct (Z.leb_spec 65 c), (Z.leb_spec c 90); cbn [andb]; intros Hw;
    repeat match goal with
           | |- context [?a <=? ?b] => destruct (Z.leb_spec a b)
           | |- context [?a =? ?b] => destruct (Z.eqb_spec a b)
           | H : context [?a <=? ?b] |- _ => destruct (Z.leb_spec a b)
           | H : context [?a =? ?b] |- _ => destruct (Z.eqb_spec a b)
           end; cbn in *; try reflexivity; try discriminate; lia.
Qed.

Lemma attribute_key_shape html key :
  key ∈ attribute_keys html ->
  key <> [] /\ Forall (fun c => is_lower_word_char c = true) key.
Proof.
  unfold attribute_keys. intros H.
  apply list_elem_of_In, in_map_iff in H. destruct H as (m & <- & Hm).
  destruct (exec_all_fits attrRegex html m 0 (Atom is_word_char Plus) Hm eq_refl)
    as [Hf Hne].
  cbn in Hne, Hf. split.
  - unfold toLowerCase. destruct (nth 0 m []); [contradiction|discriminate].
  - unfold toLowerCase. apply Forall_map. eapply Forall_impl; [exact Hf|].
    intros c Hc. apply lower_word_char, Hc.
Qed.

Lemma class_key_shape html key :
  key ∈ class_keys html ->
  key <> []
  /\ Forall (fun c => is_space c = false /\ is_quote c = false) key.
Proof.
  unfold class_keys. intros H.
  apply list_elem_of_In, in_flat_map in H. destruct H as (m & Hm & H).
  apply list_elem_of_In in H. unfold class_names in H.
  apply list_elem_of_filter in H. destruct H as [Hne H]. split.
  - intros ->. apply Hne. reflexivity.
  - destruct (exec_all_fits classRegex html m 9 (Atom no_quote Star) Hm eq_refl)
      as [Hf _].
    pose proof (split_spaceless (nth 9 m [])) as Hs.
    pose proof (split_Forall _ spaceRegex _ Hf) as Hq.
    rewrite Forall_forall in Hs, Hq. specialize (Hs _ H). specialize (Hq _ H).
    unfold spaceless in Hs. rewrite Forall_forall in Hs, Hq.
    apply Forall_forall. intros c Hc. split; [apply Hs, Hc|].
    specialize (Hq _ Hc). cbn in Hq. unfold no_quote in Hq.
    apply negb_true_iff in Hq. exact Hq.
Qed.

(** Every id that [extractIdCounts] counts is a trimmed, non-empty text
    without a quote character; its value is the number of times it was
    found, at least 1, unless the id names a function of
    [Object.prototype]. *)
Theorem counted_ids_are_trimmed_and_not_empty html key v :
  own (extractIdCounts html) key = Some v ->
  key <> [] /\ trimmed key /\ Forall (fun c => is_quote c = false) key
  /\ key <> proto
  /\ match v with
     | Num n => n = Z.of_nat (occurrences key (id_keys html)) /\ 1 <= n
     | Text k => key ∈ prototype_functions
     end.
Proof.
  rewrite extractIdCounts_keys, own_counted. intros H.
  destruct (id_key_shape html key (held_key _ _ _ H)) as (Hne & Ht & Hq).
  split; [exact Hne|]. split; [exact Ht|]. split; [exact Hq|].
  unfold held in H. destruct (decide (key = proto)) as [|Hp]; [discriminate|].
  split; [exact Hp|].
  destruct (occurrences key (id_keys html)) as [|n]; [discriminate|].
  destruct (bool_decide (key ∈ prototype_functions)) eqn:E; injection H as <-.
  - apply bool_decide_eq_true in E. exact E.
  - split; [reflexivity|lia].
Qed.

Lemma counted_ids_are_trimmed_and_not_empty_witness :
  own (extractIdCounts (js "<p id=' a b '><i id = 'a b'>")) (js "a b") = Some (Num 2)
  /\ js "a b" <> [] /\ trimmed (js "a b").
Proof.
  assert (own (extractIdCounts (js "<p id=' a b '><i id = 'a b'>")) (js "a b")
          = Some (Num 2)) as H by (vm_compute; reflexivity).
  split; [exact H|].
  destruct (counted_ids_are_trimmed_and_not_empty _ _ _ H) as (Hne & Ht & _).
  split; [exact Hne|exact Ht].
Defined.

(** Every attribute name that [extractAttributeCounts] counts is a
    non-empty word in lower case: letters [a-z], digits and underscores. *)
Theorem counted_attribute_names_are_lowercase_words html key v :
  own (extractAttributeCounts html) key = Some v ->
  key <> [] /\ Forall (fun c => is_lower_word_char c = true) key
  /\ match v with
     | Num n => n = Z.of_nat (occurrences key (attribute_keys html)) /\ 1 <= n
     | Text k => key = js "constructor"
     end.
Proof.
  rewrite extractAttributeCounts_keys, own_counted. intros H.
  destruct (attribute_key_shape html key (held_key _ _ _ H)) as (Hne & Hw).
  split; [exact Hne|]. split; [exact Hw|].
  unfold held in H. destruct (decide (key = proto)) as [|Hp]; [discriminate|].
  destruct (occurrences key (attribute_keys html)) as [|n]; [discriminate|].
  destruct (bool_decide (key ∈ prototype_functions)) eqn:E; injection H as <-.
  - apply bool_decide_eq_true in E. unfold prototype_functions in E.
    cbn [map] in E.
    repeat (apply elem_of_cons in E; destruct E as [E|E];
            [try exact E; exfalso; subst key; revert Hw; vm_compute;
             intros Hw; repeat (apply Forall_cons in Hw; destruct Hw as [? Hw]);
             discriminate|]).
    apply elem_of_nil in E. contradiction.
  - split; [reflexivity|lia].
Qed.

Lemma counted_attribute_names_are_lowercase_words_witness :
  own (extractAttributeCounts (js "<a HREF='x' class='b'><a href='y'>")) (js "href")
  = Some (Num 2)
  /\ js "href" <> [].
Proof.
  assert (own (extractAttributeCounts (js "<a HREF='x' class='b'><a href='y'>"))
            (js "href") = Some (Num 2)) as H by (vm_compute; reflexivity).
  split; [exact H|].
  destruct (counted_attribute_names_are_lowercase_words _ _ _ H) as (Hne & _).
  exact Hne.
Defined.

(** Every class name that [extractClassCounts] counts is a non-empty text
    without white space and without a quote character. *)
Theorem counted_class_names_have_no_white_space html key v :
  own (extractClassCounts html) key = Some v ->
  key <> []
  /\ Forall (fun c => is_space c = false /\ is_quote c = false) key
  /\ key <> proto
  /\ match v with
     | Num n => n = Z.of_nat (occurrences key (class_keys html)) /\ 1 <= n
     | Text k => key ∈ prototype_functions
     end.
Proof.
  rewrite extractClassCounts_keys, own_counted. intros H.
  destruct (class_key_shape html key (held_key _ _ _ H)) as (Hne & Hs).
  split; [exact Hne|]. split; [exact Hs|].
  unfold held in H. destruct (decide (key = proto)) as [|Hp]; [discriminate|].
  split; [exact Hp|].
  destruct (occurrences key (class_keys html)) as [|n]; [discriminate|].
  destruct (bool_decide (key ∈ prototype_functions)) eqn:E; injection H as <-.
  - apply bool_decide_eq_true in E. exact E.
  - split; [reflexivity|lia].
Qed.

Lemma counted_class_names_have_no_white_space_witness :
  own (extractClassCounts (js "<p class=' box  wide'><i class='box'>")) (js "box")
  = Some (Num 2)
  /\ js "box" <> [].
Proof.
  assert (own (extractClassCounts (js "<p class=' box  wide'><i class='box'>"))
            (js "box") = Some (Num 2)) as H by (vm_compute; reflexivity).
  split; [exact H|].
  destruct (counted_class_names_have_no_white_space _ _ _ H) as (Hne & _).
  exact Hne.
Defined.

End CountExtractorFacts.

(* ===================================================================== *)
(** * The stability of the fingerprint and the scope of the tag counts *)
(* ===================================================================== *)

Module FingerprintStability.

Import RegexFacts FingerprintSpec FingerprintFacts FingerprintInvariance.

(** A serialised document with one class value.  The text of its first
    paragraph ends with the letters of style, an equals sign and a double
    quote, which text nodes keep as they are. *)
Definition page (value : list Z) : list Z :=
  (js "<html><head></head><body><p>style=" ++ [dq] ++ js "</p><p ")
  ++ attribute "class" value ++ js "></p></body></html>".



End FingerprintStability.

Module TagCountScope.

Import RegexFacts TagCountFacts.

(** A serialised document, with or without a comment that holds markup
    which was taken out of the page. *)
Definition with_comment : list Z :=
  js "<html><head></head><body><!-- <b>old</b> --><p>new</p></body></html>".

Definition without_comment : list Z :=
  js "<html><head></head><body><p>new</p></body></html>".

(** C10, as stated, fails: a comment contributes a key.  The pattern is
    run over the whole text, the inside of comments included, so an
    opening tag written inside a comment is counted. *)
Lemma tag_in_comment_is_counted :
  own (extractTagCounts with_comment) (js "b") = Some (Num 1)
  /\ own (extractTagCounts without_comment) (js "b") = None.
Proof. split; vm_compute; reflexivity. Qed.

(** C10, amended.  For every markup, every key of the tag-count object is
    a non-empty name spelled in [[a-z0-9\-]], and every key but
    [constructor] holds a number of at least 1: the number of matches of
    the tag pattern whose name lower-cases to the key, so that names which
    differ in letter case only are counted together.  A match starts at an
    opening angle bracket that is directly followed by a name character:
    markup without such a place has no counts, and a piece without such a
    place (a closing tag, a doctype declaration, a comment without tag
    text) that ends with a closing angle bracket adds nothing where it
    stands at the start or behind a closing bracket. *)
Theorem tag_counts_hold_lowercase_names_of_opening_tags html :
  (forall key v,
      own (extractTagCounts html) key = Some v ->
      key <> [] /\ Forall (fun c => is_key_char c = true) key)
  /\ (forall key,
        key <> js "constructor" ->
        own (extractTagCounts html) key
        = match tally key (exec_all tagRegex html) with
          | O => None
          | S n => Some (Num (Z.of_nat (S n)))
          end)
  /\ (forall key v,
        key <> js "constructor" ->
        own (extractTagCounts html) key = Some v -> exists n, v = Num n /\ 1 <= n)
  /\ (has_tag_start html = false -> extractTagCounts html = [])
  /\ (forall A X B,
        html = A ++ X ++ B ->
        closed A = true -> closed X = true -> has_tag_start X = false ->
        extractTagCounts html = extractTagCounts (A ++ B)).
Proof.
  split; [|split; [|split; [|split]]].
  - intros key v H. rewrite own_extractTagCounts in H.
    destruct (tally_positive key (exec_all tagRegex html)) as (m & Hin & Hm).
    { destruct (tally key (exec_all tagRegex html)); [discriminate|auto]. }
    destruct (exec_all_from_In _ _ _ _ Hin) as (P & t & rest & Hs & Ht).
    rewrite exec_at_tagRegex in Ht.
    destruct (tag_at_Some _ _ _ Ht) as (name & attrs & -> & -> & Hne & Hrun & Hname & _).
    unfold tag_name, group1 in Hm. cbn [nth] in Hm. subst key. split.
    + destruct name; [contradiction|discriminate].
    + apply toLowerCase_key, Hname.
  - intros key Hkey. apply own_extractTagCounts_number, Hkey.
  - intros key v Hkey Hv. rewrite (own_extractTagCounts_number html key Hkey) in Hv.
    destruct (tally key (exec_all tagRegex html)); [discriminate|].
    injection Hv as <-. eexists. split; [reflexivity|lia].
  - intros H. unfold extractTagCounts. rewrite (exec_all_no_start html H). reflexivity.
  - intros A X B -> HA HX Hno. unfold extractTagCounts.
    rewrite (exec_all_app_closed (X ++ B) (length A) A (le_n _) HA).
    rewrite (exec_all_app_closed B (length X) X (le_n _) HX).
    rewrite (exec_all_no_start X Hno).
    rewrite (exec_all_app_closed B (length A) A (le_n _) HA). reflexivity.
Qed.

End TagCountScope.
